(** * VLURes: checkpointed dispatch of vision-language requests

    A shallow embedding of the coordination logic of [run_gemini_async.py]
    (direct mode) and [run_vlm_batch.py] (batch mode): item loading and
    text pairing, the checkpoint store, the two dispatchers and the result
    finalizer, followed by the properties proved about them.

    Conventions.
    - A Python [str] is a [string]; a character of type [ascii] is read as
      the Unicode code point of the same number (U+0000 to U+00FF).
    - A [dict] or [OrderedDict] whose order is observable (it is dumped to
      JSON in insertion order) is an association list with the update
      discipline of Python: assigning to a present key keeps its position.
    - The file system and the remote model are oracles gathered in records;
      a Python exception that the code catches is a constructor of the
      oracle's answer. *)

From Stdlib Require Import List String Ascii Bool Arith NArith Lia.
From Stdlib Require Import Permutation Sorted DecimalString DecimalPos DecimalN.
From Equations Require Import Equations.
Import ListNotations.

Open Scope string_scope.
Open Scope list_scope.
Open Scope nat_scope.

(** ** Python string primitives *)

Module Py.

(** [str.isdigit] on one code point below U+0100: the ten decimal digits
    and the superscripts U+00B2, U+00B3 and U+00B9. *)
Definition is_decimal (c : ascii) : bool :=
  let n := nat_of_ascii c in (48 <=? n) && (n <=? 57).

Definition isdigit (c : ascii) : bool :=
  let n := nat_of_ascii c in
  is_decimal c || (n =? 178) || (n =? 179) || (n =? 185).

(** [str.isspace] on one code point below U+0100. *)
Definition isspace (c : ascii) : bool :=
  let n := nat_of_ascii c in
  ((9 <=? n) && (n <=? 13)) || ((28 <=? n) && (n <=? 32))
  || (n =? 133) || (n =? 160).

(** [str.lower] on one code point below U+0100. *)
Definition lower_char (c : ascii) : ascii :=
  let n := nat_of_ascii c in
  if ((65 <=? n) && (n <=? 90))
     || ((192 <=? n) && (n <=? 222) && negb (n =? 215))
  then ascii_of_nat (n + 32) else c.

Fixpoint lower (s : string) : string :=
  match s with
  | EmptyString => EmptyString
  | String c r => String (lower_char c) (lower r)
  end.

(** [''.join(filter(f, s))] *)
Fixpoint filter (f : ascii -> bool) (s : string) : string :=
  match s with
  | EmptyString => EmptyString
  | String c r => if f c then String c (filter f r) else filter f r
  end.

Fixpoint forallb (f : ascii -> bool) (s : string) : bool :=
  match s with
  | EmptyString => true
  | String c r => f c && forallb f r
  end.

Fixpoint contains (c : ascii) (s : string) : bool :=
  match s with
  | EmptyString => false
  | String d r => Ascii.eqb d c || contains c r
  end.

Definition startswith (pre s : string) : bool := String.prefix pre s.

Fixpoint rev (s : string) : string :=
  match s with
  | EmptyString => EmptyString
  | String c r => (rev r ++ String c EmptyString)%string
  end.

Definition endswith (s suf : string) : bool := String.prefix (rev suf) (rev s).

Fixpoint lstrip (s : string) : string :=
  match s with
  | EmptyString => EmptyString
  | String c r => if isspace c then lstrip r else s
  end.

(** [str.strip()] *)
Definition strip (s : string) : string := rev (lstrip (rev (lstrip s))).

(** [int(s)] for an undecorated literal: a non-empty run of decimal digits
    is read in base ten, most significant digit first. [None] stands for
    [ValueError]. The decorations [int] also accepts (surrounding white
    space, a sign, single underscores between digits) are not modelled:
    they never occur in a string produced by [filter isdigit] or [str]. *)
Definition digit_value (c : ascii) : option N :=
  if is_decimal c then Some (N.of_nat (nat_of_ascii c - 48)) else None.

Fixpoint int_acc (acc : N) (s : string) : option N :=
  match s with
  | EmptyString => Some acc
  | String c r =>
      match digit_value c with
      | Some d => int_acc (10 * acc + d)%N r
      | None => None
      end
  end.

Definition int (s : string) : option N :=
  match s with
  | EmptyString => None
  | _ => int_acc 0%N s
  end.

(** [str(n)] for a non-negative integer. *)
Definition str (n : N) : string := NilEmpty.string_of_uint (N.to_uint n).

End Py.

(** ** [os.path] on POSIX paths *)

Module Path.

Definition sep : ascii := "/"%char.
Definition extsep : ascii := "."%char.

(** [p[p.rfind(c)+1:]] when [c] occurs in [p]. *)
Fixpoint after_last (c : ascii) (p : string) : option string :=
  match p with
  | EmptyString => None
  | String d r =>
      match after_last c r with
      | Some t => Some t
      | None => if Ascii.eqb d c then Some r else None
      end
  end.

(** [p[:p.rfind(c)+1]], empty when [c] does not occur. *)
Fixpoint upto_last (c : ascii) (p : string) : string :=
  match p with
  | EmptyString => EmptyString
  | String d r =>
      if Ascii.eqb d c || Py.contains c r then String d (upto_last c r)
      else EmptyString
  end.

Definition basename (p : string) : string :=
  match after_last sep p with
  | Some t => t
  | None => p
  end.

Fixpoint rstrip_sep_rev (r : string) : string :=
  match r with
  | EmptyString => EmptyString
  | String c t => if Ascii.eqb c sep then rstrip_sep_rev t else r
  end.

Definition dirname (p : string) : string :=
  let head := upto_last sep p in
  if Py.forallb (fun c => Ascii.eqb c sep) head then head
  else Py.rev (rstrip_sep_rev (Py.rev head)).

(** [s = a ++ e] with [e] starting at the last dot of [s]. *)
Fixpoint split_last_dot (s : string) : option (string * string) :=
  match s with
  | EmptyString => None
  | String c r =>
      match split_last_dot r with
      | Some (a, e) => Some (String c a, e)
      | None => if Ascii.eqb c extsep then Some (EmptyString, s) else None
      end
  end.

(** [os.path.splitext]: the extension starts at the last dot of the last
    path component, unless only dots precede it there. *)
Definition splitext (p : string) : string * string :=
  let head := upto_last sep p in
  let name := basename p in
  match split_last_dot name with
  | Some (a, e) =>
      if Py.forallb (fun c => Ascii.eqb c extsep) a then (p, EmptyString)
      else ((head ++ a)%string, e)
  | None => (p, EmptyString)
  end.

(** [os.path.join(a, b)] *)
Definition join (a b : string) : string :=
  if Py.startswith "/" b then b
  else match a with
       | EmptyString => b
       | _ => if Py.endswith a "/" then (a ++ b)%string
              else (a ++ String sep b)%string
       end.

End Path.

(** ** Oracles *)

(** What [read_text_file] can meet when it opens and decodes a file. *)
Inductive read_outcome :=
| ReadOk (content : string)
| ReadUnicodeDecodeError
| ReadOtherError.

Record FileSystem := {
  fs_isdir : string -> bool;
  fs_listdir : string -> list string;
  fs_exists : string -> bool;
  (** the image at this path opens and encodes to a non-empty payload *)
  fs_encodes : string -> bool;
  fs_read_utf8 : string -> read_outcome;
  fs_read_latin1 : string -> read_outcome
}.

(** ** Insertion-ordered dictionaries

    [dict] and [OrderedDict] with string keys: assignment to a present key
    replaces the value where it stands, assignment to a new key appends. *)

Definition odict := list (string * string).

Fixpoint od_get {V : Type} (k : string) (d : list (string * V)) : option V :=
  match d with
  | [] => None
  | (k', v) :: r => if String.eqb k' k then Some v else od_get k r
  end.

Definition od_mem {V : Type} (k : string) (d : list (string * V)) : bool :=
  match od_get k d with Some _ => true | None => false end.

Fixpoint od_set {V : Type} (k : string) (v : V) (d : list (string * V))
  : list (string * V) :=
  match d with
  | [] => [(k, v)]
  | (k', v') :: r =>
      if String.eqb k' k then (k, v) :: r else (k', v') :: od_set k v r
  end.

(** [d.update(new)] *)
Definition od_update (d new : odict) : odict :=
  fold_left (fun acc kv => od_set (fst kv) (snd kv) acc) new d.

Definition od_keys (d : odict) : list string := map fst d.

(** [k in s] for a set of strings *)
Definition str_in (k : string) (s : list string) : bool :=
  existsb (String.eqb k) s.

(** ** [sorted(xs, key=...)]: a stable sort on a key already computed *)

Section StableSort.
Context {K A : Type} (lt : K -> K -> bool).

Fixpoint insert_by (x : K * A) (l : list (K * A)) : list (K * A) :=
  match l with
  | [] => [x]
  | y :: r => if lt (fst y) (fst x) then y :: insert_by x r else x :: l
  end.

Fixpoint sort_by (l : list (K * A)) : list (K * A) :=
  match l with
  | [] => []
  | x :: r => insert_by x (sort_by r)
  end.
End StableSort.

(** The key function is applied to every element before any comparison;
    one failure makes the whole call fail. *)
Fixpoint decorate {K A : Type} (key : A -> option K) (l : list A)
  : option (list (K * A)) :=
  match l with
  | [] => Some []
  | x :: r =>
      match key x, decorate key r with
      | Some k, Some dr => Some ((k, x) :: dr)
      | _, _ => None
      end
  end.

(** ** Result finalizer

    [OrderedDict(sorted(task_results.items(), key=lambda kv: int(kv[0])))].
    [None]: [int] raises on a key, or a key is a literal with a sign, white
    space or underscores, which [Py.int] does not cover. *)
Definition finalize (task_results : odict) : option odict :=
  match decorate (fun kv => Py.int (fst kv)) task_results with
  | Some dl => Some (map snd (sort_by N.ltb dl))
  | None => None
  end.

(** ** Checkpoint store *)

(** What [load_checkpoint] finds at the checkpoint path: no file, a file
    that [open] or [json.load] rejects, or a JSON object of strings, in the
    order of the file. *)
Inductive checkpoint_file :=
| CkAbsent
| CkUnreadable
| CkObject (d : odict).

Definition load_checkpoint (f : checkpoint_file) : odict :=
  match f with
  | CkObject d => d
  | CkAbsent | CkUnreadable => []
  end.

(** [json.dump(results, f, ensure_ascii=False, indent=4)] writes the text
    below to [f], one chunk per [f.write]. *)
Module Json.

Definition quote : ascii := "034"%char.
Definition backslash : ascii := "092"%char.
Definition newline : ascii := "010"%char.

Definition hex_digit (n : nat) : ascii :=
  if n <? 10 then ascii_of_nat (48 + n) else ascii_of_nat (87 + n).

(** [ESCAPE_DCT] of [json.encoder], used when [ensure_ascii] is false. *)
Definition escape_char (c : ascii) : string :=
  let n := nat_of_ascii c in
  if n =? 34 then String backslash (String quote EmptyString)
  else if n =? 92 then String backslash (String backslash EmptyString)
  else if n =? 8 then String backslash "b"
  else if n =? 9 then String backslash "t"
  else if n =? 10 then String backslash "n"
  else if n =? 12 then String backslash "f"
  else if n =? 13 then String backslash "r"
  else if n <? 32 then
    String backslash
      (String "u" (String "0" (String "0"
         (String (hex_digit (n / 16))
            (String (hex_digit (n mod 16)) EmptyString)))))
  else String c EmptyString.

Fixpoint escape (s : string) : string :=
  match s with
  | EmptyString => EmptyString
  | String c r => (escape_char c ++ escape r)%string
  end.

Definition encode_string (s : string) : string :=
  String quote (escape s ++ String quote EmptyString).

Definition newline_indent : string := String newline "    ".
Definition item_separator : string := String "," newline_indent.

Definition entry_chunks (kv : string * string) : list string :=
  [encode_string (fst kv); ": "; encode_string (snd kv)].

Fixpoint more_entries (d : odict) : list string :=
  match d with
  | [] => []
  | kv :: r => item_separator :: entry_chunks kv ++ more_entries r
  end.

(** The chunks [_iterencode_dict] yields for a dictionary of strings. *)
Definition chunks (d : odict) : list string :=
  match d with
  | [] => ["{}"]
  | kv :: r =>
      "{" :: newline_indent :: entry_chunks kv ++ more_entries r
        ++ [String newline EmptyString; "}"]
  end.

Definition dumps (d : odict) : string :=
  fold_right String.append EmptyString (chunks d).

End Json.

(** A text file: [None] when it does not exist. [open(path, 'w')] creates
    or truncates it at once; each [write] appends. *)
Definition file := option string.

Inductive file_op :=
| OpenW
| WriteChunk (chunk : string).

Definition apply_op (f : file) (op : file_op) : file :=
  match op, f with
  | OpenW, _ => Some EmptyString
  | WriteChunk c, Some s => Some (s ++ c)%string
  | WriteChunk c, None => Some c
  end.

Definition run_ops (f : file) (ops : list file_op) : file :=
  fold_left apply_op ops f.

(** The file operations of one [save_checkpoint] call, in order. *)
Definition save_ops (results : odict) : list file_op :=
  OpenW :: map WriteChunk (Json.chunks results).

Definition save_checkpoint (results : odict) (f : file) : file :=
  run_ops f (save_ops results).

(** The process stops after the first [n] operations of a save. *)
Definition save_interrupted (n : nat) (results : odict) (f : file) : file :=
  run_ops f (firstn n (save_ops results)).

(** ** [read_text_file]: utf-8 first, latin-1 on a decoding error *)
Definition read_text_file (fs : FileSystem) (text_path : string)
  : option string :=
  match fs_read_utf8 fs text_path with
  | ReadOk s => Some (Py.strip s)
  | ReadUnicodeDecodeError =>
      match fs_read_latin1 fs text_path with
      | ReadOk s => Some (Py.strip s)
      | _ => None
      end
  | ReadOtherError => None
  end.

(** Truth value of an optional path: [None] and the empty string are
    false. *)
Definition truthy (o : option string) : bool :=
  match o with
  | Some (String _ _) => true
  | _ => false
  end.

(** [f.lower().endswith(suffixes)] *)
Definition has_extension (suffixes : list string) (f : string) : bool :=
  existsb (Py.endswith (Py.lower f)) suffixes.

(** What one run leaves behind, in order: model calls, sleeps, saves. *)
Inductive log_entry (I : Type) :=
| LogCall (item : I) (attempt : nat)
| LogSleep (seconds : nat)
| LogSave (results : odict).
Arguments LogCall {I}.
Arguments LogSleep {I}.
Arguments LogSave {I}.

Definition is_call {I} (e : log_entry I) : bool :=
  match e with LogCall _ _ => true | _ => false end.

Definition requests {I} (log : list (log_entry I)) : nat :=
  List.length (List.filter is_call log).

Fixpoint last_save {I} (log : list (log_entry I)) : option odict :=
  match log with
  | [] => None
  | e :: r =>
      match last_save r with
      | Some d => Some d
      | None => match e with LogSave d => Some d | _ => None end
      end
  end.

(** ** Languages and file names *)

(** [LANGUAGE_CONFIGS[language]["code"]]; [None] is the [KeyError] of a
    language that is not configured. *)
Definition lang_code (language : string) : option string :=
  if String.eqb language "English" then Some "En"
  else if String.eqb language "Japanese" then Some "Jp"
  else if String.eqb language "Swahili" then Some "Sw"
  else if String.eqb language "Urdu" then Some "Ur"
  else None.

(** [f"checkpoint_task{task_num}_{lang_code}.json"] *)
Definition checkpoint_basename (task_num : N) (code : string) : string :=
  ("checkpoint_task" ++ Py.str task_num ++ "_" ++ code ++ ".json")%string.

(** [f"results_{model}_1shot_{code}_task{task_num}_Rationales.json"] *)
Definition results_basename (model code : string) (task_num : N) : string :=
  ("results_" ++ model ++ "_1shot_" ++ code ++ "_task" ++ Py.str task_num
   ++ "_Rationales.json")%string.

(** * Direct mode: [run_gemini_async.py] *)

Module Gemini.

Record config := {
  concurrency : nat;
  retry_attempts : nat;
  retry_delay : nat;
  progress_update_frequency : nat
}.

Definition BASE_CONFIG : config := {|
  concurrency := 10;
  retry_attempts := 3;
  retry_delay := 5;
  progress_update_frequency := 10
|}.

(** [None] is Python's [None]: no digit in the stem, or [int] raised. *)
Definition get_image_id_from_path (image_path : string) : option N :=
  let image_name := Path.basename image_path in
  let name_part := fst (Path.splitext image_name) in
  let digits := Py.filter Py.isdigit name_part in
  match digits with
  | EmptyString => None
  | _ => Py.int digits
  end.

Definition id_text_names (image_id_num : N) : list string :=
  [ ("text" ++ Py.str image_id_num ++ ".txt")%string;
    ("text" ++ Py.str image_id_num ++ ".text")%string;
    (Py.str image_id_num ++ ".txt")%string;
    (Py.str image_id_num ++ ".text")%string ].

Definition find_matching_text_file (fs : FileSystem) (image_path : string)
  : option string :=
  let directory := Path.dirname image_path in
  let image_base_name_no_ext :=
    fst (Path.splitext (Path.basename image_path)) in
  let exact_match_txt :=
    Path.join directory (image_base_name_no_ext ++ ".txt")%string in
  if fs_exists fs exact_match_txt then Some exact_match_txt
  else
    let exact_match_text :=
      Path.join directory (image_base_name_no_ext ++ ".text")%string in
    if fs_exists fs exact_match_text then Some exact_match_text
    else
      match get_image_id_from_path image_path with
      | Some image_id_num =>
          List.find (fs_exists fs)
            (map (Path.join directory) (id_text_names image_id_num))
      | None => None
      end.

Record item := {
  image_path : string;
  text_path : option string
}.

(** Sort key of the loader: the ID, or [float('inf')] without one. *)
Definition key_lt (a b : option N) : bool :=
  match a, b with
  | Some x, Some y => N.ltb x y
  | Some _, None => true
  | None, _ => false
  end.

Definition limit : nat := 1000.

Definition image_suffixes : list string := [".png"; ".jpg"; ".jpeg"; ".webp"].

Definition classify (fs : FileSystem) (img_path : string) : item :=
  let text_path := find_matching_text_file fs img_path in
  if truthy text_path
     && match text_path with Some t => fs_exists fs t | None => false end
  then {| image_path := img_path; text_path := text_path |}
  else {| image_path := img_path; text_path := None |}.

(** The images found, sorted by ID and cut at [limit]. *)
Definition image_paths_found (fs : FileSystem) (data_dir : string)
  : list string :=
  let found :=
    map (Path.join data_dir)
      (List.filter (has_extension image_suffixes) (fs_listdir fs data_dir)) in
  firstn limit
    (map snd (sort_by key_lt
                (map (fun p => (get_image_id_from_path p, p)) found))).

(** Returns [(image_only_items, image_text_items)]. *)
Definition load_data_items (fs : FileSystem) (data_dir : string)
  : list item * list item :=
  if negb (fs_isdir fs data_dir) then ([], [])
  else
    let items := map (classify fs) (image_paths_found fs data_dir) in
    (List.filter (fun it => negb (truthy (text_path it))) items,
     List.filter (fun it => truthy (text_path it)) items).

(** ** The request with retries *)

(** What one attempt meets inside the [try] block. *)
Inductive attempt_outcome :=
| Raises (e : string)
    (** [generate_content], or reading the response, raises; [e] is
        [str] of the exception *)
| Text (t : string)
    (** the first part of the first candidate carries this text *)
| NoContent (reason : option (string * string)).
    (** no candidate ([None]), or a first candidate without parts, with
        its finish reason and safety ratings as they are formatted *)

Definition no_content_message (reason : option (string * string)) : string :=
  let finish_reason :=
    match reason with Some (f, _) => f | None => "UNKNOWN" end in
  let safety_ratings :=
    match reason with Some (_, s) => s | None => "[]" end in
  ("Error: No content in response (Finish reason: " ++ finish_reason
   ++ ", Safety: " ++ safety_ratings ++ ")")%string.

Definition after_attempts_message (retry_attempts : nat) (e : string)
  : string :=
  ("Error: After " ++ Py.str (N.of_nat retry_attempts) ++ " attempts - "
   ++ e)%string.

Inductive event :=
| EvCall (attempt : nat)
| EvSleep (seconds : nat).

(** The body of [for attempt in range(retry_attempts)], with [left]
    iterations to go. *)
Fixpoint attempt_loop (respond : nat -> attempt_outcome)
    (retry_attempts retry_delay : nat) (left attempt : nat)
  : string * list event :=
  match left with
  | 0 => ("Error: Max retries reached without success.", [])
  | S left' =>
      match respond attempt with
      | Text t => (Py.strip t, [EvCall attempt])
      | NoContent reason => (no_content_message reason, [EvCall attempt])
      | Raises e =>
          if attempt <? retry_attempts - 1 then
            let (r, evs) :=
              attempt_loop respond retry_attempts retry_delay
                left' (S attempt) in
            (r, EvCall attempt :: EvSleep (retry_delay * 2 ^ attempt) :: evs)
          else (after_attempts_message retry_attempts e, [EvCall attempt])
      end
  end.

Definition generate_gemini_response (respond : nat -> attempt_outcome)
    (retry_attempts retry_delay : nat) : string * list event :=
  attempt_loop respond retry_attempts retry_delay retry_attempts 0.

(** ** One item, then one (language, task) run *)

Section Dispatch.
Variable cfg : config.
Variable fs : FileSystem.
(** the remote model, per item and attempt *)
Variable model : item -> nat -> attempt_outcome.
(** the order in which [asyncio.as_completed] hands back the tasks *)
Variable completion : list item -> list item.

Definition log_of (it : item) (evs : list event) : list (log_entry item) :=
  map (fun e => match e with
                | EvCall a => LogCall it a
                | EvSleep s => LogSleep s
                end) evs.

(** [text_path] is set and [read_text_file] returns [None] on it. *)
Definition text_unreadable (text_path : option string) : bool :=
  match text_path with
  | Some (String _ _ as tp) =>
      match read_text_file fs tp with
      | None => true
      | Some _ => false
      end
  | _ => false
  end.

(** Returns the key, the result text and what was done to get it. *)
Definition process_single_item_gemini (item_data : item)
  : string * string * list (log_entry item) :=
  match get_image_id_from_path (image_path item_data) with
  | None =>
      (Path.basename (image_path item_data),
       "Error: Could not parse image ID", [])
  | Some img_id =>
      if negb (fs_encodes fs (image_path item_data)) then
        (Py.str img_id, "Error: Image encoding failed", [])
      else if text_unreadable (text_path item_data) then
        (Py.str img_id, "Error: Could not read text file", [])
      else
        let (response_text, evs) :=
          generate_gemini_response (model item_data)
            (retry_attempts cfg) (retry_delay cfg) in
        (Py.str img_id, response_text, log_of item_data evs)
  end.

Definition remaining_items (items : list item) (processed_ids : list string)
  : list item :=
  List.filter
    (fun item_data =>
       match get_image_id_from_path (image_path item_data) with
       | Some img_id => negb (str_in (Py.str img_id) processed_ids)
       | None => false
       end) items.

(** One turn of the [as_completed] loop; what the item did is logged when
    its result is merged. [progress_update_frequency] is positive: with
    zero the modulo raises in Python. *)
Definition merge_result (st : odict * list (log_entry item))
    (item_data : item) : odict * list (log_entry item) :=
  let '(task_results, log) := st in
  let '(item_id_str, result_text, evs) :=
    process_single_item_gemini item_data in
  let task_results := od_set item_id_str result_text task_results in
  let log := log ++ evs in
  if List.length task_results mod progress_update_frequency cfg =? 0
  then (task_results, log ++ [LogSave task_results])
  else (task_results, log).

Record run_result := {
  output : option odict;  (** [None]: the final sort raised *)
  task_results_at_end : odict;
  log : list (log_entry item)
}.

Definition run_task_for_language_gemini (task_num : nat)
    (image_only_items image_text_items : list item)
    (checkpoint : checkpoint_file) : run_result :=
  let is_image_text_task := 6 <=? task_num in
  let items_to_process_info :=
    if is_image_text_task then image_text_items else image_only_items in
  let task_results := load_checkpoint checkpoint in
  let processed_ids := od_keys task_results in
  let remaining := remaining_items items_to_process_info processed_ids in
  match remaining with
  | [] => {| output := Some task_results;
             task_results_at_end := task_results;
             log := [] |}
  | _ =>
      let '(task_results, log) :=
        fold_left merge_result (completion remaining) (task_results, []) in
      {| output := finalize task_results;
         task_results_at_end := task_results;
         log := log ++ [LogSave task_results] |}
  end.
End Dispatch.

(** ** Checkpoint and output paths *)

Definition model_name_for_paths : string := "gemini-2.0-flash-lite".

Definition checkpoint_directory : string :=
  Path.join (Path.join "./outputs/" model_name_for_paths)
    "checkpoints_1shot_rationales".

Definition output_directory : string :=
  Path.join (Path.join "./outputs/" model_name_for_paths)
    "results_1shot_rationales".

Definition get_checkpoint_filename (language : string) (task_num : N)
  : option string :=
  match lang_code language with
  | Some code =>
      Some (Path.join checkpoint_directory (checkpoint_basename task_num code))
  | None => None
  end.

(** The path [main] writes the results of a (language, task) pair to. *)
Definition output_filename (lang : string) (task_num : N) : option string :=
  match lang_code lang with
  | Some code =>
      Some (Path.join (Path.join output_directory lang)
              (results_basename model_name_for_paths code task_num))
  | None => None
  end.

End Gemini.

(** * Batch mode: [run_vlm_batch.py] *)

Module Batch.

Record config := {
  batch_size : nat;
  retry_delay : nat;
  max_retries : nat
}.

Definition BASE_CONFIG : config := {|
  batch_size := 200;
  retry_delay := 5;
  max_retries := 3
|}.

(** [None] is the [ValueError] of [int]. *)
Definition get_image_id (image_name : string) : option N :=
  let base := Path.basename image_name in
  let name_part := fst (Path.splitext base) in
  Py.int (Py.filter Py.isdigit name_part).

Definition potential_text_names (image_id_str image_base_name : string)
  : list string :=
  [ ("text" ++ image_id_str ++ ".txt")%string;
    ("text" ++ image_id_str ++ ".text")%string;
    (image_id_str ++ ".txt")%string;
    (image_id_str ++ ".text")%string;
    (image_base_name ++ ".txt")%string;
    (image_base_name ++ ".text")%string ].

Definition find_matching_text_file (fs : FileSystem) (image_path : string)
  : option string :=
  let directory := Path.dirname image_path in
  let image_base_name := fst (Path.splitext (Path.basename image_path)) in
  let image_id_str := Py.filter Py.isdigit image_base_name in
  match image_id_str with
  | EmptyString => None
  | _ =>
      List.find (fs_exists fs)
        (map (Path.join directory)
           (potential_text_names image_id_str image_base_name))
  end.

Definition limit : nat := 1000.

Definition image_suffixes : list string := [".png"; ".jpg"; ".jpeg"].

(** [unique_images_dict]: the first path met for each ID. *)
Definition add_unique (d : list (N * string)) (img_path : string)
  : list (N * string) :=
  match get_image_id img_path with
  | Some img_id =>
      if existsb (fun e => N.eqb (fst e) img_id) d then d
      else d ++ [(img_id, img_path)]
  | None => d
  end.

Definition sorted_image_paths (fs : FileSystem) (directory : string)
  : list string :=
  let image_files_found :=
    map (Path.join directory)
      (List.filter (has_extension image_suffixes) (fs_listdir fs directory)) in
  map snd (sort_by N.ltb (fold_left add_unique image_files_found [])).

(** The two appends of the pairing loop. *)
Definition pair_up (fs : FileSystem) (paths : list string)
  : list (string * string) * list string :=
  fold_left
    (fun acc img_path =>
       let text_path := find_matching_text_file fs img_path in
       match text_path with
       | Some t =>
           if truthy text_path && fs_exists fs t
           then (fst acc ++ [(img_path, t)], snd acc)
           else (fst acc, snd acc ++ [img_path])
       | None => (fst acc, snd acc ++ [img_path])
       end)
    paths ([], []).

(** Returns [(all_images, image_text_pairs, image_only)]. *)
Definition load_images_and_texts (fs : FileSystem) (directory : string)
  : list string * list (string * string) * list string :=
  if negb (fs_isdir fs directory) then ([], [], [])
  else
    let sorted := sorted_image_paths fs directory in
    let '(image_text_pairs, image_only) := pair_up fs sorted in
    if limit <? List.length sorted then
      (firstn limit sorted, firstn limit image_text_pairs,
       firstn limit image_only)
    else
      let '(final_pairs, final_only) := pair_up fs sorted in
      (sorted, final_pairs, final_only).

Definition not_processed (processed_ids : list string) (img_path : string)
  : bool :=
  match get_image_id (Path.basename img_path) with
  | Some img_id => negb (str_in (Py.str img_id) processed_ids)
  | None => false
  end.

Definition get_remaining_images (all_images : list string)
    (processed_ids : list string) : list string :=
  List.filter (not_processed processed_ids) all_images.

Definition get_remaining_image_text_pairs (all_pairs : list (string * string))
    (processed_ids : list string) : list (string * string) :=
  List.filter (fun pr => not_processed processed_ids (fst pr)) all_pairs.

(** ** Preparing one chunk *)

(** The entry of an ID map: the image path and the integer ID. *)
Definition id_map := list (string * (string * N)).

(** A batch file, by the [custom_id] of each of its request lines. *)
Definition batch_file := list string.

Definition custom_id_of (prefix : string) (img_id timestamp : N) : string :=
  (prefix ++ "_" ++ Py.str img_id ++ "_" ++ Py.str timestamp)%string.

Section Prepare.
Variable fs : FileSystem.
(** [int(time.time()*1000)] when the loop reaches this image *)
Variable clock : string -> N.

Definition prepare_image_only_step (acc : batch_file * id_map)
    (img_path : string) : batch_file * id_map :=
  let '(batch_lines, image_id_map) := acc in
  match get_image_id (Path.basename img_path) with
  | None => acc
  | Some img_id =>
      let custom_id := custom_id_of "img" img_id (clock img_path) in
      let image_id_map := od_set custom_id (img_path, img_id) image_id_map in
      if negb (fs_encodes fs img_path) then (batch_lines, image_id_map)
      else (batch_lines ++ [custom_id], image_id_map)
  end.

Definition prepare_batch_file_image_only (image_paths : list string)
  : option (batch_file * id_map) :=
  let '(batch_lines, image_id_map) :=
    fold_left prepare_image_only_step image_paths ([], []) in
  match batch_lines with
  | [] => None
  | _ => Some (batch_lines, image_id_map)
  end.

Definition prepare_image_text_step (acc : batch_file * id_map)
    (pr : string * string) : batch_file * id_map :=
  let '(batch_lines, pair_id_map) := acc in
  let '(img_path, text_path) := pr in
  match get_image_id (Path.basename img_path) with
  | None => acc
  | Some img_id =>
      let custom_id := custom_id_of "pair" img_id (clock img_path) in
      let pair_id_map := od_set custom_id (img_path, img_id) pair_id_map in
      let text_content := read_text_file fs text_path in
      if negb (fs_encodes fs img_path) then (batch_lines, pair_id_map)
      else match text_content with
           | None => (batch_lines, pair_id_map)
           | Some _ => (batch_lines ++ [custom_id], pair_id_map)
           end
  end.

Definition prepare_batch_file_image_text
    (image_text_pairs : list (string * string))
  : option (batch_file * id_map) :=
  let '(batch_lines, pair_id_map) :=
    fold_left prepare_image_text_step image_text_pairs ([], []) in
  match batch_lines with
  | [] => None
  | _ => Some (batch_lines, pair_id_map)
  end.
End Prepare.

(** ** Reading the results of a job *)

Inductive line_payload :=
| Content (text : string)
    (** status 200 with a first choice carrying this text *)
| NoChoices
| Failure (status_code : option N) (error_message : option string).

(** One line of the output file: [Malformed] when reading it raises. *)
Inductive result_line :=
| Malformed
| Line (custom_id : string) (payload : line_payload).

Definition payload_text (p : line_payload) : string :=
  match p with
  | Content text => text
  | NoChoices => "Error: No choices in response."
  | Failure status_code error_message =>
      ("Error: Status "
       ++ match status_code with Some c => Py.str c | None => "N/A" end
       ++ ", Message: "
       ++ match error_message with Some m => m | None => "Unknown error" end
      )%string
  end.

Definition process_result_line (m : id_map) (results : odict)
    (l : result_line) : odict :=
  match l with
  | Malformed => results
  | Line custom_id payload =>
      match od_get custom_id m with
      | Some item_info =>
          od_set (Py.str (snd item_info)) (payload_text payload) results
      | None => results
      end
  end.

(** [content] is [None] when fetching the output file raises. *)
Definition process_batch_results (content : option (list result_line))
    (m : id_map) : odict :=
  match content with
  | None => []
  | Some lines => fold_left (process_result_line m) lines []
  end.

(** ** One chunk: submission, polling and retries *)

(** How one submitted job ends, as the retry loop sees it. *)
Inductive job_outcome :=
| CreateFailed
| PollFailed
| Completed (output : option (option (list result_line)))
    (** [None]: completed without an output file *)
| Terminated
    (** failed, cancelled or expired *)
| Unexpected.

(** A submission: the uploaded file and the request lines it holds. *)
Definition submission := (string * batch_file)%type.

Definition state := (odict * list (log_entry submission))%type.

Section Dispatch.
Variable cfg : config.
Variable fs : FileSystem.
Variable clock : string -> N.
(** the upload of the chunk that starts at this index *)
Variable upload : nat -> option string.
(** the job created for that chunk at this attempt *)
Variable job : nat -> nat -> job_outcome.

Definition sleep_if (b : bool) (seconds : nat)
  : list (log_entry submission) :=
  if b then [LogSleep seconds] else [].

(** The [while retries <= max_retries and not batch_succeeded] loop. *)
Equations? retry_loop (i : nat) (sub : submission) (m : id_map)
    (retries : nat) (st : state) : state * bool
  by wf (S (max_retries cfg) - retries) lt :=
  retry_loop i sub m retries st with le_lt_dec retries (max_retries cfg) := {
    | right _ => (st, false)
    | left Hle with job i retries := {
        | Completed (Some content) =>
            let batch_run_results := process_batch_results content m in
            let task_results := od_update (fst st) batch_run_results in
            ((task_results,
              snd st ++ [LogCall sub retries; LogSave task_results]), true)
        | Completed None =>
            retry_loop i sub m (S retries)
              (fst st,
               snd st ++ LogCall sub retries
                 :: sleep_if (S retries <=? max_retries cfg)
                      (retry_delay cfg))
        | Terminated =>
            retry_loop i sub m (S retries)
              (fst st,
               snd st ++ LogCall sub retries
                 :: sleep_if (S retries <=? max_retries cfg)
                      (retry_delay cfg * 2 ^ S retries))
        | CreateFailed =>
            retry_loop i sub m (S retries)
              (fst st,
               snd st ++ LogCall sub retries
                 :: sleep_if (S retries <=? max_retries cfg)
                      (retry_delay cfg * 2 ^ S retries))
        | _ =>
            retry_loop i sub m (S retries)
              (fst st,
               snd st ++ LogCall sub retries
                 :: sleep_if (S retries <=? max_retries cfg)
                      (retry_delay cfg))
      }
  }.
Proof. all: destruct retries; lia. Qed.

(** The start indices of [range(0, n, batch_size)], for a positive
    [batch_size]. *)
Definition chunk_starts (n : nat) : list nat :=
  map (fun j => j * batch_size cfg)
    (seq 0 ((n + batch_size cfg - 1) / batch_size cfg)).

Section Chunks.
Context {A : Type}.
Variable prepare : list A -> option (batch_file * id_map).

Definition process_chunk (items : list A) (st : state) (i : nat) : state :=
  let batch_items := firstn (batch_size cfg) (skipn i items) in
  match prepare batch_items with
  | None => st
  | Some (_, []) => st
  | Some (lines, m) =>
      match upload i with
      | Some (String c r as file_id) =>
          fst (retry_loop i (file_id, lines) m 0 st)
      | _ => st
      end
  end.

Definition process_chunks (items : list A) (st : state) : state :=
  fold_left (process_chunk items) (chunk_starts (List.length items)) st.
End Chunks.

Record run_result := {
  output : option odict;
  task_results_at_end : odict;
  log : list (log_entry submission)
}.

Definition finish {A : Type}
    (prepare : list A -> option (batch_file * id_map))
    (items_for_batch_prep : list A) (task_results : odict) : run_result :=
  match items_for_batch_prep with
  | [] => {| output := Some task_results;
             task_results_at_end := task_results;
             log := [] |}
  | _ =>
      let st := process_chunks prepare items_for_batch_prep
                  (task_results, []) in
      {| output := finalize (fst st);
         task_results_at_end := fst st;
         log := snd st |}
  end.

Definition process_task_for_language_batch (task_num : nat)
    (all_images : list string) (image_text_pairs : list (string * string))
    (checkpoint : checkpoint_file) : run_result :=
  let is_image_text_task := 6 <=? task_num in
  let task_results := load_checkpoint checkpoint in
  if is_image_text_task then
    finish (prepare_batch_file_image_text fs clock)
      (get_remaining_image_text_pairs image_text_pairs
         (od_keys task_results))
      task_results
  else
    finish (prepare_batch_file_image_only fs clock)
      (get_remaining_images all_images (od_keys task_results))
      task_results.
End Dispatch.

(** ** Checkpoint and output paths *)

Definition model_name_for_paths : string := "gpt-4o".

Definition checkpoint_directory : string :=
  Path.join (Path.join "./outputs/" model_name_for_paths)
    "checkpoints_1shot_rationales".

Definition output_directory : string :=
  Path.join (Path.join "./outputs/" model_name_for_paths)
    "results_1shot_rationales".

Definition get_checkpoint_filename (language : string) (task_num : N)
  : option string :=
  match lang_code language with
  | Some code =>
      Some (Path.join checkpoint_directory (checkpoint_basename task_num code))
  | None => None
  end.

(** The path [main] writes the results of a (language, task) pair to. *)
Definition output_filename (lang : string) (task_num : N) : option string :=
  match lang_code lang with
  | Some code =>
      Some (Path.join (Path.join output_directory lang)
              (results_basename model_name_for_paths code task_num))
  | None => None
  end.

(** ** Polling a job *)

(** What one [client.batches.retrieve] gives inside the [try] block: an
    exception, or a batch with this status. *)
Inductive retrieve_outcome :=
| RetrieveRaises
| RetrieveStatus (status : string).

Inductive poll_event :=
| PollRetrieve (call : nat)
| PollSleep (seconds : nat).

Definition is_terminal (status : string) : bool :=
  String.eqb status "completed"
  || existsb (String.eqb status) ["failed"; "cancelled"; "expired"].

(** The body of [for i in range(max_polls)] with [left] turns to go, then
    the last retrieval; returns the status of the batch handed back, [None]
    when there is none. *)
Fixpoint poll_loop (retrieve : nat -> retrieve_outcome)
    (poll_interval left i : nat) : option string * list poll_event :=
  match left with
  | 0 =>
      match retrieve i with
      | RetrieveStatus status => (Some status, [PollRetrieve i])
      | RetrieveRaises => (None, [PollRetrieve i])
      end
  | S left' =>
      match retrieve i with
      | RetrieveStatus status =>
          if is_terminal status then (Some status, [PollRetrieve i])
          else
            let (r, evs) := poll_loop retrieve poll_interval left' (S i) in
            (r, PollRetrieve i :: PollSleep poll_interval :: evs)
      | RetrieveRaises =>
          let (r, evs) := poll_loop retrieve poll_interval left' (S i) in
          (r, PollRetrieve i :: PollSleep (poll_interval * 2) :: evs)
      end
  end.

Definition poll_batch_status (retrieve : nat -> retrieve_outcome)
    (max_polls poll_interval : nat) : option string * list poll_event :=
  poll_loop retrieve poll_interval max_polls 0.

Definition default_max_polls : nat := 120.
Definition default_poll_interval : nat := 60.

(** ** Cleaning the batch directory *)

(** [files.sort(key=os.path.getmtime, reverse=True)]: newest first, files
    of equal time in their former order; [None] when [getmtime] raises.
    Times are in any unit that keeps their order. *)
Definition newest_first (getmtime : string -> option N) (files : list string)
  : option (list string) :=
  match decorate getmtime files with
  | Some dl => Some (map snd (sort_by (fun a b => N.ltb b a) dl))
  | None => None
  end.

(** The files [os.remove] is called on, in order. *)
Definition cleanup_batch_files (getmtime : string -> option N)
    (files : list string) (keep_last_n : nat) : list string :=
  match newest_first getmtime files with
  | Some sorted => skipn keep_last_n sorted
  | None => []
  end.

Definition default_keep_last_n : nat := 10.

End Batch.

(** * Specification-side notions

    Definitions that follow the wording of the specification; the theorems
    below compare the code with them. *)

(** A decimal-integer string: one decimal digit or more, nothing else. *)
Definition decimal_key (k : string) : bool :=
  match k with
  | EmptyString => false
  | _ => Py.forallb Py.is_decimal k
  end.

(** The integer a run of decimal digits denotes. *)
Fixpoint decimal_acc (acc : N) (s : string) : N :=
  match s with
  | EmptyString => acc
  | String c r => decimal_acc (10 * acc + N.of_nat (nat_of_ascii c - 48))%N r
  end.

Definition decimal_value (k : string) : N := decimal_acc 0%N k.

(** The integer key of an entry, [0] when the key is not an integer. *)
Definition int_key (kv : string * string) : N :=
  match Py.int (fst kv) with Some n => n | None => 0%N end.

Definition key_le (a b : string * string) : Prop := (int_key a <= int_key b)%N.

(** The stem of a file name and the digit characters in it. *)
Definition stem_of (path : string) : string :=
  fst (Path.splitext (Path.basename path)).

Definition digits_of (path : string) : string :=
  Py.filter Py.isdigit (stem_of path).

(** The candidate names of section 4.1, in the order they are tried. *)
Definition exact_stem_names (stem : string) : list string :=
  [ (stem ++ ".txt")%string; (stem ++ ".text")%string ].

Definition id_based_names (id : string) : list string :=
  [ ("text" ++ id ++ ".txt")%string; ("text" ++ id ++ ".text")%string;
    (id ++ ".txt")%string; (id ++ ".text")%string ].

(** Order of entries decorated with their key. *)
Definition fst_le {A : Type} (a b : N * A) : Prop := (fst a <= fst b)%N.

Definition starts_with_error (s : string) : Prop :=
  String.prefix "Error: " s = true.

(** What [k] failed attempts in a row, from attempt [a] on, leave behind:
    each call is followed by a sleep of [delay * 2 ^ attempt] seconds. *)
Fixpoint failed_attempts (delay a k : nat) : list Gemini.event :=
  match k with
  | 0 => []
  | S k' =>
      Gemini.EvCall a :: Gemini.EvSleep (delay * 2 ^ a)
        :: failed_attempts delay (S a) k'
  end.

(** A job whose results can be read: completed, with an output file. *)
Definition is_success (o : Batch.job_outcome) : bool :=
  match o with
  | Batch.Completed (Some _) => true
  | _ => false
  end.

(** Every entry of an ID map comes from an image of the chunk, with the ID
    of that image. *)
Definition id_map_from (paths : list string) (m : Batch.id_map) : Prop :=
  forall cid p n,
    In (cid, (p, n)) m ->
    In p paths /\ Batch.get_image_id (Path.basename p) = Some n.

(** The frame of a run: loaded entries keep their value, and any other key
    is the string of an integer. *)
Definition frame_inv (loaded tr : odict) : Prop :=
  (forall k, In k (od_keys loaded) -> od_get k tr = od_get k loaded)
  /\ (forall k,
         In k (od_keys tr) ->
         In k (od_keys loaded)
         \/ (~ In k (od_keys loaded) /\ exists n, k = Py.str n)).

(** Counting what a request or a poll did. *)
Definition event_calls (evs : list Gemini.event) : nat :=
  List.length
    (List.filter
       (fun e => match e with Gemini.EvCall _ => true | _ => false end) evs).

Definition event_sleep (evs : list Gemini.event) : nat :=
  fold_right
    (fun e acc => match e with Gemini.EvSleep s => s + acc | _ => acc end)
    0 evs.

Definition poll_retrieves (evs : list Batch.poll_event) : list nat :=
  flat_map
    (fun e => match e with Batch.PollRetrieve i => [i] | _ => [] end) evs.

Definition poll_sleep (evs : list Batch.poll_event) : nat :=
  fold_right
    (fun e acc => match e with Batch.PollSleep s => s + acc | _ => acc end)
    0 evs.

(** A status on which the polling loop goes on. *)
Definition keeps_polling (o : Batch.retrieve_outcome) : Prop :=
  match o with
  | Batch.RetrieveStatus status => Batch.is_terminal status = false
  | Batch.RetrieveRaises => True
  end.

(** The chunks of the batch loop, in order. *)
Definition chunks_of {A : Type} (cfg : Batch.config) (items : list A)
  : list (list A) :=
  map (fun i => firstn (Batch.batch_size cfg) (skipn i items))
    (Batch.chunk_starts cfg (List.length items)).

(** Order of the direct loader: by ID, files without ID last. *)
Definition key_le_opt (a b : option N) : Prop := Gemini.key_lt b a = false.

(** The request line an image gives when a chunk is prepared, if any. *)
Definition image_line (fs : FileSystem) (clock : string -> N)
    (img_path : string) : list string :=
  match Batch.get_image_id (Path.basename img_path) with
  | Some img_id =>
      if fs_encodes fs img_path
      then [Batch.custom_id_of "img" img_id (clock img_path)]
      else []
  | None => []
  end.

Definition pair_line (fs : FileSystem) (clock : string -> N)
    (pr : string * string) : list string :=
  match Batch.get_image_id (Path.basename (fst pr)) with
  | Some img_id =>
      if fs_encodes fs (fst pr) then
        match read_text_file fs (snd pr) with
        | Some _ => [Batch.custom_id_of "pair" img_id (clock (fst pr))]
        | None => []
        end
      else []
  | None => []
  end.

(** The ID a result line is for, when its correlation ID is known. *)
Definition line_id (m : Batch.id_map) (l : Batch.result_line) : option N :=
  match l with
  | Batch.Line custom_id _ => option_map snd (od_get custom_id m)
  | Batch.Malformed => None
  end.

Definition line_mapped (m : Batch.id_map) (l : Batch.result_line) : bool :=
  match line_id m l with Some _ => true | None => false end.

(** Every request line has an entry in the ID map, for an image among
    [paths] and with the ID of that image. *)
Definition lines_map_back (paths : list string) (lines : Batch.batch_file)
    (m : Batch.id_map) : Prop :=
  forall cid,
    In cid lines ->
    exists p n,
      od_get cid m = Some (p, n)
      /\ In p paths
      /\ Batch.get_image_id (Path.basename p) = Some n.

(** [y] does not sort before [x] under the comparison [lt] of the keys. *)
Definition not_after {K A : Type} (lt : K -> K -> bool) (x y : K * A)
  : Prop :=
  lt (fst y) (fst x) = false.

(** The image files of a directory, as the batch loader lists them. *)
Definition batch_images_found (fs : FileSystem) (directory : string)
  : list string :=
  map (Path.join directory)
    (List.filter (has_extension Batch.image_suffixes)
       (fs_listdir fs directory)).

Definition has_id (n : N) (img_path : string) : bool :=
  match Batch.get_image_id img_path with
  | Some k => N.eqb k n
  | None => false
  end.

(** An image is paired when a text file is found for it and exists. *)
Definition batch_paired (fs : FileSystem) (img_path : string) : bool :=
  match Batch.find_matching_text_file fs img_path with
  | Some t => truthy (Some t) && fs_exists fs t
  | None => false
  end.

(** The pairs the pairing loop forms from a list of images, in order. *)
Definition batch_pairs_of (fs : FileSystem) (paths : list string)
  : list (string * string) :=
  flat_map
    (fun p =>
       match Batch.find_matching_text_file fs p with
       | Some t => if batch_paired fs p then [(p, t)] else []
       | None => []
       end)
    paths.

Definition batch_unpaired (fs : FileSystem) (paths : list string)
  : list string :=
  List.filter (fun p => negb (batch_paired fs p)) paths.

(** The image files of a directory, as the direct-mode loader lists
    them. *)
Definition gemini_images_found (fs : FileSystem) (data_dir : string)
  : list string :=
  map (Path.join data_dir)
    (List.filter (has_extension Gemini.image_suffixes)
       (fs_listdir fs data_dir)).

Definition item_id (it : Gemini.item) : option N :=
  Gemini.get_image_id_from_path (Gemini.image_path it).

(** The two scripts, and the files each one keeps per language and task. *)
Inductive mode := Direct | Batched.

Definition checkpoint_path (m : mode) (language : string) (task_num : N)
  : option string :=
  match m with
  | Direct => Gemini.get_checkpoint_filename language task_num
  | Batched => Batch.get_checkpoint_filename language task_num
  end.

Definition output_path (m : mode) (language : string) (task_num : N)
  : option string :=
  match m with
  | Direct => Gemini.output_filename language task_num
  | Batched => Batch.output_filename language task_num
  end.

(** The batch files a cleanup leaves in place. *)
Definition kept_batch_files (getmtime : string -> option N)
    (files : list string) (keep_last_n : nat) : list string :=
  match Batch.newest_first getmtime files with
  | Some sorted => firstn keep_last_n sorted
  | None => files
  end.

Definition has_mtime (getmtime : string -> option N) (f : string) : bool :=
  match getmtime f with Some _ => true | None => false end.

(** Every entry of an ID map is filed under the correlation ID made of
    its own ID and of the time its item was reached. *)
Definition id_map_named (prefix : string) (clock : string -> N)
    (m : Batch.id_map) : Prop :=
  forall cid q n,
    In (cid, (q, n)) m -> cid = Batch.custom_id_of prefix n (clock q).

(** * Proofs *)

(** ** Integers and their decimal strings *)

Section Decimal.
Import DecimalPos.Unsigned.

Lemma int_acc_string_of_uint (d d' : Decimal.uint) :
  Py.int_acc (of_lu d') (NilEmpty.string_of_uint d)
  = Some (of_lu (Decimal.revapp d d')).
Proof.
  revert d'.
  induction d; intro d'; cbn [NilEmpty.string_of_uint Py.int_acc Decimal.revapp];
    try reflexivity;
    lazymatch goal with
    | |- context [Py.digit_value ?c] =>
        let v := eval vm_compute in (Py.digit_value c) in
        change (Py.digit_value c) with v; cbv iota beta
    end;
    (etransitivity; [| apply IHd]); f_equal;
    lazymatch goal with
    | |- _ = of_lu ?x => rewrite (of_lu_eqn x); unfold hd, tl; lia
    end.
Qed.

Lemma string_of_uint_nonempty (d : Decimal.uint) :
  d <> Decimal.Nil -> NilEmpty.string_of_uint d <> EmptyString.
Proof. destruct d; simpl; congruence. Qed.

Lemma to_uint_nonnil (n : N) : N.to_uint n <> Decimal.Nil.
Proof.
  destruct n as [| p]; simpl; [discriminate |].
  apply DecimalPos.Unsigned.to_uint_nonnil.
Qed.

Lemma int_str (n : N) : Py.int (Py.str n) = Some n.
Proof.
  unfold Py.int, Py.str.
  pose proof (string_of_uint_nonempty (N.to_uint n) (to_uint_nonnil n)) as Hne.
  destruct (NilEmpty.string_of_uint (N.to_uint n)) eqn:E; [congruence |].
  rewrite <- E.
  change 0%N with (of_lu Decimal.Nil).
  rewrite int_acc_string_of_uint.
  change (Decimal.revapp (N.to_uint n) Decimal.Nil)
    with (Decimal.rev (N.to_uint n)).
  rewrite <- of_uint_alt.
  f_equal. apply DecimalN.Unsigned.of_to.
Qed.

Lemma string_of_uint_decimal (d : Decimal.uint) :
  Py.forallb Py.is_decimal (NilEmpty.string_of_uint d) = true.
Proof. induction d; simpl; auto. Qed.
End Decimal.

Lemma str_inj (n m : N) : Py.str n = Py.str m -> n = m.
Proof.
  intro H. pose proof (int_str n) as Hn. rewrite H, int_str in Hn.
  congruence.
Qed.

Lemma str_decimal_key (n : N) : decimal_key (Py.str n) = true.
Proof.
  unfold decimal_key, Py.str.
  pose proof (string_of_uint_nonempty (N.to_uint n) (to_uint_nonnil n)).
  destruct (NilEmpty.string_of_uint (N.to_uint n)) eqn:E; [congruence |].
  rewrite <- E. apply string_of_uint_decimal.
Qed.

Lemma int_acc_decimal (s : string) (acc : N) :
  Py.forallb Py.is_decimal s = true ->
  Py.int_acc acc s = Some (decimal_acc acc s).
Proof.
  revert acc. induction s as [| c r IH]; intros acc H; simpl in *.
  - reflexivity.
  - apply andb_true_iff in H as [Hc Hr].
    unfold Py.digit_value. rewrite Hc. now apply IH.
Qed.

Lemma int_decimal_key (k : string) :
  decimal_key k = true -> Py.int k = Some (decimal_value k).
Proof.
  unfold decimal_key, Py.int, decimal_value.
  destruct k as [| c r]; [discriminate |].
  apply int_acc_decimal.
Qed.

Lemma filter_decimal_isdigit (s : string) :
  Py.forallb Py.is_decimal s = true -> Py.filter Py.isdigit s = s.
Proof.
  induction s as [| c r IH]; simpl; [reflexivity |].
  intro H. apply andb_true_iff in H as [Hc Hr].
  assert (Hd : Py.isdigit c = true)
    by (unfold Py.isdigit; rewrite Hc; reflexivity).
  rewrite Hd. f_equal. now apply IH.
Qed.

(** ** Paths *)

Lemma sapp_assoc (a b c : string) :
  ((a ++ b) ++ c)%string = (a ++ (b ++ c))%string.
Proof. induction a as [| d r IH]; simpl; [reflexivity | now rewrite IH]. Qed.

Lemma sapp_inv_head (a b c : string) :
  (a ++ b)%string = (a ++ c)%string -> b = c.
Proof.
  induction a as [| d r IH]; cbn; [tauto |].
  intro H. injection H as H. now apply IH.
Qed.

Lemma digits_split (a a' r r' : string) :
  Py.forallb Py.is_decimal a = true ->
  Py.forallb Py.is_decimal a' = true ->
  (a ++ String "_" r)%string = (a' ++ String "_" r')%string ->
  a = a' /\ r = r'.
Proof.
  revert a'. induction a as [| c a IH]; intros [| c' a'] Ha Ha' H; cbn in *.
  - injection H as ->. now split.
  - injection H as <- _. discriminate.
  - injection H as -> _. discriminate.
  - injection H as -> H.
    apply andb_true_iff in Ha as [_ Ha], Ha' as [_ Ha'].
    destruct (IH a' Ha Ha' H) as [-> ->]. now split.
Qed.

Lemma str_digits (n : N) : Py.forallb Py.is_decimal (Py.str n) = true.
Proof.
  pose proof (str_decimal_key n) as H. unfold decimal_key in H.
  now destruct (Py.str n).
Qed.

Lemma sapp_inv_tail (a b : string) (c : ascii) :
  (a ++ String c EmptyString)%string = (b ++ String c EmptyString)%string ->
  a = b.
Proof.
  revert b. induction a as [| x a IH]; intros [| y b] H; cbn in H.
  - reflexivity.
  - injection H as _ H. now destruct b.
  - injection H as _ H. now destruct a.
  - injection H as -> H. now rewrite (IH b H).
Qed.

(** Two strings that agree up to the first occurrence of [c] in each. *)
Lemma split_at_first (c : ascii) (a a' r r' : string) :
  Py.contains c a = false ->
  Py.contains c a' = false ->
  (a ++ String c r)%string = (a' ++ String c r')%string ->
  a = a' /\ r = r'.
Proof.
  revert a'. induction a as [| x a IH]; intros [| y a'] Ha Ha' H; cbn in *.
  - injection H as ->. now split.
  - injection H as <- _. now rewrite Ascii.eqb_refl in Ha'.
  - injection H as -> _. now rewrite Ascii.eqb_refl in Ha.
  - injection H as -> H.
    apply orb_false_iff in Ha as [_ Ha], Ha' as [_ Ha'].
    destruct (IH a' Ha Ha' H) as [-> ->]. now split.
Qed.

Lemma contains_app (c : ascii) (a b : string) :
  Py.contains c (a ++ b) = Py.contains c a || Py.contains c b.
Proof.
  induction a as [| d r IH]; simpl; [reflexivity |].
  now rewrite IH, orb_assoc.
Qed.

Lemma after_last_none (c : ascii) (s : string) :
  Py.contains c s = false -> Path.after_last c s = None.
Proof.
  induction s as [| d r IH]; simpl; [reflexivity |].
  intro H. apply orb_false_iff in H as [Hd Hr].
  now rewrite (IH Hr), Hd.
Qed.

Lemma after_last_app (c : ascii) (a f : string) :
  Py.contains c f = false ->
  Path.after_last c (a ++ String c f) = Some f.
Proof.
  intro Hf. induction a as [| d r IH]; simpl.
  - now rewrite (after_last_none c f Hf), Ascii.eqb_refl.
  - now rewrite IH.
Qed.

Lemma basename_in_dir (d f : string) :
  Py.contains Path.sep f = false ->
  Path.basename (d ++ String Path.sep f) = f.
Proof. intro H. unfold Path.basename. now rewrite after_last_app. Qed.

Lemma basename_bare (f : string) :
  Py.contains Path.sep f = false -> Path.basename f = f.
Proof. intro H. unfold Path.basename. now rewrite after_last_none. Qed.

Lemma upto_last_none (c : ascii) (s : string) :
  Py.contains c s = false -> Path.upto_last c s = EmptyString.
Proof.
  destruct s as [| d r]; simpl; [reflexivity |].
  intro H. now rewrite H.
Qed.

Lemma split_last_dot_none (s : string) :
  Py.contains Path.extsep s = false -> Path.split_last_dot s = None.
Proof.
  induction s as [| d r IH]; simpl; [reflexivity |].
  intro H. apply orb_false_iff in H as [Hd Hr].
  now rewrite (IH Hr), Hd.
Qed.

Lemma split_last_dot_app (a e : string) :
  Py.contains Path.extsep e = false ->
  Path.split_last_dot (a ++ String Path.extsep e)
  = Some (a, String Path.extsep e).
Proof.
  intro He. induction a as [| d r IH]; simpl.
  - now rewrite (split_last_dot_none e He).
  - now rewrite IH.
Qed.

Lemma forallb_app (f : ascii -> bool) (a b : string) :
  Py.forallb f (a ++ b) = Py.forallb f a && Py.forallb f b.
Proof.
  induction a as [| d r IH]; simpl; [reflexivity |].
  now rewrite IH, andb_assoc.
Qed.

Lemma filter_app (f : ascii -> bool) (a b : string) :
  Py.filter f (a ++ b) = (Py.filter f a ++ Py.filter f b)%string.
Proof.
  induction a as [| d r IH]; simpl; [reflexivity |].
  rewrite IH. now destruct (f d).
Qed.

Lemma decimal_not_char (d : ascii) :
  Py.is_decimal d = false -> forall s,
  Py.forallb Py.is_decimal s = true -> Py.contains d s = false.
Proof.
  intros Hd s. induction s as [| x r IH]; simpl; [reflexivity |].
  intro H. apply andb_true_iff in H as [Hx Hr].
  rewrite (IH Hr), orb_false_r.
  destruct (Ascii.eqb_spec x d); [congruence | reflexivity].
Qed.

(** The stem of [name ++ D ++ "." ++ ext] is [name ++ D]. *)
Lemma stem_of_named (name D ext : string) (dir : option string) :
  Py.contains Path.sep name = false ->
  Py.contains Path.sep ext = false ->
  Py.contains Path.extsep ext = false ->
  decimal_key D = true ->
  let file := (name ++ D ++ String Path.extsep ext)%string in
  let path := match dir with
              | Some d => (d ++ String Path.sep file)%string
              | None => file
              end in
  stem_of path = (name ++ D)%string.
Proof.
  intros Hn He Hd HD file path.
  assert (HDdec : Py.forallb Py.is_decimal D = true).
  { destruct D; [discriminate | exact HD]. }
  assert (Hsep : Py.contains Path.sep file = false).
  { unfold file. rewrite !contains_app. simpl. rewrite Hn, He.
    now rewrite (decimal_not_char Path.sep eq_refl D HDdec). }
  assert (Hbase : Path.basename path = file).
  { unfold path. destruct dir; [now apply basename_in_dir
                               | now apply basename_bare]. }
  unfold stem_of. rewrite Hbase. unfold Path.splitext.
  rewrite (basename_bare file Hsep), (upto_last_none _ _ Hsep).
  unfold file. rewrite <- sapp_assoc.
  rewrite (split_last_dot_app _ _ Hd), forallb_app.
  destruct D as [| c r]; [discriminate |].
  simpl in HDdec. apply andb_true_iff in HDdec as [Hc _].
  replace (Py.forallb (fun c0 => Ascii.eqb c0 Path.extsep) (String c r))
    with false.
  - now rewrite andb_false_r.
  - simpl. destruct (Ascii.eqb_spec c Path.extsep) as [-> |]; [discriminate Hc|].
    reflexivity.
Qed.

(** ** Sorting *)

Section SortFacts.
Context {A : Type}.

Lemma insert_by_perm (lt : N -> N -> bool) (x : N * A) (l : list (N * A)) :
  Permutation (insert_by lt x l) (x :: l).
Proof.
  induction l as [| y r IH]; simpl; [reflexivity |].
  destruct (lt (fst y) (fst x)); [| reflexivity].
  rewrite IH. apply perm_swap.
Qed.

Lemma sort_by_perm (lt : N -> N -> bool) (l : list (N * A)) :
  Permutation (sort_by lt l) l.
Proof.
  induction l as [| x r IH]; simpl; [reflexivity |].
  now rewrite insert_by_perm, IH.
Qed.

Lemma insert_by_sorted (x : N * A) (l : list (N * A)) :
  Sorted fst_le l -> Sorted fst_le (insert_by N.ltb x l).
Proof.
  induction 1 as [| y r Hs IH Hhd]; simpl.
  - repeat constructor.
  - destruct (N.ltb_spec (fst y) (fst x)) as [Hlt | Hge].
    + constructor; [exact IH |].
      destruct r as [| z r']; simpl.
      * constructor. unfold fst_le. lia.
      * inversion Hhd; subst.
        destruct (N.ltb (fst z) (fst x)); constructor; unfold fst_le in *; lia.
    + constructor; [now constructor | now constructor].
Qed.

Lemma sort_by_sorted (l : list (N * A)) : Sorted fst_le (sort_by N.ltb l).
Proof.
  induction l as [| x r IH]; simpl; [constructor |].
  now apply insert_by_sorted.
Qed.
End SortFacts.

Lemma decorate_spec {K A : Type} (key : A -> option K) (l : list A)
    (dl : list (K * A)) :
  decorate key l = Some dl ->
  map snd dl = l /\ Forall (fun e => key (snd e) = Some (fst e)) dl.
Proof.
  revert dl. induction l as [| x r IH]; simpl; intros dl H.
  - inversion H; subst. split; constructor.
  - destruct (key x) eqn:Ek; [| discriminate].
    destruct (decorate key r) eqn:Er; [| discriminate].
    inversion H; subst. destruct (IH _ eq_refl) as [Hm Hf].
    split; simpl; [now rewrite Hm | now constructor].
Qed.

Lemma decorate_total {K A : Type} (key : A -> option K) (l : list A) :
  Forall (fun x => key x <> None) l -> exists dl, decorate key l = Some dl.
Proof.
  induction 1 as [| x r Hx _ [dr IH]]; simpl; [now eexists |].
  destruct (key x); [| congruence]. rewrite IH. now eexists.
Qed.

(** ** Item loader: ID extraction *)

Lemma add_unique_ids (l : list string) (d : list (N * string)) :
  Forall (fun e => Batch.get_image_id (snd e) = Some (fst e)) d ->
  Forall (fun e => Batch.get_image_id (snd e) = Some (fst e))
    (fold_left Batch.add_unique l d).
Proof.
  revert d. induction l as [| p r IH]; simpl; intros d Hd; [exact Hd |].
  apply IH. unfold Batch.add_unique.
  destruct (Batch.get_image_id p) eqn:E; [| exact Hd].
  destruct (existsb _ d); [exact Hd |].
  apply Forall_app. split; [exact Hd |]. now repeat constructor.
Qed.

Lemma sorted_image_paths_have_id (fs : FileSystem) (dir p : string) :
  In p (Batch.sorted_image_paths fs dir) -> Batch.get_image_id p <> None.
Proof.
  unfold Batch.sorted_image_paths. intro H.
  apply in_map_iff in H as [[n q] [Hq Hin]]. simpl in Hq. subst q.
  apply (Permutation_in _ (sort_by_perm N.ltb _)) in Hin.
  pose proof (add_unique_ids
                (map (Path.join dir)
                   (List.filter (has_extension Batch.image_suffixes)
                      (fs_listdir fs dir))) [] (Forall_nil _)) as HF.
  rewrite Forall_forall in HF. specialize (HF _ Hin). simpl in HF.
  congruence.
Qed.

Lemma pair_up_incl (fs : FileSystem) (paths : list string) :
  (forall pr, In pr (fst (Batch.pair_up fs paths)) -> In (fst pr) paths)
  /\ (forall p, In p (snd (Batch.pair_up fs paths)) -> In p paths).
Proof.
  unfold Batch.pair_up.
  assert (G : forall l acc,
             (forall pr, In pr (fst acc) -> In (fst pr) paths) ->
             (forall p, In p (snd acc) -> In p paths) ->
             incl l paths ->
             let out :=
               fold_left
                 (fun acc img_path =>
                    let text_path :=
                      Batch.find_matching_text_file fs img_path in
                    match text_path with
                    | Some t =>
                        if truthy text_path && fs_exists fs t
                        then (fst acc ++ [(img_path, t)], snd acc)
                        else (fst acc, snd acc ++ [img_path])
                    | None => (fst acc, snd acc ++ [img_path])
                    end) l acc in
             (forall pr, In pr (fst out) -> In (fst pr) paths)
             /\ (forall p, In p (snd out) -> In p paths)).
  { induction l as [| x r IH]; simpl; intros acc H1 H2 Hl; [now split |].
    assert (Hx : In x paths) by (apply Hl; now left).
    assert (Hr : incl r paths) by (intros y Hy; apply Hl; now right).
    apply IH; [| | exact Hr];
      destruct (Batch.find_matching_text_file fs x) as [t |];
      try destruct (truthy (Some t) && fs_exists fs t); simpl;
      intros y Hy; try (apply in_app_iff in Hy as [Hy | [<- | []]]);
      auto. }
  apply G; simpl; try tauto. apply incl_refl.
Qed.

Lemma In_skipn {A : Type} (n : nat) (l : list A) (x : A) :
  In x (skipn n l) -> In x l.
Proof.
  revert l. induction n as [| n IH]; intros [| y r]; simpl; auto.
Qed.

Lemma In_firstn {A : Type} (n : nat) (l : list A) (x : A) :
  In x (firstn n l) -> In x l.
Proof.
  revert l. induction n as [| n IH]; intros [| y r]; simpl; try tauto.
  intros [-> | H]; [now left | right; now apply IH].
Qed.

Lemma int_acc_rejects (s : string) (acc : N) :
  Py.forallb Py.is_decimal s = false -> Py.int_acc acc s = None.
Proof.
  revert acc. induction s as [| c r IH]; intros acc H; cbn in *;
    [discriminate |].
  unfold Py.digit_value. destruct (Py.is_decimal c); [| reflexivity].
  now apply IH.
Qed.

Lemma int_rejects (s : string) :
  Py.forallb Py.is_decimal s = false -> Py.int s = None.
Proof.
  intro H. unfold Py.int. destruct s; [reflexivity |].
  now apply int_acc_rejects.
Qed.

(** C7. ID extraction in both loaders. When every digit character of the
    stem is one that [int] reads, and there is one at least, the ID is the
    integer the digit characters spell, so that
    [name ++ D ++ "." ++ ext] gives the value of [D]; a stem without a
    digit character gives no ID; a file without an ID is never dispatched
    in direct mode and never listed by the batch loader, both loaders
    being total. Against the claim, a stem that has digit characters one
    of which [int] rejects gives no ID either: [str.isdigit] keeps the
    superscript digits, on which [int] raises, so that [img1] followed by
    a superscript two, with digit characters [1] and the superscript,
    has no ID and is left out. *)
Theorem id_extraction :
  (forall path,
      decimal_key (digits_of path) = true ->
      Gemini.get_image_id_from_path path
      = Some (decimal_value (digits_of path))
      /\ Batch.get_image_id path = Some (decimal_value (digits_of path)))
  /\ (forall name D ext dir,
         Py.contains Path.sep name = false ->
         Py.filter Py.isdigit name = EmptyString ->
         Py.contains Path.sep ext = false ->
         Py.contains Path.extsep ext = false ->
         decimal_key D = true ->
         let file := (name ++ D ++ String Path.extsep ext)%string in
         let path := match dir with
                     | Some d => (d ++ String Path.sep file)%string
                     | None => file
                     end in
         Gemini.get_image_id_from_path path = Some (decimal_value D)
         /\ Batch.get_image_id path = Some (decimal_value D))
  /\ (forall path,
         digits_of path = EmptyString ->
         Gemini.get_image_id_from_path path = None
         /\ Batch.get_image_id path = None)
  /\ (forall items processed_ids it,
         Gemini.get_image_id_from_path (Gemini.image_path it) = None ->
         ~ In it (Gemini.remaining_items items processed_ids))
  /\ (forall fs dir path,
         Batch.get_image_id path = None ->
         let '(all_images, image_text_pairs, image_only) :=
           Batch.load_images_and_texts fs dir in
         ~ In path all_images
         /\ ~ In path (map fst image_text_pairs)
         /\ ~ In path image_only)
  /\ (forall path,
         Py.forallb Py.is_decimal (digits_of path) = false ->
         digits_of path <> EmptyString
         /\ Gemini.get_image_id_from_path path = None
         /\ Batch.get_image_id path = None)
  /\ (let path := ("data/img1" ++ String "178"%char ".png")%string in
      digits_of path = String "1" (String "178"%char EmptyString)
      /\ Py.filter Py.is_decimal (stem_of path) = "1"
      /\ Gemini.get_image_id_from_path path = None
      /\ Batch.get_image_id path = None
      /\ Gemini.remaining_items
           [{| Gemini.image_path := path; Gemini.text_path := None |}] []
         = []
      /\ Batch.load_images_and_texts
           {| fs_isdir := fun _ => true;
              fs_listdir := fun _ =>
                [("img1" ++ String "178"%char ".png")%string];
              fs_exists := fun _ => false;
              fs_encodes := fun _ => true;
              fs_read_utf8 := fun _ => ReadOtherError;
              fs_read_latin1 := fun _ => ReadOtherError |} "data"
         = ([], [], [])).
Proof.
  assert (A : forall path,
             decimal_key (digits_of path) = true ->
             Gemini.get_image_id_from_path path
             = Some (decimal_value (digits_of path))
             /\ Batch.get_image_id path
                = Some (decimal_value (digits_of path))).
  { intros path H. pose proof (int_decimal_key _ H) as Hi.
    unfold Gemini.get_image_id_from_path, Batch.get_image_id.
    fold (stem_of path). fold (digits_of path). cbv zeta.
    split; [| exact Hi].
    destruct (digits_of path); [discriminate H | exact Hi]. }
  split; [exact A |]. split; [| split; [| split; [| split; [| split]]]].
  - intros name D ext dir Hn Hnd He Hd HD file path.
    assert (Hdig : digits_of path = D).
    { unfold digits_of, path, file.
      rewrite (stem_of_named name D ext dir Hn He Hd HD), filter_app, Hnd.
      apply filter_decimal_isdigit. destruct D; [discriminate | exact HD]. }
    destruct (A path) as [G B]; [now rewrite Hdig |].
    rewrite Hdig in G, B. now split.
  - intros path H.
    unfold Gemini.get_image_id_from_path, Batch.get_image_id.
    fold (stem_of path). fold (digits_of path). cbv zeta.
    now rewrite H.
  - intros items processed_ids it H Hin.
    apply filter_In in Hin as [_ Hin]. now rewrite H in Hin.
  - intros fs dir path H.
    assert (Hs : ~ In path (Batch.sorted_image_paths fs dir)).
    { intro Hin. now apply sorted_image_paths_have_id in Hin. }
    unfold Batch.load_images_and_texts.
    destruct (fs_isdir fs dir); cbn [negb]; [| cbn; tauto].
    destruct (pair_up_incl fs (Batch.sorted_image_paths fs dir)) as [P1 P2].
    destruct (Batch.pair_up fs (Batch.sorted_image_paths fs dir))
      as [pairs only].
    simpl in P1, P2.
    destruct (Batch.limit <? _).
    + repeat split; intro Hin.
      * apply Hs. now apply In_firstn in Hin.
      * apply in_map_iff in Hin as [pr [<- Hpr]].
        apply Hs, P1. now apply In_firstn in Hpr.
      * apply Hs, P2. now apply In_firstn in Hin.
    + repeat split; intro Hin.
      * now apply Hs.
      * apply in_map_iff in Hin as [pr [<- Hpr]]. now apply Hs, P1.
      * now apply Hs, P2.
  - intros path H.
    unfold Gemini.get_image_id_from_path, Batch.get_image_id.
    fold (stem_of path). fold (digits_of path). cbv zeta.
    rewrite (int_rejects _ H).
    destruct (digits_of path); [discriminate H |].
    repeat split. discriminate.
  - cbv zeta. repeat split; vm_compute; reflexivity.
Qed.

(** Witness for C7: [data/image123.jpg] has ID 123 in both loaders. *)
Lemma id_extraction_witness :
  Gemini.get_image_id_from_path "data/image123.jpg" = Some 123%N
  /\ Batch.get_image_id "data/image123.jpg" = Some 123%N.
Proof.
  destruct id_extraction as [_ [H _]].
  apply (H "image" "123" "jpg" (Some "data")); reflexivity.
Defined.

(** ** Item loader: text pairing *)

(** C2 (as amended). Direct mode tries the exact-stem names first and the
    ID-based names second, the first existing candidate winning, so an
    existing exact-stem file is always preferred; batch mode tries the
    ID-based names (on the digit string of the stem) first and the
    exact-stem names last, and pairs nothing with a stem without digits. *)
Theorem text_pairing_order :
  (forall fs image_path,
      Gemini.find_matching_text_file fs image_path
      = List.find (fs_exists fs)
          (map (Path.join (Path.dirname image_path))
             (exact_stem_names (stem_of image_path)
              ++ match Gemini.get_image_id_from_path image_path with
                 | Some id => id_based_names (Py.str id)
                 | None => []
                 end)))
  /\ (forall fs image_path e,
         In e (exact_stem_names (stem_of image_path)) ->
         fs_exists fs (Path.join (Path.dirname image_path) e) = true ->
         exists e',
           In e' (exact_stem_names (stem_of image_path))
           /\ Gemini.find_matching_text_file fs image_path
              = Some (Path.join (Path.dirname image_path) e'))
  /\ (forall fs image_path,
         Batch.find_matching_text_file fs image_path
         = match digits_of image_path with
           | EmptyString => None
           | _ =>
               List.find (fs_exists fs)
                 (map (Path.join (Path.dirname image_path))
                    (id_based_names (digits_of image_path)
                     ++ exact_stem_names (stem_of image_path)))
           end).
Proof.
  split; [| split].
  - intros fs p. unfold Gemini.find_matching_text_file.
    fold (stem_of p). cbn [exact_stem_names app map List.find].
    destruct (fs_exists fs (Path.join (Path.dirname p) (stem_of p ++ ".txt")));
      [reflexivity |].
    destruct (fs_exists fs (Path.join (Path.dirname p) (stem_of p ++ ".text")));
      [reflexivity |].
    destruct (Gemini.get_image_id_from_path p); reflexivity.
  - intros fs p e He Hex. unfold Gemini.find_matching_text_file.
    fold (stem_of p). cbn [exact_stem_names In] in *.
    destruct (fs_exists fs (Path.join (Path.dirname p) (stem_of p ++ ".txt")))
      eqn:E1.
    + eexists. split; [left; reflexivity | reflexivity].
    + destruct He as [<- | [<- | []]]; [congruence |].
      rewrite Hex. eexists. split; [right; left; reflexivity | reflexivity].
  - intros fs p. unfold Batch.find_matching_text_file.
    fold (stem_of p). fold (digits_of p). reflexivity.
Qed.

(** Witness for C2: with [image5.txt] and [text5.txt] both present, direct
    mode pairs [image5.jpg] with [image5.txt]. *)
Lemma text_pairing_order_witness :
  let fs := {| fs_isdir := fun _ => true;
               fs_listdir := fun _ => [];
               fs_exists := fun p =>
                 existsb (String.eqb p) ["data/image5.txt"; "data/text5.txt"];
               fs_encodes := fun _ => true;
               fs_read_utf8 := fun _ => ReadOtherError;
               fs_read_latin1 := fun _ => ReadOtherError |} in
  exists e',
    In e' (exact_stem_names (stem_of "data/image5.jpg"))
    /\ Gemini.find_matching_text_file fs "data/image5.jpg"
       = Some (Path.join (Path.dirname "data/image5.jpg") e').
Proof.
  cbv zeta. destruct text_pairing_order as [_ [H _]].
  apply (H _ "data/image5.jpg" "image5.txt"); [left |]; reflexivity.
Defined.

(** Counterexample to C2 as stated: with [image5.txt] and [text5.txt] both
    present, batch mode pairs [image5.jpg] with the ID-based [text5.txt]. *)
Lemma text_pairing_order_counterexample :
  let fs := {| fs_isdir := fun _ => true;
               fs_listdir := fun _ => [];
               fs_exists := fun p =>
                 existsb (String.eqb p) ["data/image5.txt"; "data/text5.txt"];
               fs_encodes := fun _ => true;
               fs_read_utf8 := fun _ => ReadOtherError;
               fs_read_latin1 := fun _ => ReadOtherError |} in
  fs_exists fs (Path.join (Path.dirname "data/image5.jpg")
                  (stem_of "data/image5.jpg" ++ ".txt")) = true
  /\ Batch.find_matching_text_file fs "data/image5.jpg"
     = Some "data/text5.txt"
  /\ Gemini.find_matching_text_file fs "data/image5.jpg"
     = Some "data/image5.txt".
Proof. cbv zeta. repeat split; reflexivity. Qed.

(** ** Direct mode: the request with retries *)

Section Attempts.
Variable respond : nat -> Gemini.attempt_outcome.
Variables R delay : nat.

Lemma attempt_loop_failed_prefix (k : nat) :
  forall left a,
    a + left = R -> k < left ->
    (forall j, j < k -> exists e, respond (a + j) = Gemini.Raises e) ->
    Gemini.attempt_loop respond R delay left a
    = (fst (Gemini.attempt_loop respond R delay (left - k) (a + k)),
       failed_attempts delay a k
         ++ snd (Gemini.attempt_loop respond R delay (left - k) (a + k))).
Proof.
  induction k as [| k IH]; intros left a HR Hk Hfail.
  - rewrite Nat.sub_0_r, Nat.add_0_r. simpl. now destruct Gemini.attempt_loop.
  - destruct left as [| left]; [lia |].
    destruct (Hfail 0) as [e He]; [lia |]. rewrite Nat.add_0_r in He.
    cbn [Gemini.attempt_loop]. rewrite He.
    assert (Hlt : (a <? R - 1) = true) by (apply Nat.ltb_lt; lia).
    rewrite Hlt.
    rewrite (IH left (S a)); [| lia | lia |].
    + replace (S a + k) with (a + S k) by lia.
      replace (S left - S k) with (left - k) by lia.
      reflexivity.
    + intros j Hj. destruct (Hfail (S j)) as [e' He']; [lia |].
      exists e'. now replace (S a + j) with (a + S j) by lia.
Qed.

Lemma attempt_loop_result (left : nat) :
  forall a,
    a + left = R ->
    (exists k t,
        k < R /\ respond k = Gemini.Text t
        /\ fst (Gemini.attempt_loop respond R delay left a) = Py.strip t)
    \/ starts_with_error (fst (Gemini.attempt_loop respond R delay left a)).
Proof.
  induction left as [| left IH]; intros a HR; cbn [Gemini.attempt_loop].
  - right. reflexivity.
  - destruct (respond a) as [e | t | reason] eqn:E.
    + destruct (a <? R - 1).
      * destruct (IH (S a)) as [H | H]; [lia | |];
          destruct (Gemini.attempt_loop respond R delay left (S a));
          [left | right]; exact H.
      * right. reflexivity.
    + left. exists a, t. repeat split; [lia | exact E].
    + right. reflexivity.
Qed.
End Attempts.

Lemma no_content_message_decodes (f s f' s' : string) :
  Py.contains "," f = false ->
  Py.contains "," f' = false ->
  Gemini.no_content_message (Some (f, s))
  = Gemini.no_content_message (Some (f', s')) ->
  f = f' /\ s = s'.
Proof.
  intros Hf Hf' H. unfold Gemini.no_content_message in H.
  apply sapp_inv_head in H.
  change (", Safety: " ++ s ++ ")")%string
    with (String "," (" Safety: " ++ s ++ ")"))%string in H.
  change (", Safety: " ++ s' ++ ")")%string
    with (String "," (" Safety: " ++ s' ++ ")"))%string in H.
  apply split_at_first in H as [-> H]; [| exact Hf | exact Hf'].
  split; [reflexivity |].
  apply sapp_inv_head in H. now apply sapp_inv_tail in H.
Qed.

(** C5. A request returns a string for every behaviour of the model: the
    stripped text of an attempt or an error string; when all [R] attempts
    raise, the calls are separated by sleeps of [delay * 2 ^ attempt] and
    the result is the error string [Error: After R attempts - e] naming
    the last exception; a response without content ends the request at
    once with the error string
    [Error: No content in response (Finish reason: f, Safety: s)], which
    spells the finish reason [f] of the response ([UNKNOWN] when it has no
    candidate) and from which a finish reason without a comma is read
    back. *)
Theorem request_error_capture (respond : nat -> Gemini.attempt_outcome)
    (R delay : nat) :
  ((exists k t,
       k < R /\ respond k = Gemini.Text t
       /\ fst (Gemini.generate_gemini_response respond R delay) = Py.strip t)
   \/ starts_with_error
        (fst (Gemini.generate_gemini_response respond R delay)))
  /\ (forall e,
         0 < R ->
         (forall k, k < R -> respond k = Gemini.Raises (e k)) ->
         Gemini.generate_gemini_response respond R delay
         = (Gemini.after_attempts_message R (e (R - 1)),
            failed_attempts delay 0 (R - 1) ++ [Gemini.EvCall (R - 1)])
         /\ Gemini.after_attempts_message R (e (R - 1))
            = ("Error: After " ++ Py.str (N.of_nat R) ++ " attempts - "
               ++ e (R - 1))%string
         /\ starts_with_error
              (Gemini.after_attempts_message R (e (R - 1))))
  /\ (forall k reason,
         k < R ->
         (forall j, j < k -> exists e, respond j = Gemini.Raises e) ->
         respond k = Gemini.NoContent reason ->
         Gemini.generate_gemini_response respond R delay
         = (Gemini.no_content_message reason,
            failed_attempts delay 0 k ++ [Gemini.EvCall k])
         /\ Gemini.no_content_message reason
            = ("Error: No content in response (Finish reason: "
               ++ match reason with Some (f, _) => f | None => "UNKNOWN" end
               ++ ", Safety: "
               ++ match reason with Some (_, s) => s | None => "[]" end
               ++ ")")%string
         /\ starts_with_error (Gemini.no_content_message reason))
  /\ (forall f s f' s',
         Py.contains "," f = false ->
         Py.contains "," f' = false ->
         Gemini.no_content_message (Some (f, s))
         = Gemini.no_content_message (Some (f', s')) ->
         f = f' /\ s = s').
Proof.
  unfold Gemini.generate_gemini_response. split; [| split; [| split]].
  - apply attempt_loop_result. reflexivity.
  - intros e HR Hall. split; [| split; reflexivity].
    rewrite (attempt_loop_failed_prefix respond R delay (R - 1) R 0);
      [| reflexivity | lia |].
    + replace (R - (R - 1)) with 1 by lia. cbn [Nat.add Gemini.attempt_loop].
      rewrite (Hall (R - 1)) by lia.
      now rewrite Nat.ltb_irrefl.
    + intros j Hj. exists (e j). apply Hall. lia.
  - intros k reason Hk Hfail Hno. split; [| split; reflexivity].
    rewrite (attempt_loop_failed_prefix respond R delay k R 0);
      [| reflexivity | lia | exact Hfail].
    destruct (R - k) as [| n] eqn:En; [lia |].
    cbn [Nat.add Gemini.attempt_loop]. now rewrite Hno.
  - apply no_content_message_decodes.
Qed.

(** Witness for C5: three attempts that all raise, with the default delay
    of five seconds, sleep 5 and 10 seconds between the calls; and a
    response blocked for safety at the second attempt ends the request
    there. *)
Lemma request_error_capture_witness :
  Gemini.generate_gemini_response (fun _ => Gemini.Raises "timeout") 3 5
  = ("Error: After 3 attempts - timeout",
     [Gemini.EvCall 0; Gemini.EvSleep 5; Gemini.EvCall 1; Gemini.EvSleep 10;
      Gemini.EvCall 2])
  /\ Gemini.generate_gemini_response
       (fun k =>
          match k with
          | 0 => Gemini.Raises "timeout"
          | _ => Gemini.NoContent (Some ("SAFETY", "[HARM_CATEGORY_X]"))
          end) 3 5
     = ("Error: No content in response (Finish reason: SAFETY, Safety: [HARM_CATEGORY_X])",
        [Gemini.EvCall 0; Gemini.EvSleep 5; Gemini.EvCall 1]).
Proof.
  split.
  - destruct (request_error_capture (fun _ => Gemini.Raises "timeout") 3 5)
      as [_ [H _]].
    destruct (H (fun _ => "timeout")) as [E _]; [lia | reflexivity |].
    exact E.
  - destruct (request_error_capture
                (fun k =>
                   match k with
                   | 0 => Gemini.Raises "timeout"
                   | _ => Gemini.NoContent
                            (Some ("SAFETY", "[HARM_CATEGORY_X]"))
                   end) 3 5)
      as [_ [_ [H _]]].
    destruct (H 1 (Some ("SAFETY", "[HARM_CATEGORY_X]"))) as [E _];
      [lia | | reflexivity | exact E].
    intros j Hj. exists "timeout". now replace j with 0 by lia.
Defined.

(** ** Result finalizer *)

Lemma fst_le_trans {A : Type} : Relations_1.Transitive (@fst_le A).
Proof. intros a b c. unfold fst_le. lia. Qed.

Lemma strongly_sorted_map_snd (dl : list (N * (string * string))) :
  Forall (fun e => int_key (snd e) = fst e) dl ->
  StronglySorted fst_le dl -> StronglySorted key_le (map snd dl).
Proof.
  intros HF HS. induction HS as [| e r HS IH Hall]; simpl; constructor.
  - apply IH. now inversion HF.
  - inversion HF as [| ? ? He Hr]; subst.
    rewrite Forall_forall in *. intros kv Hkv.
    apply in_map_iff in Hkv as [e' [<- He']].
    unfold key_le. rewrite He, (Hr _ He'). now apply Hall.
Qed.

Lemma finalize_spec (m out : odict) :
  finalize m = Some out ->
  Permutation out m /\ StronglySorted key_le out.
Proof.
  unfold finalize. destruct (decorate _ m) as [dl |] eqn:E; [| discriminate].
  intro H. inversion H; subst out; clear H.
  destruct (decorate_spec _ _ _ E) as [Hm Hk].
  pose proof (sort_by_perm N.ltb dl) as HP.
  split.
  - rewrite <- Hm. now apply Permutation_map.
  - apply strongly_sorted_map_snd.
    + eapply Permutation_Forall; [symmetry; exact HP |].
      eapply Forall_impl; [| exact Hk].
      intros e He. unfold int_key. now rewrite He.
    + apply Sorted_StronglySorted; [apply fst_le_trans | apply sort_by_sorted].
Qed.

Lemma finalize_total (m : odict) :
  Forall (fun kv => Py.int (fst kv) <> None) m ->
  exists out, finalize m = Some out.
Proof.
  intro H. unfold finalize.
  destruct (decorate_total (fun kv => Py.int (fst kv)) m H) as [dl ->].
  now eexists.
Qed.

Lemma decimal_keys_parse (m : odict) :
  Forall (fun kv => decimal_key (fst kv) = true) m ->
  Forall (fun kv => Py.int (fst kv) <> None) m.
Proof.
  apply Forall_impl. intros kv H. now rewrite (int_decimal_key _ H).
Qed.

(** C9. On a mapping whose keys are decimal-integer strings the finalizer
    returns the same entries ordered by the integer value of their keys,
    ascending; being a function it gives the same order for the same
    mapping; keys 9, 10, 2 come out as 2, 9, 10. *)
Theorem finalizer_numeric_order :
  (forall m,
      Forall (fun kv => decimal_key (fst kv) = true) m ->
      exists out,
        finalize m = Some out
        /\ Permutation out m
        /\ StronglySorted key_le out)
  /\ finalize [("9", "a"); ("10", "b"); ("2", "c")]
     = Some [("2", "c"); ("9", "a"); ("10", "b")].
Proof.
  split; [| reflexivity].
  intros m H.
  destruct (finalize_total m (decimal_keys_parse m H)) as [out E].
  exists out. split; [exact E |]. now apply finalize_spec.
Qed.

(** Witness for C9: the mapping with keys 9, 10 and 2. *)
Lemma finalizer_numeric_order_witness :
  exists out,
    finalize [("9", "a"); ("10", "b"); ("2", "c")] = Some out
    /\ Permutation out [("9", "a"); ("10", "b"); ("2", "c")]
    /\ StronglySorted key_le out.
Proof.
  destruct finalizer_numeric_order as [H _].
  apply H. repeat constructor.
Defined.

(** ** Checkpoint store: what a save does to the file *)

Lemma run_ops_writes (cs : list string) (s : string) :
  run_ops (Some s) (map WriteChunk cs)
  = Some (s ++ fold_right String.append EmptyString cs)%string.
Proof.
  unfold run_ops. revert s. induction cs as [| c r IH]; intro s; simpl.
  - f_equal. induction s as [| x t IHs]; simpl; [reflexivity | now rewrite <- IHs].
  - rewrite IH. now rewrite sapp_assoc.
Qed.

Lemma prefix_append (a b : string) : String.prefix a (a ++ b) = true.
Proof.
  induction a as [| c r IH]; simpl; [now destruct b |].
  destruct (ascii_dec c c); [exact IH | congruence].
Qed.

Lemma concat_firstn_skipn (n : nat) (cs : list string) :
  fold_right String.append EmptyString cs
  = (fold_right String.append EmptyString (firstn n cs)
     ++ fold_right String.append EmptyString (skipn n cs))%string.
Proof.
  revert cs. induction n as [| n IH]; intros [| c r]; simpl; try reflexivity.
  now rewrite IH, sapp_assoc.
Qed.

(** C4 (as amended). A save rewrites the checkpoint file in place: once
    finished the file holds exactly the serialization of the mapping,
    whatever it held before; the file is emptied by the opening itself, and
    a save that stops after one operation or more leaves a prefix of the
    new serialization, the previous content being gone. *)
Theorem checkpoint_save_rewrites (results : odict) (f : file) :
  save_checkpoint results f = Some (Json.dumps results)
  /\ save_interrupted 0 results f = f
  /\ save_interrupted 1 results f = Some EmptyString
  /\ (forall n, exists written,
         save_interrupted (S n) results f = Some written
         /\ String.prefix written (Json.dumps results) = true).
Proof.
  unfold save_checkpoint, save_interrupted, save_ops, Json.dumps.
  repeat split.
  - change (run_ops f (OpenW :: ?l)) with (run_ops (Some EmptyString) l).
    now rewrite run_ops_writes.
  - intro n. cbn [firstn].
    change (run_ops f (OpenW :: ?l)) with (run_ops (Some EmptyString) l).
    rewrite firstn_map, run_ops_writes. eexists. split; [reflexivity |].
    rewrite (concat_firstn_skipn n (Json.chunks results)).
    apply prefix_append.
Qed.

(** Counterexample to C4 as stated: the file holds the complete checkpoint
    with key 1; a save of the mapping with keys 1 and 2 that stops right
    after the file is opened leaves it empty, and one that stops two writes
    later leaves an opening brace and a line break. *)
Lemma checkpoint_save_counterexample :
  let previous := save_checkpoint [("1", "a")] None in
  previous = Some (Json.dumps [("1", "a")])
  /\ save_interrupted 1 [("1", "a"); ("2", "b")] previous = Some EmptyString
  /\ save_interrupted 1 [("1", "a"); ("2", "b")] previous <> previous
  /\ save_interrupted 3 [("1", "a"); ("2", "b")] previous
     = Some (String "{" Json.newline_indent)
  /\ save_interrupted 3 [("1", "a"); ("2", "b")] previous <> previous.
Proof. cbv zeta. repeat split; try reflexivity; discriminate. Qed.

(** ** Dictionaries *)

Section DictFacts.
Context {V : Type}.
Implicit Types (d : list (string * V)) (k : string) (v : V).

Lemma od_get_set_same k v d : od_get k (od_set k v d) = Some v.
Proof.
  induction d as [| [k' v'] r IH]; simpl.
  - now rewrite String.eqb_refl.
  - destruct (String.eqb k' k) eqn:E; simpl.
    + now rewrite String.eqb_refl.
    + now rewrite E.
Qed.

Lemma od_get_set_other k k' v d :
  k' <> k -> od_get k' (od_set k v d) = od_get k' d.
Proof.
  intro Hne. induction d as [| [k0 v0] r IH]; simpl.
  - destruct (String.eqb_spec k k'); [congruence | reflexivity].
  - destruct (String.eqb_spec k0 k) as [-> | Hk]; simpl.
    + destruct (String.eqb_spec k k'); [congruence | reflexivity].
    + now rewrite IH.
Qed.

Lemma od_keys_set k v d x :
  In x (map fst (od_set k v d)) <-> x = k \/ In x (map fst d).
Proof.
  induction d as [| [k0 v0] r IH]; simpl.
  - intuition.
  - destruct (String.eqb_spec k0 k) as [-> | Hk]; simpl.
    + intuition.
    + rewrite IH. intuition.
Qed.

Lemma od_set_nodup k v d :
  NoDup (map fst d) -> NoDup (map fst (od_set k v d)).
Proof.
  induction d as [| [k0 v0] r IH]; simpl; intro H.
  - repeat constructor. tauto.
  - inversion H as [| ? ? Hnot Hr]; subst.
    destruct (String.eqb_spec k0 k) as [-> | Hk]; simpl.
    + now constructor.
    + constructor; [| now apply IH].
      rewrite od_keys_set. intros [-> | Hin]; [congruence | contradiction].
Qed.

Lemma od_get_in_keys k d : od_get k d <> None <-> In k (map fst d).
Proof.
  induction d as [| [k0 v0] r IH]; simpl; [tauto |].
  destruct (String.eqb_spec k0 k) as [-> | Hk].
  - split; [now left | discriminate].
  - rewrite IH. intuition congruence.
Qed.

Lemma od_get_in k v d :
  NoDup (map fst d) -> (od_get k d = Some v <-> In (k, v) d).
Proof.
  induction d as [| [k0 v0] r IH]; simpl; intro H.
  - split; [discriminate | tauto].
  - inversion H as [| ? ? Hnot Hr]; subst.
    destruct (String.eqb_spec k0 k) as [-> | Hk].
    + split.
      * intro E. left. congruence.
      * intros [E | Hin]; [congruence |].
        exfalso. apply Hnot. apply in_map_iff. now exists (k, v).
    + rewrite (IH Hr). split; [now right |].
      intros [E | Hin]; [congruence | exact Hin].
Qed.

Lemma od_get_perm k d d' :
  NoDup (map fst d) -> Permutation d d' -> od_get k d = od_get k d'.
Proof.
  intros Hnd HP.
  assert (Hnd' : NoDup (map fst d'))
    by (eapply Permutation_NoDup; [apply Permutation_map; exact HP | exact Hnd]).
  destruct (od_get k d) as [v |] eqn:E.
  - symmetry. apply (od_get_in k v d' Hnd').
    eapply Permutation_in; [exact HP |]. now apply (od_get_in k v d Hnd).
  - destruct (od_get k d') as [v' |] eqn:E'; [| reflexivity].
    apply (od_get_in k v' d' Hnd') in E'.
    apply (Permutation_in _ (Permutation_sym HP)) in E'.
    apply (od_get_in k v' d Hnd) in E'. congruence.
Qed.
End DictFacts.

Lemma str_in_spec (k : string) (l : list string) :
  str_in k l = true <-> In k l.
Proof.
  unfold str_in. rewrite existsb_exists. split.
  - intros [x [Hin E]]. apply String.eqb_eq in E. now subst.
  - intro H. exists k. split; [exact H | apply String.eqb_refl].
Qed.

Lemma od_update_app (d new1 new2 : odict) :
  od_update d (new1 ++ new2) = od_update (od_update d new1) new2.
Proof. unfold od_update. apply fold_left_app. Qed.

Lemma od_update_frame (new d : odict) (k : string) :
  (forall kv, In kv new -> fst kv <> k) ->
  od_get k (od_update d new) = od_get k d.
Proof.
  revert d. induction new as [| [k0 v0] r IH]; intros d H; [reflexivity |].
  change (od_update d ((k0, v0) :: r)) with (od_update (od_set k0 v0 d) r).
  rewrite IH by (intros kv Hkv; apply H; now right).
  apply od_get_set_other. intro E. apply (H (k0, v0)); [now left | now subst].
Qed.

Lemma od_update_keys (new d : odict) (k : string) :
  In k (od_keys (od_update d new)) ->
  In k (od_keys d) \/ In k (map fst new).
Proof.
  revert d. induction new as [| [k0 v0] r IH]; intros d H; [now left |].
  change (od_update d ((k0, v0) :: r)) with (od_update (od_set k0 v0 d) r) in H.
  apply IH in H as [H | H]; [| right; now right].
  apply od_keys_set in H as [-> | H]; [right; now left | now left].
Qed.

Lemma od_update_nodup (new d : odict) :
  NoDup (od_keys d) -> NoDup (od_keys (od_update d new)).
Proof.
  revert d. induction new as [| [k0 v0] r IH]; intros d H; [exact H |].
  change (od_update d ((k0, v0) :: r)) with (od_update (od_set k0 v0 d) r).
  apply IH. now apply od_set_nodup.
Qed.

Lemma od_update_last (new d : odict) (k v : string) :
  od_get k (od_update d (new ++ [(k, v)])) = Some v.
Proof.
  rewrite od_update_app. apply od_get_set_same.
Qed.

(** ** Direct mode: one (language, task) run *)

Lemma last_save_app_save {I : Type} (l : list (log_entry I)) (d : odict) :
  last_save (l ++ [LogSave d]) = Some d.
Proof. induction l as [| e r IH]; simpl; [reflexivity | now rewrite IH]. Qed.

Lemma NoDup_map_filter {A B : Type} (g : A -> B) (f : A -> bool) (l : list A) :
  NoDup (map g l) -> NoDup (map g (List.filter f l)).
Proof.
  induction l as [| x r IH]; simpl; intro H; [constructor |].
  inversion H as [| ? ? Hnot Hr]; subst.
  destruct (f x); simpl; [| now apply IH].
  constructor; [| now apply IH].
  intro Hin. apply Hnot. apply in_map_iff in Hin as [y [E Hy]].
  apply filter_In in Hy as [Hy _]. apply in_map_iff. now exists y.
Qed.

Section GeminiRun.
Variable cfg : Gemini.config.
Variable fs : FileSystem.
Variable model : Gemini.item -> nat -> Gemini.attempt_outcome.

Let process := Gemini.process_single_item_gemini cfg fs model.
Let entry (it : Gemini.item) : string * string := fst (process it).
Let id_of (it : Gemini.item) : option N :=
  Gemini.get_image_id_from_path (Gemini.image_path it).

Lemma process_key (it : Gemini.item) (n : N) :
  id_of it = Some n -> fst (entry it) = Py.str n.
Proof.
  unfold id_of, entry, process, Gemini.process_single_item_gemini.
  intros ->.
  destruct (negb (fs_encodes fs (Gemini.image_path it))); [reflexivity |].
  destruct (Gemini.text_unreadable fs (Gemini.text_path it)); [reflexivity |].
  now destruct (Gemini.generate_gemini_response _ _ _).
Qed.

Lemma merge_result_fst (st : odict * list (log_entry Gemini.item))
    (it : Gemini.item) :
  fst (Gemini.merge_result cfg fs model st it)
  = od_set (fst (entry it)) (snd (entry it)) (fst st).
Proof.
  unfold Gemini.merge_result, entry, process. destruct st as [tr lg].
  destruct (Gemini.process_single_item_gemini cfg fs model it)
    as [[k v] evs].
  simpl. now destruct (_ =? 0).
Qed.

Lemma fold_merge_fst (order : list Gemini.item)
    (st : odict * list (log_entry Gemini.item)) :
  fst (fold_left (Gemini.merge_result cfg fs model) order st)
  = od_update (fst st) (map entry order).
Proof.
  revert st. induction order as [| it r IH]; intro st; [reflexivity |].
  cbn [fold_left map]. rewrite IH, merge_result_fst. reflexivity.
Qed.

Lemma remaining_spec (items : list Gemini.item) (processed : list string)
    (it : Gemini.item) :
  In it (Gemini.remaining_items items processed) ->
  In it items
  /\ exists n, id_of it = Some n /\ ~ In (Py.str n) processed.
Proof.
  unfold Gemini.remaining_items, id_of. intro H.
  apply filter_In in H as [Hin H]. split; [exact Hin |].
  destruct (Gemini.get_image_id_from_path (Gemini.image_path it)) as [n |];
    [| discriminate].
  exists n. split; [reflexivity |].
  rewrite <- str_in_spec. now destruct (str_in (Py.str n) processed).
Qed.

(** The mapping after the loop, for an order drawn from the remaining
    items: loaded entries are untouched and every key is a loaded key or
    the string of the ID of a remaining item. *)
Lemma gemini_loop_frame (items order : list Gemini.item) (loaded : odict) :
  incl order (Gemini.remaining_items items (od_keys loaded)) ->
  let final := od_update loaded (map entry order) in
  (forall k, In k (od_keys loaded) -> od_get k final = od_get k loaded)
  /\ (forall k,
         In k (od_keys final) ->
         In k (od_keys loaded)
         \/ (~ In k (od_keys loaded)
             /\ exists it n,
                 In it items /\ id_of it = Some n /\ k = Py.str n)).
Proof.
  intros Hincl final. split.
  - intros k Hk. apply od_update_frame.
    intros kv Hkv E. apply in_map_iff in Hkv as [it [<- Hit]].
    apply Hincl, remaining_spec in Hit as [_ [n [Hn Hnot]]].
    rewrite (process_key it n Hn) in E. now subst.
  - intros k Hk. apply od_update_keys in Hk as [Hk | Hk]; [now left |].
    right. rewrite map_map in Hk. apply in_map_iff in Hk as [it [<- Hit]].
    apply Hincl, remaining_spec in Hit as [Hin [n [Hn Hnot]]].
    rewrite (process_key it n Hn). split; [exact Hnot |].
    now exists it, n.
Qed.

(** With pairwise distinct IDs, each remaining item ends with its own
    result, whatever happened to the others. *)
Lemma gemini_loop_own_result (order : list Gemini.item) (loaded : odict)
    (it : Gemini.item) (n : N) :
  NoDup (map id_of order) ->
  In it order -> id_of it = Some n ->
  (forall o, In o order -> id_of o <> None) ->
  od_get (Py.str n) (od_update loaded (map entry order))
  = Some (snd (entry it)).
Proof.
  intros Hnd Hin Hn Hids.
  destruct (in_split _ _ Hin) as [a [b ->]].
  rewrite map_app. cbn [map]. rewrite od_update_app.
  change (entry it :: map entry b) with ([entry it] ++ map entry b).
  rewrite od_update_app, od_update_frame.
  - cbn. rewrite <- (process_key it n Hn). apply od_get_set_same.
  - intros kv Hkv E. apply in_map_iff in Hkv as [o [<- Ho]].
    assert (Hoid : id_of o <> None) by (apply Hids, in_or_app; right; now right).
    destruct (id_of o) as [m |] eqn:Em; [| congruence].
    rewrite (process_key o m Em) in E. apply str_inj in E. subst m.
    rewrite map_app in Hnd. apply NoDup_remove_2 in Hnd. apply Hnd.
    apply in_or_app. right. apply in_map_iff. exists o.
    split; [congruence | exact Ho].
Qed.
(** An item whose ID no other item of the order has ends with its own
    result, whatever happened to the others. *)
Lemma gemini_loop_last_result (order : list Gemini.item) (loaded : odict)
    (it : Gemini.item) (n : N) :
  In it order -> id_of it = Some n ->
  (forall o, In o order -> id_of o <> None) ->
  (forall o, In o order -> id_of o = Some n -> o = it) ->
  od_get (Py.str n) (od_update loaded (map entry order))
  = Some (snd (entry it)).
Proof.
  intros Hin Hn. induction order as [| x l IH] using rev_ind;
    intros Hids Hown; [destruct Hin |].
  rewrite map_app, od_update_app. cbn [map od_update fold_left].
  destruct (id_of x) as [m |] eqn:Ex.
  2:{ exfalso. apply (Hids x); [apply in_or_app; right; now left | exact Ex]. }
  rewrite (process_key x m Ex).
  destruct (N.eq_dec m n) as [-> | Hne].
  - rewrite (Hown x) by (try apply in_or_app; auto using in_eq).
    apply od_get_set_same.
  - rewrite od_get_set_other by (intro E; apply str_inj in E; congruence).
    apply IH.
    + apply in_app_or in Hin as [Hin | [<- | []]]; [exact Hin |].
      congruence.
    + intros o Ho. apply Hids, in_or_app. now left.
    + intros o Ho. apply Hown, in_or_app. now left.
Qed.
End GeminiRun.

(** ** Batch mode: the retry loop of one chunk *)

Lemma filter_call_sleep_if (b : bool) (s : nat)
    (l : list (log_entry Batch.submission)) :
  List.filter is_call (Batch.sleep_if b s ++ l) = List.filter is_call l.
Proof. now destruct b. Qed.

Section RetryLoop.
Variable cfg : Batch.config.
Variable job : nat -> nat -> Batch.job_outcome.

(** The mapping after the loop: untouched, or updated once with the
    results read from one output file. *)
Lemma retry_loop_state (i : nat) (sub : Batch.submission) (m : Batch.id_map)
    (retries : nat) (st : Batch.state) :
  (snd (Batch.retry_loop cfg job i sub m retries st) = false
   /\ fst (fst (Batch.retry_loop cfg job i sub m retries st)) = fst st)
  \/ (snd (Batch.retry_loop cfg job i sub m retries st) = true
      /\ exists content,
          fst (fst (Batch.retry_loop cfg job i sub m retries st))
          = od_update (fst st) (Batch.process_batch_results content m)).
Proof.
  funelim (Batch.retry_loop cfg job i sub m retries st);
    try (simpl in *; auto; fail).
  right. split; [reflexivity |]. now exists content.
Qed.

(** The submissions of the loop: attempts [retries], [retries + 1], ...
    in a row, all of the same uploaded file, until one succeeds or the
    retries are used up. *)
Lemma retry_loop_trace (i : nat) (sub : Batch.submission) (m : Batch.id_map)
    (retries : nat) (st : Batch.state) :
  retries <= S (Batch.max_retries cfg) ->
  exists c new,
    snd (fst (Batch.retry_loop cfg job i sub m retries st)) = snd st ++ new
    /\ List.filter is_call new = map (LogCall sub) (seq retries c)
    /\ retries + c <= S (Batch.max_retries cfg)
    /\ (forall a, retries <= a -> a + 1 < retries + c ->
                  is_success (job i a) = false)
    /\ (if snd (Batch.retry_loop cfg job i sub m retries st)
        then exists content,
            0 < c
            /\ job i (retries + c - 1) = Batch.Completed (Some content)
            /\ fst (fst (Batch.retry_loop cfg job i sub m retries st))
               = od_update (fst st) (Batch.process_batch_results content m)
        else retries + c = S (Batch.max_retries cfg)
             /\ fst (fst (Batch.retry_loop cfg job i sub m retries st))
                = fst st
             /\ forall a, retries <= a -> a < retries + c ->
                          is_success (job i a) = false).
Proof.
  funelim (Batch.retry_loop cfg job i sub m retries st); intro Hr;
    try clear Heqcall.
  1: { exists 0, []. simpl. rewrite app_nil_r.
       repeat split; try lia; intros; lia. }
  3: { exists 1, [LogCall sub retries;
                  LogSave (od_update (fst st)
                             (Batch.process_batch_results content m))].
       cbn [fst snd List.filter is_call seq map].
       repeat split; try reflexivity; try lia.
       exists content. replace (retries + 1 - 1) with retries by lia.
       repeat split; [lia | exact Heq]. }
  all: destruct H as (c & new & Hlog & Hcalls & Hc & Hfail & Hend); [lia |];
    match type of Hlog with
    | _ = snd (_, _ ++ _ :: ?sl) ++ _ =>
        exists (S c), (LogCall sub retries :: sl ++ new)
    end;
    cbn [fst snd] in *; rewrite Hlog, <- app_assoc; cbn [app];
    (split; [reflexivity |]); cbn [List.filter is_call seq map];
    rewrite filter_call_sleep_if, Hcalls;
    (split; [reflexivity |]); (split; [lia |]);
    assert (Hhere : is_success (job i retries) = false)
      by (rewrite Heq; reflexivity);
    (split;
     [ intros a Ha Hlt; destruct (Nat.eq_dec a retries) as [-> | Hne];
       [exact Hhere | apply Hfail; lia]
     | destruct (snd (Batch.retry_loop _ _ _ _ _ _ _));
       [ destruct Hend as (content & Hpos & Hjob & Hres);
         exists content; repeat split; [lia | | exact Hres];
         now replace (retries + S c - 1) with (S retries + c - 1) by lia
       | destruct Hend as (Hall & Hres & Hf);
         repeat split; [lia | exact Hres |];
         intros a Ha Hlt; destruct (Nat.eq_dec a retries) as [-> | Hne];
         [exact Hhere | apply Hf; lia] ] ]).
Qed.
End RetryLoop.

Lemma od_update_keys_mono (new d : odict) (k : string) :
  In k (od_keys d) -> In k (od_keys (od_update d new)).
Proof.
  revert d. induction new as [| [k0 v0] r IH]; intros d H; [exact H |].
  change (od_update d ((k0, v0) :: r)) with (od_update (od_set k0 v0 d) r).
  apply IH. apply od_keys_set. now right.
Qed.

Lemma od_mem_keys (k : string) (d : odict) :
  od_mem k d = true <-> In k (od_keys d).
Proof.
  unfold od_mem, od_keys. rewrite <- od_get_in_keys.
  destruct (od_get k d); split; congruence.
Qed.

(** C6. The retry loop of a chunk submits the same uploaded file, hence the
    same request lines, at every attempt; a failed attempt is followed by
    the next one as long as retries are left; there are at most
    [max_retries + 1] submissions; when all of them fail the chunk is
    given up with the result mapping exactly as it was, and in no case
    does a key leave the mapping. *)
Theorem chunk_retry_atomic (cfg : Batch.config)
    (job : nat -> nat -> Batch.job_outcome) (i : nat)
    (sub : Batch.submission) (m : Batch.id_map) (st : Batch.state) :
  let res := Batch.retry_loop cfg job i sub m 0 st in
  exists c new,
    snd (fst res) = snd st ++ new
    /\ List.filter is_call new = map (LogCall sub) (seq 0 c)
    /\ 0 < c <= S (Batch.max_retries cfg)
    /\ (forall a,
           a < Batch.max_retries cfg ->
           (forall b, b <= a -> is_success (job i b) = false) ->
           In (LogCall sub (S a)) new)
    /\ (snd res = true ->
        exists content,
          job i (c - 1) = Batch.Completed (Some content)
          /\ fst (fst res)
             = od_update (fst st) (Batch.process_batch_results content m))
    /\ ((forall a, a <= Batch.max_retries cfg ->
                   is_success (job i a) = false) ->
        snd res = false
        /\ c = S (Batch.max_retries cfg)
        /\ fst (fst res) = fst st)
    /\ (forall k, od_mem k (fst st) = true -> od_mem k (fst (fst res)) = true).
Proof.
  intro res.
  destruct (retry_loop_trace cfg job i sub m 0 st)
    as (c & new & Hlog & Hcalls & Hc & Hfail & Hend); [lia |].
  fold res in Hlog, Hend.
  assert (Hpos : 0 < c).
  { destruct (snd res).
    - now destruct Hend as (content & Hp & _).
    - destruct Hend as (Hall & _). lia. }
  assert (Hsucc : snd res = true ->
                  exists content,
                    job i (c - 1) = Batch.Completed (Some content)
                    /\ fst (fst res)
                       = od_update (fst st)
                           (Batch.process_batch_results content m)).
  { intro Ht. rewrite Ht in Hend.
    destruct Hend as (content & _ & Hjob & Hres). now exists content. }
  exists c, new. split; [exact Hlog |]. split; [exact Hcalls |].
  split; [lia |]. split; [| split; [exact Hsucc | split]].
  - intros a Ha Hb.
    assert (Hin : In (LogCall sub (S a)) (List.filter is_call new)).
    { rewrite Hcalls. apply in_map, in_seq.
      destruct (snd res) eqn:Es.
      - destruct (Hsucc eq_refl) as (content & Hjob & _).
        assert (Hne : ~ c - 1 <= a).
        { intro Hle. specialize (Hb _ Hle). now rewrite Hjob in Hb. }
        lia.
      - destruct Hend as (Hall & _). lia. }
    now apply filter_In in Hin.
  - intro Hall. destruct (snd res) eqn:Es.
    + destruct (Hsucc eq_refl) as (content & Hjob & _).
      specialize (Hall (c - 1)). rewrite Hjob in Hall.
      discriminate Hall. lia.
    + destruct Hend as (Hc' & Hres & _). repeat split; [lia | exact Hres].
  - intros k Hk.
    destruct (retry_loop_state cfg job i sub m 0 st) as [[_ E] | [_ [ct E]]];
      fold res in E; rewrite E; [exact Hk |].
    apply od_mem_keys, od_update_keys_mono, od_mem_keys, Hk.
Qed.

(** Witness for C6: with the default configuration and a job that fails
    every time, the chunk is submitted four times and given up. *)
Lemma chunk_retry_atomic_witness :
  let res :=
    Batch.retry_loop Batch.BASE_CONFIG (fun _ _ => Batch.Terminated) 0
      ("file-1", ["img_1_0"; "img_2_0"]) [] 0 ([("7", "done")], []) in
  snd res = false /\ fst (fst res) = [("7", "done")].
Proof.
  destruct (chunk_retry_atomic Batch.BASE_CONFIG (fun _ _ => Batch.Terminated)
              0 ("file-1", ["img_1_0"; "img_2_0"]) [] ([("7", "done")], []))
    as (c & new & _ & _ & _ & _ & _ & H & _).
  destruct H as (Hf & _ & Hres); [reflexivity |].
  split; [exact Hf | exact Hres].
Defined.

(** ** Batch mode: one (language, task) run *)

Lemma in_od_set {V : Type} (k : string) (v : V) (d : list (string * V))
    (e : string * V) :
  In e (od_set k v d) -> e = (k, v) \/ In e d.
Proof.
  induction d as [| [k0 v0] r IH]; simpl.
  - intuition.
  - destruct (String.eqb k0 k); simpl; intuition.
Qed.

Lemma od_get_some_in {V : Type} (k : string) (v : V) (d : list (string * V)) :
  od_get k d = Some v -> In (k, v) d.
Proof.
  induction d as [| [k0 v0] r IH]; simpl; [discriminate |].
  destruct (String.eqb_spec k0 k) as [-> | Hk].
  - intro E. left. congruence.
  - intro E. right. now apply IH.
Qed.

Section BatchPrepare.
Variable fs : FileSystem.
Variable clock : string -> N.

Lemma prepare_image_only_map (paths : list string)
    (lines : Batch.batch_file) (m : Batch.id_map) :
  Batch.prepare_batch_file_image_only fs clock paths = Some (lines, m) ->
  id_map_from paths m.
Proof.
  unfold Batch.prepare_batch_file_image_only.
  assert (G : forall l acc,
             id_map_from paths (snd acc) -> incl l paths ->
             id_map_from paths
               (snd (fold_left (Batch.prepare_image_only_step fs clock)
                       l acc))).
  { induction l as [| x r IH]; intros acc Hacc Hl; [exact Hacc |].
    cbn [fold_left]. apply IH; [| intros y Hy; apply Hl; now right].
    unfold Batch.prepare_image_only_step. destruct acc as [bl im].
    destruct (Batch.get_image_id (Path.basename x)) as [n |] eqn:E;
      [| exact Hacc].
    assert (Hm : id_map_from paths
                   (od_set (Batch.custom_id_of "img" n (clock x)) (x, n) im)).
    { intros cid p k Hin. apply in_od_set in Hin as [Heq | Hin].
      - inversion Heq; subst. split; [apply Hl; now left | exact E].
      - now apply (Hacc cid). }
    now destruct (negb (fs_encodes fs x)). }
  specialize (G paths ([], [])).
  destruct (fold_left (Batch.prepare_image_only_step fs clock) paths ([], []))
    as [bl im].
  destruct bl; [discriminate |]. intro H. inversion H; subst.
  apply G; [intros ? ? ? [] | apply incl_refl].
Qed.

Lemma prepare_image_text_map (pairs : list (string * string))
    (lines : Batch.batch_file) (m : Batch.id_map) :
  Batch.prepare_batch_file_image_text fs clock pairs = Some (lines, m) ->
  id_map_from (map fst pairs) m.
Proof.
  unfold Batch.prepare_batch_file_image_text.
  assert (G : forall l acc,
             id_map_from (map fst pairs) (snd acc) -> incl l pairs ->
             id_map_from (map fst pairs)
               (snd (fold_left (Batch.prepare_image_text_step fs clock)
                       l acc))).
  { induction l as [| x r IH]; intros acc Hacc Hl; [exact Hacc |].
    cbn [fold_left]. apply IH; [| intros y Hy; apply Hl; now right].
    unfold Batch.prepare_image_text_step.
    destruct acc as [bl im], x as [ip tp].
    destruct (Batch.get_image_id (Path.basename ip)) as [n |] eqn:E;
      [| exact Hacc].
    assert (Hm : id_map_from (map fst pairs)
                   (od_set (Batch.custom_id_of "pair" n (clock ip))
                      (ip, n) im)).
    { intros cid p k Hin. apply in_od_set in Hin as [Heq | Hin].
      - injection Heq as -> -> ->. split; [| exact E].
        apply in_map_iff. exists (ip, tp). split; [reflexivity |].
        apply Hl. now left.
      - now apply (Hacc cid). }
    destruct (negb (fs_encodes fs ip)); [exact Hm |].
    now destruct (read_text_file fs tp). }
  specialize (G pairs ([], [])).
  destruct (fold_left (Batch.prepare_image_text_step fs clock) pairs ([], []))
    as [bl im].
  destruct bl; [discriminate |]. intro H. inversion H; subst.
  apply G; [intros ? ? ? [] | apply incl_refl].
Qed.
End BatchPrepare.

(** The keys written when an output file is read are the strings of IDs
    found in the ID map. *)
Lemma process_batch_results_keys (content : option (list Batch.result_line))
    (m : Batch.id_map) (k : string) :
  In k (od_keys (Batch.process_batch_results content m)) ->
  exists cid p n, In (cid, (p, n)) m /\ k = Py.str n.
Proof.
  unfold Batch.process_batch_results. destruct content as [lines |];
    [| intros []].
  assert (G : forall l acc,
             In k (od_keys (fold_left (Batch.process_result_line m) l acc)) ->
             In k (od_keys acc)
             \/ exists cid p n, In (cid, (p, n)) m /\ k = Py.str n).
  { induction l as [| x r IH]; intros acc H; [now left |].
    cbn [fold_left] in H. apply IH in H as [H | H]; [| now right].
    unfold Batch.process_result_line in H.
    destruct x as [| cid payload]; [now left |].
    destruct (od_get cid m) as [[p n] |] eqn:E; [| now left].
    apply od_keys_set in H as [-> | H]; [| now left].
    right. exists cid, p, n. split; [| reflexivity].
    now apply od_get_some_in. }
  intro H. apply G in H as [[] | H]. exact H.
Qed.

Lemma frame_inv_update (loaded tr new : odict) :
  frame_inv loaded tr ->
  (forall k, In k (od_keys new) ->
             ~ In k (od_keys loaded) /\ exists n, k = Py.str n) ->
  frame_inv loaded (od_update tr new).
Proof.
  intros [H1 H2] Hnew. split.
  - intros k Hk. rewrite od_update_frame; [now apply H1 |].
    intros kv Hkv E. subst k.
    apply (Hnew (fst kv)); [now apply in_map | exact Hk].
  - intros k Hk. apply od_update_keys in Hk as [Hk | Hk]; [now apply H2 |].
    right. now apply Hnew.
Qed.

Lemma not_processed_spec (processed : list string) (p : string) (n : N) :
  Batch.not_processed processed p = true ->
  Batch.get_image_id (Path.basename p) = Some n ->
  ~ In (Py.str n) processed.
Proof.
  unfold Batch.not_processed. intros H E. rewrite E in H.
  rewrite <- str_in_spec. now destruct (str_in (Py.str n) processed).
Qed.

Section BatchRun.
Variable cfg : Batch.config.
Variable upload : nat -> option string.
Variable job : nat -> nat -> Batch.job_outcome.
Variable loaded : odict.

Context {A : Type}.
Variable path_of : A -> string.
Variable prepare : list A -> option (Batch.batch_file * Batch.id_map).
Hypothesis prepare_map :
  forall chunk lines m,
    prepare chunk = Some (lines, m) -> id_map_from (map path_of chunk) m.

Lemma process_chunk_inv (items : list A) (st : Batch.state) (i : nat) :
  (forall x, In x items ->
             Batch.not_processed (od_keys loaded) (path_of x) = true) ->
  frame_inv loaded (fst st) ->
  frame_inv loaded
    (fst (Batch.process_chunk cfg upload job prepare items st i)).
Proof.
  intros Hitems Hinv. unfold Batch.process_chunk.
  destruct (prepare _) as [[lines m] |] eqn:Ep; [| exact Hinv].
  destruct m as [| e m']; [exact Hinv |].
  destruct (upload i) as [[| c r] |]; try exact Hinv.
  destruct (retry_loop_state cfg job i (String c r, lines) (e :: m') 0 st)
    as [[_ E] | [_ [content E]]]; rewrite E; [exact Hinv |].
  apply frame_inv_update; [exact Hinv |].
  intros k Hk.
  apply process_batch_results_keys in Hk as (cid & p & n & Hin & ->).
  apply (prepare_map _ _ _ Ep) in Hin as [Hp Hid].
  split; [| now exists n].
  apply in_map_iff in Hp as [x [<- Hx]].
eapply not_processed_spec; [| exact Hid].
apply Hitems. apply In_firstn in Hx. now apply In_skipn in Hx.
Qed.

Lemma process_chunks_inv (items : list A) (st : Batch.state) :
  (forall x, In x items ->
             Batch.not_processed (od_keys loaded) (path_of x) = true) ->
  frame_inv loaded (fst st) ->
  frame_inv loaded
    (fst (Batch.process_chunks cfg upload job prepare items st)).
Proof.
  intros Hitems. unfold Batch.process_chunks.
  generalize (Batch.chunk_starts cfg (Datatypes.length items)).
  intro starts. revert st.
  induction starts as [| i r IH]; intros st Hinv; [exact Hinv |].
  cbn [fold_left]. apply IH. now apply process_chunk_inv.
Qed.

Lemma finish_inv (items : list A) :
  (forall x, In x items ->
             Batch.not_processed (od_keys loaded) (path_of x) = true) ->
  frame_inv loaded
    (Batch.task_results_at_end
       (Batch.finish cfg upload job prepare items loaded)).
Proof.
  intro Hitems.
  assert (H0 : frame_inv loaded loaded).
  { split; [reflexivity | now left]. }
  unfold Batch.finish. destruct items as [| x r]; [exact H0 |].
  cbn [Batch.task_results_at_end].
  now apply process_chunks_inv.
Qed.
End BatchRun.

Section BatchRunNoDup.
Variable cfg : Batch.config.
Variable upload : nat -> option string.
Variable job : nat -> nat -> Batch.job_outcome.
Context {A : Type}.
Variable prepare : list A -> option (Batch.batch_file * Batch.id_map).

Lemma process_chunks_nodup (items : list A) (st : Batch.state) :
  NoDup (od_keys (fst st)) ->
  NoDup (od_keys
           (fst (Batch.process_chunks cfg upload job prepare items st))).
Proof.
  unfold Batch.process_chunks.
  generalize (Batch.chunk_starts cfg (Datatypes.length items)).
  intro starts. revert st.
  induction starts as [| i r IH]; intros st Hnd; [exact Hnd |].
  cbn [fold_left]. apply IH. unfold Batch.process_chunk.
  destruct (prepare _) as [[lines m] |]; [| exact Hnd].
  destruct m as [| e m']; [exact Hnd |].
  destruct (upload i) as [[| c s] |]; try exact Hnd.
  destruct (retry_loop_state cfg job i (String c s, lines) (e :: m') 0 st)
    as [[_ E] | [_ [content E]]]; rewrite E; [exact Hnd |].
  now apply od_update_nodup.
Qed.

Lemma finish_nodup (items : list A) (loaded : odict) :
  NoDup (od_keys loaded) ->
  NoDup (od_keys (Batch.task_results_at_end
                    (Batch.finish cfg upload job prepare items loaded))).
Proof.
  intro H. unfold Batch.finish. destruct items; [exact H |].
  cbn [Batch.task_results_at_end]. now apply process_chunks_nodup.
Qed.

Lemma finish_output (items : list A) (loaded : odict) :
  let r := Batch.finish cfg upload job prepare items loaded in
  Batch.output r = Some (Batch.task_results_at_end r)
  \/ Batch.output r = finalize (Batch.task_results_at_end r).
Proof.
  unfold Batch.finish. destruct items; [now left | now right].
Qed.
End BatchRunNoDup.

(** What the frame gives for the mapping a run returns. *)
Lemma frame_output (loaded tr : odict) (o : option odict) :
  frame_inv loaded tr -> NoDup (od_keys tr) ->
  o = Some tr \/ o = finalize tr ->
  forall k v,
    od_get k loaded = Some v ->
    od_get k tr = Some v
    /\ forall out, o = Some out -> od_get k out = Some v.
Proof.
  intros [H1 _] Hnd Ho k v Hk.
  assert (Hin : In k (od_keys loaded))
    by (apply od_get_in_keys; congruence).
  assert (Htr : od_get k tr = Some v) by (rewrite H1; assumption).
  split; [exact Htr |]. intros out Hout.
  destruct Ho as [-> | ->]; [congruence |].
  apply finalize_spec in Hout as [HP _].
  rewrite <- Htr. symmetry. apply od_get_perm; [exact Hnd |].
  now symmetry.
Qed.

Lemma frame_decimal (loaded tr : odict) (o : option odict) :
  frame_inv loaded tr ->
  o = Some tr \/ o = finalize tr ->
  (forall k, In k (od_keys tr) ->
             In k (od_keys loaded) \/ exists n, k = Py.str n)
  /\ (Forall (fun kv => decimal_key (fst kv) = true) loaded ->
      Forall (fun kv => decimal_key (fst kv) = true) tr
      /\ exists out, o = Some out).
Proof.
  intros [_ H2] Ho. split.
  - intros k Hk. destruct (H2 k Hk) as [H | [_ H]]; [now left | now right].
  - intro Hdec.
    assert (Htr : Forall (fun kv => decimal_key (fst kv) = true) tr).
    { rewrite Forall_forall in *. intros kv Hkv.
      destruct (H2 (fst kv)) as [H | [_ [n ->]]].
      - now apply in_map.
      - apply in_map_iff in H as [kv' [<- Hkv']]. now apply Hdec.
      - apply str_decimal_key. }
    split; [exact Htr |].
    destruct Ho as [-> | ->]; [now eexists |].
    apply finalize_total, decimal_keys_parse, Htr.
Qed.

Section GeminiRunFrame.
Variable cfg : Gemini.config.
Variable fs : FileSystem.
Variable model : Gemini.item -> nat -> Gemini.attempt_outcome.
Variable completion : list Gemini.item -> list Gemini.item.
Hypothesis completion_perm : forall l, Permutation (completion l) l.
Variable task_num : nat.
Variables image_only_items image_text_items : list Gemini.item.
Variable checkpoint : checkpoint_file.

Let r :=
  Gemini.run_task_for_language_gemini cfg fs model completion task_num
    image_only_items image_text_items checkpoint.
Let loaded := load_checkpoint checkpoint.
Let items :=
  if 6 <=? task_num then image_text_items else image_only_items.

Lemma gemini_run_results :
  Gemini.task_results_at_end r
  = od_update loaded
      (map (fun it => fst (Gemini.process_single_item_gemini cfg fs model it))
         (match Gemini.remaining_items items (od_keys loaded) with
          | [] => []
          | l => completion l
          end))
  /\ (Gemini.output r = Some (Gemini.task_results_at_end r)
      \/ Gemini.output r = finalize (Gemini.task_results_at_end r)).
Proof.
  unfold r, Gemini.run_task_for_language_gemini. fold loaded. fold items.
  destruct (Gemini.remaining_items items (od_keys loaded)) as [| x l] eqn:E.
  - split; [reflexivity | now left].
  - pose proof (fold_merge_fst cfg fs model (completion (x :: l))
                  (loaded, [])) as F.
    destruct (fold_left _ (completion (x :: l)) (loaded, [])) as [tr lg].
    cbn [Gemini.task_results_at_end Gemini.output fst] in *.
    split; [exact F | now right].
Qed.

Lemma gemini_run_frame : frame_inv loaded (Gemini.task_results_at_end r).
Proof.
  destruct gemini_run_results as [-> _].
  assert (Hincl : incl
                    (match Gemini.remaining_items items (od_keys loaded) with
                     | [] => []
                     | l => completion l
                     end)
                    (Gemini.remaining_items items (od_keys loaded))).
  { destruct (Gemini.remaining_items items (od_keys loaded)) as [| x l];
      [apply incl_refl |].
    intros y Hy. eapply Permutation_in; [apply completion_perm | exact Hy]. }
  destruct (gemini_loop_frame cfg fs model items _ loaded Hincl) as [F1 F2].
  split; [exact F1 |].
  intros k Hk. destruct (F2 k Hk) as [H | [Hn (it & n & _ & _ & ->)]];
    [now left | right]. split; [exact Hn | now exists n].
Qed.

Lemma gemini_run_nodup :
  NoDup (od_keys loaded) -> NoDup (od_keys (Gemini.task_results_at_end r)).
Proof.
  destruct gemini_run_results as [-> _]. apply od_update_nodup.
Qed.
End GeminiRunFrame.

Section BatchRunFrame.
Variable cfg : Batch.config.
Variable fs : FileSystem.
Variable clock : string -> N.
Variable upload : nat -> option string.
Variable job : nat -> nat -> Batch.job_outcome.
Variable task_num : nat.
Variable all_images : list string.
Variable image_text_pairs : list (string * string).
Variable checkpoint : checkpoint_file.

Let r :=
  Batch.process_task_for_language_batch cfg fs clock upload job task_num
    all_images image_text_pairs checkpoint.
Let loaded := load_checkpoint checkpoint.

Lemma batch_run_frame : frame_inv loaded (Batch.task_results_at_end r).
Proof.
  unfold r, Batch.process_task_for_language_batch. fold loaded.
  destruct (6 <=? task_num).
  - apply (finish_inv cfg upload job loaded fst).
    + intros chunk lines m H.
      now apply (prepare_image_text_map fs clock chunk lines m).
    + intros x Hx.
      now apply filter_In in Hx as [_ Hx].
  - apply (finish_inv cfg upload job loaded (fun p => p)).
    + intros chunk lines m H. rewrite map_id.
      now apply (prepare_image_only_map fs clock chunk lines m).
    + intros x Hx.
      now apply filter_In in Hx as [_ Hx].
Qed.

Lemma batch_run_nodup :
  NoDup (od_keys loaded) -> NoDup (od_keys (Batch.task_results_at_end r)).
Proof.
  unfold r, Batch.process_task_for_language_batch. fold loaded.
  destruct (6 <=? task_num); apply finish_nodup.
Qed.

Lemma batch_run_output :
  Batch.output r = Some (Batch.task_results_at_end r)
  \/ Batch.output r = finalize (Batch.task_results_at_end r).
Proof.
  unfold r, Batch.process_task_for_language_batch.
  destruct (6 <=? task_num); apply finish_output.
Qed.
End BatchRunFrame.

(** ** Checkpoint frame and key invariant *)

(** C10. In both modes every entry of the loaded checkpoint is found with
    the same value in the result mapping at the end of the run and in the
    mapping the run returns, and every key the run added is the string of
    an ID that was absent from the loaded keys. *)
Theorem checkpoint_append_only :
  (forall cfg fs model completion task_num image_only_items image_text_items
          checkpoint,
      (forall l, Permutation (completion l) l) ->
      NoDup (od_keys (load_checkpoint checkpoint)) ->
      let r :=
        Gemini.run_task_for_language_gemini cfg fs model completion task_num
          image_only_items image_text_items checkpoint in
      (forall k v,
          od_get k (load_checkpoint checkpoint) = Some v ->
          od_get k (Gemini.task_results_at_end r) = Some v
          /\ forall out, Gemini.output r = Some out -> od_get k out = Some v)
      /\ (forall k,
             In k (od_keys (Gemini.task_results_at_end r)) ->
             In k (od_keys (load_checkpoint checkpoint))
             \/ (~ In k (od_keys (load_checkpoint checkpoint))
                 /\ exists n, k = Py.str n)))
  /\ (forall cfg fs clock upload job task_num all_images image_text_pairs
             checkpoint,
         NoDup (od_keys (load_checkpoint checkpoint)) ->
         let r :=
           Batch.process_task_for_language_batch cfg fs clock upload job
             task_num all_images image_text_pairs checkpoint in
         (forall k v,
             od_get k (load_checkpoint checkpoint) = Some v ->
             od_get k (Batch.task_results_at_end r) = Some v
             /\ forall out, Batch.output r = Some out -> od_get k out = Some v)
         /\ (forall k,
                In k (od_keys (Batch.task_results_at_end r)) ->
                In k (od_keys (load_checkpoint checkpoint))
                \/ (~ In k (od_keys (load_checkpoint checkpoint))
                    /\ exists n, k = Py.str n))).
Proof.
  split.
  - intros cfg fs model completion task_num only pairs ck Hperm Hnd r.
    pose proof (gemini_run_frame cfg fs model completion Hperm task_num
                  only pairs ck) as Hf.
    split; [| exact (proj2 Hf)].
    apply frame_output; [exact Hf | | ].
    + now apply gemini_run_nodup.
    + apply (gemini_run_results cfg fs model completion task_num only pairs ck).
  - intros cfg fs clock upload job task_num imgs pairs ck Hnd r.
    pose proof (batch_run_frame cfg fs clock upload job task_num imgs pairs ck)
      as Hf.
    split; [| exact (proj2 Hf)].
    apply frame_output; [exact Hf | | ].
    + now apply batch_run_nodup.
    + apply batch_run_output.
Qed.

(** C3. The string of an ID is a decimal-integer string that [int] reads
    back; in both modes every key of the result mapping is a loaded key or
    such a string, batch reconciliation writing only such strings; so when
    the loaded keys are decimal-integer strings all keys are, and the final
    sort returns. *)
Theorem checkpoint_keys_decimal :
  (forall n, decimal_key (Py.str n) = true /\ Py.int (Py.str n) = Some n)
  /\ (forall cfg fs model completion task_num image_only_items
             image_text_items checkpoint,
         (forall l, Permutation (completion l) l) ->
         let r :=
           Gemini.run_task_for_language_gemini cfg fs model completion
             task_num image_only_items image_text_items checkpoint in
         (forall k,
             In k (od_keys (Gemini.task_results_at_end r)) ->
             In k (od_keys (load_checkpoint checkpoint))
             \/ exists n, k = Py.str n)
         /\ (Forall (fun kv => decimal_key (fst kv) = true)
               (load_checkpoint checkpoint) ->
             Forall (fun kv => decimal_key (fst kv) = true)
               (Gemini.task_results_at_end r)
             /\ exists out, Gemini.output r = Some out))
  /\ (forall content m k,
         In k (od_keys (Batch.process_batch_results content m)) ->
         exists n, k = Py.str n)
  /\ (forall cfg fs clock upload job task_num all_images image_text_pairs
             checkpoint,
         let r :=
           Batch.process_task_for_language_batch cfg fs clock upload job
             task_num all_images image_text_pairs checkpoint in
         (forall k,
             In k (od_keys (Batch.task_results_at_end r)) ->
             In k (od_keys (load_checkpoint checkpoint))
             \/ exists n, k = Py.str n)
         /\ (Forall (fun kv => decimal_key (fst kv) = true)
               (load_checkpoint checkpoint) ->
             Forall (fun kv => decimal_key (fst kv) = true)
               (Batch.task_results_at_end r)
             /\ exists out, Batch.output r = Some out)).
Proof.
  split; [| split; [| split]].
  - intro n. split; [apply str_decimal_key | apply int_str].
  - intros cfg fs model completion task_num only pairs ck Hperm r.
    apply frame_decimal.
    + now apply gemini_run_frame.
    + apply (gemini_run_results cfg fs model completion task_num only pairs ck).
  - intros content m k Hk.
    apply process_batch_results_keys in Hk as (cid & p & n & _ & ->).
    now exists n.
  - intros cfg fs clock upload job task_num imgs pairs ck r.
    apply frame_decimal; [apply batch_run_frame | apply batch_run_output].
Qed.

(** Witness for C10: a direct run over two images keeps the loaded entry
    of key 7. *)
Lemma checkpoint_append_only_witness :
  let r :=
    Gemini.run_task_for_language_gemini Gemini.BASE_CONFIG
      {| fs_isdir := fun _ => true; fs_listdir := fun _ => [];
         fs_exists := fun _ => false; fs_encodes := fun _ => true;
         fs_read_utf8 := fun _ => ReadOtherError;
         fs_read_latin1 := fun _ => ReadOtherError |}
      (fun it _ => Gemini.Text (Gemini.image_path it)) (fun l => l) 1
      [ {| Gemini.image_path := "data/image1.jpg"; Gemini.text_path := None |};
        {| Gemini.image_path := "data/image2.jpg"; Gemini.text_path := None |} ]
      [] (CkObject [("7", "old")]) in
  od_get "7" (Gemini.task_results_at_end r) = Some "old"
  /\ forall out, Gemini.output r = Some out -> od_get "7" out = Some "old".
Proof.
  cbv zeta. destruct checkpoint_append_only as [H _].
  apply H; [reflexivity | | reflexivity].
  simpl. constructor; [intros [] | constructor].
Defined.

(** Witness for C3: the same run, whose loaded key is a decimal-integer
    string, ends with decimal-integer keys and returns a mapping. *)
Lemma checkpoint_keys_decimal_witness :
  let r :=
    Gemini.run_task_for_language_gemini Gemini.BASE_CONFIG
      {| fs_isdir := fun _ => true; fs_listdir := fun _ => [];
         fs_exists := fun _ => false; fs_encodes := fun _ => true;
         fs_read_utf8 := fun _ => ReadOtherError;
         fs_read_latin1 := fun _ => ReadOtherError |}
      (fun it _ => Gemini.Text (Gemini.image_path it)) (fun l => l) 1
      [ {| Gemini.image_path := "data/image1.jpg"; Gemini.text_path := None |};
        {| Gemini.image_path := "data/image2.jpg"; Gemini.text_path := None |} ]
      [] (CkObject [("7", "old")]) in
  Forall (fun kv => decimal_key (fst kv) = true) (Gemini.task_results_at_end r)
  /\ exists out, Gemini.output r = Some out.
Proof.
  cbv zeta. destruct checkpoint_keys_decimal as [_ [H _]].
  apply H; [reflexivity |].
  simpl. constructor; [reflexivity | constructor].
Defined.

(** ** Resuming on a complete checkpoint *)

(** When the checkpoint has a key for every item with an ID, a direct run
    makes no request, saves nothing and returns the loaded mapping in the
    order of the checkpoint file: the final sort is not reached. *)
Lemma gemini_resume_complete (cfg : Gemini.config) (fs : FileSystem)
    (model : Gemini.item -> nat -> Gemini.attempt_outcome)
    (completion : list Gemini.item -> list Gemini.item) (task_num : nat)
    (image_only_items image_text_items : list Gemini.item)
    (checkpoint : checkpoint_file) :
  (forall it n,
      In it (if 6 <=? task_num then image_text_items else image_only_items) ->
      Gemini.get_image_id_from_path (Gemini.image_path it) = Some n ->
      In (Py.str n) (od_keys (load_checkpoint checkpoint))) ->
  let r :=
    Gemini.run_task_for_language_gemini cfg fs model completion task_num
      image_only_items image_text_items checkpoint in
  Gemini.log r = [] /\ Gemini.output r = Some (load_checkpoint checkpoint).
Proof.
  intros Hall r. unfold r, Gemini.run_task_for_language_gemini.
  set (items := if 6 <=? task_num then image_text_items else image_only_items)
    in *.
  replace (Gemini.remaining_items items (od_keys (load_checkpoint checkpoint)))
    with (@nil Gemini.item); [now split |].
  symmetry. unfold Gemini.remaining_items.
  induction items as [| it rest IH]; [reflexivity |].
  cbn [List.filter].
  rewrite <- IH by (intros x n Hx; apply Hall; now right).
  destruct (Gemini.get_image_id_from_path (Gemini.image_path it)) as [n |] eqn:E;
    [| reflexivity].
  assert (Hin : str_in (Py.str n) (od_keys (load_checkpoint checkpoint)) = true).
  { apply str_in_spec. apply (Hall it n); [now left | exact E]. }
  now rewrite Hin.
Qed.

(** C1 (the code at the failing input). Two images; the first run starts
    without a checkpoint and its results arrive for image 2, then image 1.
    It saves the checkpoint in arrival order and returns the sorted
    mapping. The second run loads that checkpoint, makes no request, and
    returns the mapping in the order of the checkpoint, which is not the
    order of the first output. The same happens in batch mode when the
    output file lists image 2 before image 1. *)
Theorem resumed_run_output_order :
  let fs := {| fs_isdir := fun _ => true; fs_listdir := fun _ => [];
               fs_exists := fun _ => false; fs_encodes := fun _ => true;
               fs_read_utf8 := fun _ => ReadOtherError;
               fs_read_latin1 := fun _ => ReadOtherError |} in
  (let items :=
     [ {| Gemini.image_path := "data/image1.jpg"; Gemini.text_path := None |};
       {| Gemini.image_path := "data/image2.jpg"; Gemini.text_path := None |} ]
   in
   let run := Gemini.run_task_for_language_gemini Gemini.BASE_CONFIG fs
                (fun it _ => Gemini.Text (Gemini.image_path it))
                (@List.rev Gemini.item) 1 items [] in
   let first := run CkAbsent in
   let saved := [("2", "data/image2.jpg"); ("1", "data/image1.jpg")] in
   let second := run (CkObject saved) in
   last_save (Gemini.log first) = Some saved
   /\ Gemini.output first
      = Some [("1", "data/image1.jpg"); ("2", "data/image2.jpg")]
   /\ requests (Gemini.log second) = 0
   /\ Gemini.output second = Some saved
   /\ Gemini.output second <> Gemini.output first)
  /\ (let run := Batch.process_task_for_language_batch Batch.BASE_CONFIG fs
                   (fun _ => 0%N) (fun _ => Some "file-1")
                   (fun _ _ =>
                      Batch.Completed
                        (Some (Some [Batch.Line "img_2_0" (Batch.Content "two");
                                     Batch.Line "img_1_0" (Batch.Content "one")])))
                   1 ["data/image1.jpg"; "data/image2.jpg"] [] in
      let first := run CkAbsent in
      let saved := [("2", "two"); ("1", "one")] in
      let second := run (CkObject saved) in
      last_save (Batch.log first) = Some saved
      /\ Batch.output first = Some [("1", "one"); ("2", "two")]
      /\ requests (Batch.log second) = 0
      /\ Batch.output second = Some saved
      /\ Batch.output second <> Batch.output first).
Proof.
  cbv zeta. split; repeat split; try (vm_compute; reflexivity);
    vm_compute; discriminate.
Qed.

(** The batch counterpart: no submission, and the loaded mapping returned
    as it is. *)
Lemma batch_resume_complete (cfg : Batch.config) (fs : FileSystem)
    (clock : string -> N) (upload : nat -> option string)
    (job : nat -> nat -> Batch.job_outcome) (task_num : nat)
    (all_images : list string) (image_text_pairs : list (string * string))
    (checkpoint : checkpoint_file) :
  (forall p n,
      In p (if 6 <=? task_num then map fst image_text_pairs else all_images) ->
      Batch.get_image_id (Path.basename p) = Some n ->
      In (Py.str n) (od_keys (load_checkpoint checkpoint))) ->
  let r :=
    Batch.process_task_for_language_batch cfg fs clock upload job task_num
      all_images image_text_pairs checkpoint in
  Batch.log r = [] /\ Batch.output r = Some (load_checkpoint checkpoint).
Proof.
  intros Hall r. unfold r, Batch.process_task_for_language_batch.
  assert (Hnp : forall p,
             In p (if 6 <=? task_num then map fst image_text_pairs
                   else all_images) ->
             Batch.not_processed (od_keys (load_checkpoint checkpoint)) p
             = false).
  { intros p Hp. unfold Batch.not_processed.
    destruct (Batch.get_image_id (Path.basename p)) as [n |] eqn:E;
      [| reflexivity].
    assert (Hin : str_in (Py.str n) (od_keys (load_checkpoint checkpoint))
                  = true)
      by (apply str_in_spec; now apply (Hall p n)).
    now rewrite Hin. }
  destruct (6 <=? task_num).
  - replace (Batch.get_remaining_image_text_pairs image_text_pairs
               (od_keys (load_checkpoint checkpoint)))
      with (@nil (string * string)); [now split |].
    symmetry. unfold Batch.get_remaining_image_text_pairs.
    induction image_text_pairs as [| pr rest IH]; [reflexivity |].
    cbn [List.filter]. rewrite (Hnp (fst pr)) by now left.
    apply IH.
    + intros p n Hp. apply Hall. now right.
    + intros p Hp. apply Hnp. now right.
  - replace (Batch.get_remaining_images all_images
               (od_keys (load_checkpoint checkpoint)))
      with (@nil string); [now split |].
    symmetry. unfold Batch.get_remaining_images.
    induction all_images as [| p rest IH]; [reflexivity |].
    cbn [List.filter]. rewrite (Hnp p) by now left.
    apply IH.
    + intros q n Hq. apply Hall. now right.
    + intros q Hq. apply Hnp. now right.
Qed.

(** ** Local input errors *)

Lemma gemini_process_encoding_failure (cfg : Gemini.config) (fs : FileSystem)
    (model : Gemini.item -> nat -> Gemini.attempt_outcome)
    (it : Gemini.item) (n : N) :
  Gemini.get_image_id_from_path (Gemini.image_path it) = Some n ->
  fs_encodes fs (Gemini.image_path it) = false ->
  Gemini.process_single_item_gemini cfg fs model it
  = (Py.str n, "Error: Image encoding failed", []).
Proof.
  intros Hid Henc. unfold Gemini.process_single_item_gemini.
  now rewrite Hid, Henc.
Qed.

Lemma gemini_process_text_failure (cfg : Gemini.config) (fs : FileSystem)
    (model : Gemini.item -> nat -> Gemini.attempt_outcome)
    (it : Gemini.item) (n : N) (tp : string) :
  Gemini.get_image_id_from_path (Gemini.image_path it) = Some n ->
  fs_encodes fs (Gemini.image_path it) = true ->
  Gemini.text_path it = Some tp -> tp <> EmptyString ->
  read_text_file fs tp = None ->
  Gemini.process_single_item_gemini cfg fs model it
  = (Py.str n, "Error: Could not read text file", []).
Proof.
  intros Hid Henc Htp Hne Hread. unfold Gemini.process_single_item_gemini.
  rewrite Hid, Henc, Htp. cbn [negb].
  destruct tp as [| c t]; [congruence |].
  unfold Gemini.text_unreadable. now rewrite Hread.
Qed.

Lemma gemini_run_saved (cfg : Gemini.config) (fs : FileSystem)
    (model : Gemini.item -> nat -> Gemini.attempt_outcome)
    (completion : list Gemini.item -> list Gemini.item) (task_num : nat)
    (image_only_items image_text_items : list Gemini.item)
    (checkpoint : checkpoint_file) :
  let r :=
    Gemini.run_task_for_language_gemini cfg fs model completion task_num
      image_only_items image_text_items checkpoint in
  Gemini.remaining_items
    (if 6 <=? task_num then image_text_items else image_only_items)
    (od_keys (load_checkpoint checkpoint)) <> [] ->
  last_save (Gemini.log r) = Some (Gemini.task_results_at_end r).
Proof.
  intros r. unfold r, Gemini.run_task_for_language_gemini.
  destruct (Gemini.remaining_items _ _) as [| x l]; [congruence |].
  intros _. destruct (fold_left _ _ _) as [tr lg].
  cbn [Gemini.log Gemini.task_results_at_end]. apply last_save_app_save.
Qed.

(** ** Items skipped when a batch file is prepared *)

Lemma custom_id_of_inj (prefix : string) (n n' t t' : N) :
  Batch.custom_id_of prefix n t = Batch.custom_id_of prefix n' t' -> n = n'.
Proof.
  unfold Batch.custom_id_of. intro H. apply sapp_inv_head in H.
  cbn [append] in H. injection H as H.
  apply digits_split in H as [H _]; try apply str_digits.
  now apply str_inj.
Qed.

Section SkippedItems.
Variable fs : FileSystem.
Variable clock : string -> N.

Lemma image_only_step_lines (l : list string)
    (acc : Batch.batch_file * Batch.id_map) :
  fst (fold_left (Batch.prepare_image_only_step fs clock) l acc)
  = fst acc ++ flat_map (image_line fs clock) l.
Proof.
  revert acc. induction l as [| p r IH]; intros [bl m];
    cbn [fold_left flat_map fst]; [now rewrite app_nil_r |].
  rewrite IH. unfold image_line at 2. cbn [Batch.prepare_image_only_step].
  destruct (Batch.get_image_id (Path.basename p)) as [k |]; [| reflexivity].
  destruct (fs_encodes fs p); cbn [negb fst app];
    now rewrite <- ?app_assoc.
Qed.

Lemma image_text_step_lines (l : list (string * string))
    (acc : Batch.batch_file * Batch.id_map) :
  fst (fold_left (Batch.prepare_image_text_step fs clock) l acc)
  = fst acc ++ flat_map (pair_line fs clock) l.
Proof.
  revert acc. induction l as [| [p t] r IH]; intros [bl m];
    cbn [fold_left flat_map fst]; [now rewrite app_nil_r |].
  rewrite IH. unfold pair_line at 2. cbn [Batch.prepare_image_text_step fst snd].
  destruct (Batch.get_image_id (Path.basename p)) as [k |]; [| reflexivity].
  destruct (fs_encodes fs p); cbn [negb fst app]; [| reflexivity].
  destruct (read_text_file fs t); cbn [fst app]; now rewrite <- ?app_assoc.
Qed.

Lemma image_only_lines (paths : list string) :
  option_map fst (Batch.prepare_batch_file_image_only fs clock paths)
  = match flat_map (image_line fs clock) paths with
    | [] => None
    | lines => Some lines
    end.
Proof.
  unfold Batch.prepare_batch_file_image_only.
  pose proof (image_only_step_lines paths ([], [])) as H.
  destruct (fold_left _ paths _) as [bl m]. cbn [fst app] in H. subst bl.
  now destruct (flat_map (image_line fs clock) paths).
Qed.

Lemma image_text_lines (pairs : list (string * string)) :
  option_map fst (Batch.prepare_batch_file_image_text fs clock pairs)
  = match flat_map (pair_line fs clock) pairs with
    | [] => None
    | lines => Some lines
    end.
Proof.
  unfold Batch.prepare_batch_file_image_text.
  pose proof (image_text_step_lines pairs ([], [])) as H.
  destruct (fold_left _ pairs _) as [bl m]. cbn [fst app] in H. subst bl.
  now destruct (flat_map (pair_line fs clock) pairs).
Qed.

Lemma image_only_named (paths : list string)
    (lines : Batch.batch_file) (m : Batch.id_map) :
  Batch.prepare_batch_file_image_only fs clock paths = Some (lines, m) ->
  id_map_named "img" clock m.
Proof.
  unfold Batch.prepare_batch_file_image_only.
  assert (H : forall l acc,
             id_map_named "img" clock (snd acc) ->
             id_map_named "img" clock
               (snd (fold_left (Batch.prepare_image_only_step fs clock)
                       l acc))).
  { induction l as [| p r IH]; intros [bl m0] H0; [exact H0 |].
    cbn [fold_left]. apply IH. cbn [Batch.prepare_image_only_step].
    destruct (Batch.get_image_id (Path.basename p)) as [k |]; [| exact H0].
    assert (Hm : id_map_named "img" clock
                   (od_set (Batch.custom_id_of "img" k (clock p)) (p, k) m0)).
    { intros cid q n Hin. apply in_od_set in Hin as [E | Hin];
        [now injection E as -> -> -> | now apply H0]. }
    now destruct (negb (fs_encodes fs p)). }
  specialize (H paths ([], [])).
  destruct (fold_left _ paths _) as [bl m0]. cbn [snd] in H.
  destruct bl; [discriminate |]. intro E. injection E as _ <-.
  apply H. intros cid q n [].
Qed.

Lemma image_text_named (pairs : list (string * string))
    (lines : Batch.batch_file) (m : Batch.id_map) :
  Batch.prepare_batch_file_image_text fs clock pairs = Some (lines, m) ->
  id_map_named "pair" clock m.
Proof.
  unfold Batch.prepare_batch_file_image_text.
  assert (H : forall l acc,
             id_map_named "pair" clock (snd acc) ->
             id_map_named "pair" clock
               (snd (fold_left (Batch.prepare_image_text_step fs clock)
                       l acc))).
  { induction l as [| [p t] r IH]; intros [bl m0] H0; [exact H0 |].
    cbn [fold_left]. apply IH. cbn [Batch.prepare_image_text_step].
    destruct (Batch.get_image_id (Path.basename p)) as [k |]; [| exact H0].
    assert (Hm : id_map_named "pair" clock
                   (od_set (Batch.custom_id_of "pair" k (clock p)) (p, k)
                      m0)).
    { intros cid q n Hin. apply in_od_set in Hin as [E | Hin];
        [now injection E as -> -> -> | now apply H0]. }
    destruct (negb (fs_encodes fs p)); [exact Hm |].
    now destruct (read_text_file fs t). }
  specialize (H pairs ([], [])).
  destruct (fold_left _ pairs _) as [bl m0]. cbn [snd] in H.
  destruct bl; [discriminate |]. intro E. injection E as _ <-.
  apply H. intros cid q n [].
Qed.
End SkippedItems.

(** The keys a result file adds: each comes from a line whose
    correlation ID the ID map knows. *)
Lemma process_lines_sources (m : Batch.id_map)
    (lines : list Batch.result_line) (acc : odict) (k : string) :
  In k (od_keys (fold_left (Batch.process_result_line m) lines acc)) ->
  In k (od_keys acc)
  \/ exists cid payload q n,
       In (Batch.Line cid payload) lines
       /\ od_get cid m = Some (q, n) /\ k = Py.str n.
Proof.
  revert acc. induction lines as [| l r IH]; intros acc H; [now left |].
  cbn [fold_left] in H. apply IH in H as [H | (cid & pl & q & n & Hin & Hm & E)].
  - destruct l as [| cid payload]; [now left |].
    cbn [Batch.process_result_line] in H.
    destruct (od_get cid m) as [[q n] |] eqn:Em; [| now left].
    apply od_keys_set in H as [-> | H]; [| now left].
    right. exists cid, payload, q, n. repeat split; [now left | exact Em].
  - right. exists cid, pl, q, n. repeat split; [now right | exact Hm | exact E].
Qed.

Section BatchSkippedRun.
Variable cfg : Batch.config.
Variable upload : nat -> option string.
Variable job : nat -> nat -> Batch.job_outcome.
Context {A : Type}.
Variable prepare : list A -> option (Batch.batch_file * Batch.id_map).
(** the request lines written in the run, and the ID of a skipped item *)
Variable written : list string.
Variable n : N.
Hypothesis answers_written :
  forall i a out cid payload,
    job i a = Batch.Completed (Some (Some out)) ->
    In (Batch.Line cid payload) out -> In cid written.
Hypothesis not_written :
  forall chunk lines m cid q,
    prepare chunk = Some (lines, m) ->
    od_get cid m = Some (q, n) -> ~ In cid written.

Lemma process_chunks_skipped (items : list A) (st : Batch.state) :
  od_get (Py.str n) (fst st) = None ->
  od_get (Py.str n)
    (fst (Batch.process_chunks cfg upload job prepare items st)) = None.
Proof.
  unfold Batch.process_chunks.
  generalize (Batch.chunk_starts cfg (List.length items)). intro starts.
  revert st. induction starts as [| i r IH]; intros st H; [exact H |].
  cbn [fold_left]. apply IH. unfold Batch.process_chunk.
  destruct (prepare _) as [[lines m] |] eqn:Ep; [| exact H].
  destruct m as [| e m']; [exact H |].
  destruct (upload i) as [[| c s] |]; try exact H.
  destruct (retry_loop_trace cfg job i (String c s, lines) (e :: m') 0 st)
    as (k & new & _ & _ & _ & _ & Hend); [lia |].
  destruct (snd (Batch.retry_loop cfg job i _ _ 0 st)).
  2:{ destruct Hend as [_ [E _]]. now rewrite E. }
  destruct Hend as (content & _ & Hjob & E). rewrite E.
  rewrite od_update_frame; [exact H |].
  intros kv Hkv Ek.
  assert (Hk : In (Py.str n)
                 (od_keys (Batch.process_batch_results content (e :: m')))).
  { rewrite <- Ek. unfold od_keys. now apply in_map. }
  destruct content as [out |]; [| destruct Hk].
  apply process_lines_sources in Hk as [[] | (cid & pl & q & n' & Hin & Hm & En)].
  apply str_inj in En. subst n'.
  apply (not_written _ _ _ _ _ Ep Hm).
  exact (answers_written _ _ _ _ _ Hjob Hin).
Qed.

Lemma finish_skipped (items : list A) (loaded : odict) :
  od_get (Py.str n) loaded = None ->
  od_get (Py.str n)
    (Batch.task_results_at_end
       (Batch.finish cfg upload job prepare items loaded)) = None.
Proof.
  intro H. unfold Batch.finish. destruct items as [| x r]; [exact H |].
  cbn [Batch.task_results_at_end]. now apply process_chunks_skipped.
Qed.
End BatchSkippedRun.

Lemma image_line_skipped (fs : FileSystem) (clock : string -> N)
    (remaining : list string) (n : N) (cid q : string) :
  (forall p, In p remaining ->
             Batch.get_image_id (Path.basename p) = Some n ->
             fs_encodes fs p = false) ->
  cid = Batch.custom_id_of "img" n (clock q) ->
  ~ In cid (flat_map (image_line fs clock) remaining).
Proof.
  intros Hfail -> Hin. apply in_flat_map in Hin as [p [Hp Hin]].
  unfold image_line in Hin.
  destruct (Batch.get_image_id (Path.basename p)) as [k |] eqn:Ek;
    [| destruct Hin].
  destruct (fs_encodes fs p) eqn:Ee; [| destruct Hin].
  destruct Hin as [E | []]. apply custom_id_of_inj in E. subst k.
  rewrite (Hfail p Hp Ek) in Ee. discriminate.
Qed.

Lemma pair_line_skipped (fs : FileSystem) (clock : string -> N)
    (remaining : list (string * string)) (n : N) (cid q : string) :
  (forall pr, In pr remaining ->
              Batch.get_image_id (Path.basename (fst pr)) = Some n ->
              fs_encodes fs (fst pr) = false
              \/ read_text_file fs (snd pr) = None) ->
  cid = Batch.custom_id_of "pair" n (clock q) ->
  ~ In cid (flat_map (pair_line fs clock) remaining).
Proof.
  intros Hfail -> Hin. apply in_flat_map in Hin as [pr [Hp Hin]].
  unfold pair_line in Hin.
  destruct (Batch.get_image_id (Path.basename (fst pr))) as [k |] eqn:Ek;
    [| destruct Hin].
  destruct (fs_encodes fs (fst pr)) eqn:Ee; [| destruct Hin].
  destruct (read_text_file fs (snd pr)) eqn:Er; [| destruct Hin].
  destruct Hin as [E | []]. apply custom_id_of_inj in E. subst k.
  destruct (Hfail pr Hp Ek); congruence.
Qed.

(** C8 (as amended). Direct mode: an item to process whose image cannot
    be encoded, or whose text cannot be read (utf-8, then latin-1 on a
    decoding error), gets its error string as its result without a model
    call; the mapping is saved at the end of the run; and every item to
    process whose ID no other item to process has ends with its own result
    under its key, the error string for a failing one, whatever happens to
    the others. Batch mode: such an item gets no request line when the
    chunk is prepared, the request lines of the chunk being those of the
    chunk without it; and when the output files answer request lines that
    were written only, and no item to process with the same ID gets a
    request line, nothing is recorded under its key in the run. *)
Theorem local_error_isolation :
  (forall cfg fs model it n,
      Gemini.get_image_id_from_path (Gemini.image_path it) = Some n ->
      (fs_encodes fs (Gemini.image_path it) = false ->
       Gemini.process_single_item_gemini cfg fs model it
       = (Py.str n, "Error: Image encoding failed", []))
      /\ (forall tp,
             fs_encodes fs (Gemini.image_path it) = true ->
             Gemini.text_path it = Some tp -> tp <> EmptyString ->
             read_text_file fs tp = None ->
             Gemini.process_single_item_gemini cfg fs model it
             = (Py.str n, "Error: Could not read text file", [])))
  /\ (forall cfg fs model completion task_num image_only_items
             image_text_items checkpoint,
         (forall l, Permutation (completion l) l) ->
         let remaining :=
           Gemini.remaining_items
             (if 6 <=? task_num then image_text_items else image_only_items)
             (od_keys (load_checkpoint checkpoint)) in
         let r :=
           Gemini.run_task_for_language_gemini cfg fs model completion
             task_num image_only_items image_text_items checkpoint in
         (remaining <> [] ->
          last_save (Gemini.log r) = Some (Gemini.task_results_at_end r))
         /\ forall it n,
             In it remaining ->
             Gemini.get_image_id_from_path (Gemini.image_path it) = Some n ->
             (forall o, In o remaining ->
                        Gemini.get_image_id_from_path (Gemini.image_path o)
                        = Some n ->
                        o = it) ->
             od_get (Py.str n) (Gemini.task_results_at_end r)
             = Some (snd (fst (Gemini.process_single_item_gemini
                                 cfg fs model it)))
             /\ (fs_encodes fs (Gemini.image_path it) = false ->
                 od_get (Py.str n) (Gemini.task_results_at_end r)
                 = Some "Error: Image encoding failed")
             /\ (forall tp,
                    fs_encodes fs (Gemini.image_path it) = true ->
                    Gemini.text_path it = Some tp -> tp <> EmptyString ->
                    read_text_file fs tp = None ->
                    od_get (Py.str n) (Gemini.task_results_at_end r)
                    = Some "Error: Could not read text file"))
  /\ (forall fs tp,
         read_text_file fs tp = None <->
         fs_read_utf8 fs tp = ReadOtherError
         \/ (fs_read_utf8 fs tp = ReadUnicodeDecodeError
             /\ forall s, fs_read_latin1 fs tp <> ReadOk s))
  /\ (forall fs clock acc img_path,
         fs_encodes fs img_path = false ->
         fst (Batch.prepare_image_only_step fs clock acc img_path) = fst acc)
  /\ (forall fs clock acc img_path text_path,
         fs_encodes fs img_path = false \/ read_text_file fs text_path = None ->
         fst (Batch.prepare_image_text_step fs clock acc (img_path, text_path))
         = fst acc)
  /\ (forall fs clock before img_path after,
         fs_encodes fs img_path = false ->
         option_map fst
           (Batch.prepare_batch_file_image_only fs clock
              (before ++ img_path :: after))
         = option_map fst
             (Batch.prepare_batch_file_image_only fs clock
                (before ++ after)))
  /\ (forall fs clock before img_path text_path after,
         fs_encodes fs img_path = false \/ read_text_file fs text_path = None ->
         option_map fst
           (Batch.prepare_batch_file_image_text fs clock
              (before ++ (img_path, text_path) :: after))
         = option_map fst
             (Batch.prepare_batch_file_image_text fs clock
                (before ++ after)))
  /\ (forall cfg fs clock upload job task_num all_images image_text_pairs
             checkpoint img_path n,
         let remaining :=
           Batch.get_remaining_images all_images
             (od_keys (load_checkpoint checkpoint)) in
         let r :=
           Batch.process_task_for_language_batch cfg fs clock upload job
             task_num all_images image_text_pairs checkpoint in
         (6 <=? task_num) = false ->
         In img_path remaining ->
         Batch.get_image_id (Path.basename img_path) = Some n ->
         (forall p, In p remaining ->
                    Batch.get_image_id (Path.basename p) = Some n ->
                    fs_encodes fs p = false) ->
         (forall i a out cid payload,
             job i a = Batch.Completed (Some (Some out)) ->
             In (Batch.Line cid payload) out ->
             In cid (flat_map (image_line fs clock) remaining)) ->
         od_get (Py.str n) (Batch.task_results_at_end r) = None)
  /\ (forall cfg fs clock upload job task_num all_images image_text_pairs
             checkpoint img_path text_path n,
         let remaining :=
           Batch.get_remaining_image_text_pairs image_text_pairs
             (od_keys (load_checkpoint checkpoint)) in
         let r :=
           Batch.process_task_for_language_batch cfg fs clock upload job
             task_num all_images image_text_pairs checkpoint in
         (6 <=? task_num) = true ->
         In (img_path, text_path) remaining ->
         Batch.get_image_id (Path.basename img_path) = Some n ->
         (forall pr, In pr remaining ->
                     Batch.get_image_id (Path.basename (fst pr)) = Some n ->
                     fs_encodes fs (fst pr) = false
                     \/ read_text_file fs (snd pr) = None) ->
         (forall i a out cid payload,
             job i a = Batch.Completed (Some (Some out)) ->
             In (Batch.Line cid payload) out ->
             In cid (flat_map (pair_line fs clock) remaining)) ->
         od_get (Py.str n) (Batch.task_results_at_end r) = None).
Proof.
  split; [| split; [| split; [| split; [| split; [| split; [| split;
    [| split]]]]]]].
  - intros cfg fs model it n Hid. split.
    + now apply gemini_process_encoding_failure.
    + intros tp. now apply gemini_process_text_failure.
  - intros cfg fs model completion task_num only pairs ck Hperm remaining r.
    split; [now apply gemini_run_saved |].
    intros it n Hin Hid Hown.
    assert (Hne : remaining <> []) by (intro E; rewrite E in Hin; exact Hin).
    assert (Hres : od_get (Py.str n) (Gemini.task_results_at_end r)
                   = Some (snd (fst (Gemini.process_single_item_gemini
                                       cfg fs model it)))).
    { destruct (gemini_run_results cfg fs model completion task_num only pairs
                  ck) as [E _].
      fold r in E. rewrite E. fold remaining.
      destruct remaining as [| x l] eqn:Er; [congruence |]. rewrite <- Er in *.
      apply gemini_loop_last_result.
      - eapply Permutation_in; [symmetry; apply Hperm | exact Hin].
      - exact Hid.
      - intros o Ho. apply (Permutation_in _ (Hperm remaining)) in Ho.
        unfold remaining in Ho.
        apply remaining_spec in Ho as [_ [m [Hm _]]]. congruence.
      - intros o Ho. apply Hown.
        now apply (Permutation_in _ (Hperm remaining)) in Ho. }
    split; [exact Hres |]. split.
    + intro Henc. rewrite Hres.
      now rewrite (gemini_process_encoding_failure cfg fs model it n Hid Henc).
    + intros tp Henc Htp Hnon Hread. rewrite Hres.
      now rewrite (gemini_process_text_failure cfg fs model it n tp
                     Hid Henc Htp Hnon Hread).
  - intros fs tp. unfold read_text_file.
    destruct (fs_read_utf8 fs tp); [| destruct (fs_read_latin1 fs tp) |].
    + split; [discriminate | intros [H | [H _]]; discriminate].
    + split; [discriminate |].
      intros [H | [_ H]]; [discriminate | now destruct (H content)].
    + split; [| reflexivity]. intros _. right. split; [reflexivity |].
      discriminate.
    + split; [| reflexivity]. intros _. right. split; [reflexivity |].
      discriminate.
    + split; [intros _; now left | reflexivity].
  - intros fs clock [bl im] p Henc. cbn [Batch.prepare_image_only_step].
    destruct (Batch.get_image_id (Path.basename p)); [| reflexivity].
    now rewrite Henc.
  - intros fs clock [bl im] p t H. cbn [Batch.prepare_image_text_step].
    destruct (Batch.get_image_id (Path.basename p)); [| reflexivity].
    destruct (fs_encodes fs p); [| reflexivity].
    destruct H as [H | H]; [discriminate |]. now rewrite H.
  - intros fs clock l1 p l2 Henc. rewrite !image_only_lines.
    rewrite !flat_map_app. cbn [flat_map]. unfold image_line at 2.
    rewrite Henc. now destruct (Batch.get_image_id (Path.basename p)).
  - intros fs clock l1 p t l2 H. rewrite !image_text_lines.
    rewrite !flat_map_app. cbn [flat_map]. unfold pair_line at 2.
    cbn [fst snd].
    destruct (Batch.get_image_id (Path.basename p)); [| reflexivity].
    destruct (fs_encodes fs p); [| reflexivity].
    destruct H as [H | H]; [discriminate |]. now rewrite H.
  - intros cfg fs clock upload job task_num all_images pairs ck p n
      remaining r Htask Hin Hid Hfail Hans.
    unfold r, Batch.process_task_for_language_batch. cbv zeta.
    rewrite Htask.
    apply (finish_skipped cfg upload job
             (Batch.prepare_batch_file_image_only fs clock)
             (flat_map (image_line fs clock) remaining) n).
    + exact Hans.
    + intros chunk lines m cid q Ep Hm.
      apply (image_line_skipped fs clock remaining n cid q Hfail).
      apply od_get_some_in in Hm.
      exact (image_only_named fs clock chunk lines m Ep cid q n Hm).
    + unfold remaining, Batch.get_remaining_images in Hin.
      apply filter_In in Hin as [_ Hnp].
      pose proof (not_processed_spec _ _ _ Hnp Hid) as Hnot.
      destruct (od_get (Py.str n) (load_checkpoint ck)) eqn:Eg;
        [| reflexivity].
      exfalso. apply Hnot. apply od_get_in_keys. congruence.
  - intros cfg fs clock upload job task_num all_images pairs ck p t n
      remaining r Htask Hin Hid Hfail Hans.
    unfold r, Batch.process_task_for_language_batch. cbv zeta.
    rewrite Htask.
    apply (finish_skipped cfg upload job
             (Batch.prepare_batch_file_image_text fs clock)
             (flat_map (pair_line fs clock) remaining) n).
    + exact Hans.
    + intros chunk lines m cid q Ep Hm.
      apply (pair_line_skipped fs clock remaining n cid q Hfail).
      apply od_get_some_in in Hm.
      exact (image_text_named fs clock chunk lines m Ep cid q n Hm).
    + unfold remaining, Batch.get_remaining_image_text_pairs in Hin.
      apply filter_In in Hin as [_ Hnp]. cbn [fst] in Hnp.
      pose proof (not_processed_spec _ _ _ Hnp Hid) as Hnot.
      destruct (od_get (Py.str n) (load_checkpoint ck)) eqn:Eg;
        [| reflexivity].
      exfalso. apply Hnot. apply od_get_in_keys. congruence.
Qed.

(** Witness for C8: three images, the third of which cannot be encoded;
    in direct mode key 3 holds the error string, in batch mode, the job
    answering the two request lines written, nothing is recorded under
    key 3. *)
Lemma local_error_isolation_witness :
  let fs := {| fs_isdir := fun _ => true; fs_listdir := fun _ => [];
               fs_exists := fun _ => false;
               fs_encodes := fun p => negb (String.eqb p "data/image3.jpg");
               fs_read_utf8 := fun _ => ReadOtherError;
               fs_read_latin1 := fun _ => ReadOtherError |} in
  od_get "3"
    (Gemini.task_results_at_end
       (Gemini.run_task_for_language_gemini Gemini.BASE_CONFIG fs
          (fun it _ => Gemini.Text (Gemini.image_path it)) (fun l => l) 1
          [ {| Gemini.image_path := "data/image1.jpg";
               Gemini.text_path := None |};
            {| Gemini.image_path := "data/image2.jpg";
               Gemini.text_path := None |};
            {| Gemini.image_path := "data/image3.jpg";
               Gemini.text_path := None |} ]
          [] CkAbsent))
  = Some "Error: Image encoding failed"
  /\ od_get "3"
       (Batch.task_results_at_end
          (Batch.process_task_for_language_batch Batch.BASE_CONFIG fs
             (fun _ => 0%N) (fun _ => Some "file-1")
             (fun _ _ =>
                Batch.Completed
                  (Some (Some [Batch.Line "img_1_0" (Batch.Content "one");
                               Batch.Line "img_2_0" (Batch.Content "two")])))
             1 ["data/image1.jpg"; "data/image2.jpg"; "data/image3.jpg"]
             [] CkAbsent))
     = None.
Proof.
  cbv zeta. split.
  - destruct local_error_isolation as [_ [H _]].
    refine (proj1 (proj2
              (proj2 (H Gemini.BASE_CONFIG _ _ (fun l => l) 1 _ [] CkAbsent
                        (fun l => Permutation_refl l))
                 {| Gemini.image_path := "data/image3.jpg";
                    Gemini.text_path := None |} 3%N _ _ _)) _);
      try reflexivity.
    + vm_compute. tauto.
    + intros o Ho Hid.
      destruct Ho as [<- | [<- | [<- | []]]];
        [vm_compute in Hid; discriminate Hid
        | vm_compute in Hid; discriminate Hid | reflexivity].
  - destruct local_error_isolation as [_ [_ [_ [_ [_ [_ [_ [H _]]]]]]]].
    apply (H Batch.BASE_CONFIG _ _ _ _ 1
             ["data/image1.jpg"; "data/image2.jpg"; "data/image3.jpg"] []
             CkAbsent "data/image3.jpg" 3%N); try reflexivity.
    + vm_compute. tauto.
    + intros p Hp Hid.
      destruct Hp as [<- | [<- | [<- | []]]];
        [vm_compute in Hid; discriminate Hid
        | vm_compute in Hid; discriminate Hid | reflexivity].
    + intros i a out cid payload Hjob Hin. injection Hjob as <-.
      destruct Hin as [E | [E | []]]; injection E as <- _; vm_compute; tauto.
Defined.

(** Counterexample to C8 as stated. Batch mode: the same three images,
    the job completing at once with results for images 1 and 2; nothing is
    recorded for image 3, which was to be processed. Direct mode: the two
    image files [image1.jpg], which cannot be encoded, and [img_1.png], as
    the loader returns them, share the key [1]; when [img_1.png] completes
    last its answer stands in place of the error string, and when
    [image1.jpg] completes last its error string stands in place of the
    answer. *)
Lemma local_error_isolation_counterexample :
  (let fs := {| fs_isdir := fun _ => true; fs_listdir := fun _ => [];
                fs_exists := fun _ => false;
                fs_encodes := fun p => negb (String.eqb p "data/image3.jpg");
                fs_read_utf8 := fun _ => ReadOtherError;
                fs_read_latin1 := fun _ => ReadOtherError |} in
   let all_images :=
     ["data/image1.jpg"; "data/image2.jpg"; "data/image3.jpg"] in
   let r :=
     Batch.process_task_for_language_batch Batch.BASE_CONFIG fs
       (fun _ => 0%N) (fun _ => Some "file-1")
       (fun _ _ =>
          Batch.Completed
            (Some (Some [Batch.Line "img_1_0" (Batch.Content "one");
                         Batch.Line "img_2_0" (Batch.Content "two")])))
       1 all_images [] CkAbsent in
   In "data/image3.jpg" (Batch.get_remaining_images all_images [])
   /\ Batch.task_results_at_end r = [("1", "one"); ("2", "two")]
   /\ od_get "3" (Batch.task_results_at_end r) = None
   /\ Batch.log r
      = [LogCall ("file-1", ["img_1_0"; "img_2_0"]) 0;
         LogSave [("1", "one"); ("2", "two")]])
  /\ (let fs := {| fs_isdir := fun _ => true;
                   fs_listdir := fun _ => ["image1.jpg"; "img_1.png"];
                   fs_exists := fun _ => false;
                   fs_encodes := fun p =>
                     negb (String.eqb p "data/image1.jpg");
                   fs_read_utf8 := fun _ => ReadOtherError;
                   fs_read_latin1 := fun _ => ReadOtherError |} in
      let failing := {| Gemini.image_path := "data/image1.jpg";
                        Gemini.text_path := None |} in
      let other := {| Gemini.image_path := "data/img_1.png";
                      Gemini.text_path := None |} in
      let run completion :=
        Gemini.run_task_for_language_gemini Gemini.BASE_CONFIG fs
          (fun it _ => Gemini.Text "a cat") completion 1
          (fst (Gemini.load_data_items fs "data"))
          (snd (Gemini.load_data_items fs "data")) CkAbsent in
      Gemini.load_data_items fs "data" = ([failing; other], [])
      /\ Gemini.task_results_at_end (run (fun l => l)) = [("1", "a cat")]
      /\ Gemini.output (run (fun l => l)) = Some [("1", "a cat")]
      /\ Gemini.task_results_at_end (run (fun l => rev l))
         = [("1", "Error: Image encoding failed")]
      /\ Gemini.output (run (fun l => rev l))
         = Some [("1", "Error: Image encoding failed")]).
Proof.
  split; cbv zeta.
  - repeat split; try (vm_compute; reflexivity).
    vm_compute. right. right. left. reflexivity.
  - repeat split; vm_compute; reflexivity.
Qed.

(** * Further properties of the code *)

(** ** Direct mode: cost of a request, of an item and of a run *)

Lemma attempt_loop_shape (respond : nat -> Gemini.attempt_outcome)
    (R delay : nat) (left : nat) :
  forall a,
    a + left = R -> 0 < left ->
    exists k,
      k < left
      /\ snd (Gemini.attempt_loop respond R delay left a)
         = failed_attempts delay a k ++ [Gemini.EvCall (a + k)].
Proof.
  induction left as [| left IH]; intros a HR Hpos; [lia |].
  cbn [Gemini.attempt_loop].
  destruct (respond a) as [e | t | reason].
  - destruct (a <? R - 1) eqn:Hlt.
    + apply Nat.ltb_lt in Hlt.
      destruct (IH (S a)) as [k [Hk E]]; [lia | lia |].
      destruct (Gemini.attempt_loop respond R delay left (S a)) as [r evs].
      cbn [snd] in *. exists (S k). split; [lia |].
      rewrite E. cbn [failed_attempts app].
      now replace (a + S k) with (S a + k) by lia.
    + exists 0. split; [lia |]. now rewrite Nat.add_0_r.
  - exists 0. split; [lia |]. now rewrite Nat.add_0_r.
  - exists 0. split; [lia |]. now rewrite Nat.add_0_r.
Qed.

Lemma failed_attempts_counts (delay a k : nat) :
  event_calls (failed_attempts delay a k) = k
  /\ event_sleep (failed_attempts delay a k) = delay * (2 ^ (a + k) - 2 ^ a).
Proof.
  revert a. induction k as [| k IH]; intro a.
  - rewrite Nat.add_0_r. cbn. split; [reflexivity | lia].
  - destruct (IH (S a)) as [Hc Hs].
    unfold event_calls, event_sleep in *. cbn [failed_attempts].
    cbn [List.filter List.length fold_right]. split; [now rewrite Hc |].
    rewrite Hs. replace (a + S k) with (S a + k) by lia.
    assert (H1 : 2 ^ S a <= 2 ^ (S a + k)) by (apply Nat.pow_le_mono_r; lia).
    assert (H2 : 2 ^ S a = 2 * 2 ^ a) by (cbn; lia).
    nia.
Qed.

Lemma event_calls_app (l1 l2 : list Gemini.event) :
  event_calls (l1 ++ l2) = event_calls l1 + event_calls l2.
Proof.
  unfold event_calls. now rewrite List.filter_app, List.length_app.
Qed.

Lemma event_sleep_app (l1 l2 : list Gemini.event) :
  event_sleep (l1 ++ l2) = event_sleep l1 + event_sleep l2.
Proof.
  unfold event_sleep. induction l1 as [| e r IH]; simpl; [reflexivity |].
  destruct e; lia.
Qed.

Lemma response_calls_le (respond : nat -> Gemini.attempt_outcome)
    (R delay : nat) :
  event_calls (snd (Gemini.generate_gemini_response respond R delay)) <= R.
Proof.
  unfold Gemini.generate_gemini_response. destruct R as [| R']; [cbn; lia |].
  destruct (attempt_loop_shape respond (S R') delay (S R') 0)
    as [k [Hk E]]; [reflexivity | lia |].
  rewrite E, event_calls_app.
  destruct (failed_attempts_counts delay 0 k) as [-> _].
  unfold event_calls. cbn [List.filter List.length]. cbn. lia.
Qed.

(** X1. Whatever the model does, a request makes its attempts in a row
    from attempt 0, sleeps only between two attempts, never makes more
    than [R] calls and never sleeps more than [delay * (2 ^ (R - 1) - 1)]
    seconds in all. *)
Theorem request_cost_bounded (respond : nat -> Gemini.attempt_outcome)
    (R delay : nat) :
  let evs := snd (Gemini.generate_gemini_response respond R delay) in
  ((R = 0 /\ evs = [])
   \/ exists k,
       k < R /\ evs = failed_attempts delay 0 k ++ [Gemini.EvCall k])
  /\ event_calls evs <= R
  /\ event_sleep evs <= delay * (2 ^ (R - 1) - 1).
Proof.
  intro evs. unfold evs, Gemini.generate_gemini_response.
  destruct R as [| R'].
  - cbn. split; [left; now split | split; lia].
  - destruct (attempt_loop_shape respond (S R') delay (S R') 0)
      as [k [Hk E]]; [reflexivity | lia |].
    rewrite E. cbn [Nat.add].
    split; [right; exists k; now split |].
    rewrite event_calls_app, event_sleep_app.
    destruct (failed_attempts_counts delay 0 k) as [-> ->].
    cbn [Nat.add]. unfold event_calls, event_sleep.
    cbn [List.filter List.length fold_right].
    split; [lia |].
    replace (S R' - 1) with R' by lia.
    assert (H : 2 ^ k <= 2 ^ R') by (apply Nat.pow_le_mono_r; lia).
    cbn [Nat.pow]. nia.
Qed.

Lemma requests_app {I : Type} (l1 l2 : list (log_entry I)) :
  requests (l1 ++ l2) = requests l1 + requests l2.
Proof.
  unfold requests. now rewrite List.filter_app, List.length_app.
Qed.

Lemma requests_log_of (it : Gemini.item) (evs : list Gemini.event) :
  requests (Gemini.log_of it evs) = event_calls evs.
Proof.
  unfold requests, event_calls, Gemini.log_of.
  induction evs as [| e r IH]; [reflexivity |].
  destruct e; cbn [map List.filter is_call List.length]; now rewrite ?IH.
Qed.

(** X2. One item: its key is the string of its ID (the file name when it
    has none); it costs at most [retry_attempts] model calls, all logged
    under that item; and when it has no ID, its image cannot be encoded or
    its text cannot be read, it costs no call at all and its result is an
    error string. *)
Theorem item_cost_and_key (cfg : Gemini.config) (fs : FileSystem)
    (model : Gemini.item -> nat -> Gemini.attempt_outcome) (it : Gemini.item) :
  let res := Gemini.process_single_item_gemini cfg fs model it in
  fst (fst res)
  = match Gemini.get_image_id_from_path (Gemini.image_path it) with
    | Some n => Py.str n
    | None => Path.basename (Gemini.image_path it)
    end
  /\ requests (snd res) <= Gemini.retry_attempts cfg
  /\ (forall e, In e (snd res) ->
                match e with
                | LogCall x _ => x = it
                | LogSleep _ => True
                | LogSave _ => False
                end)
  /\ (Gemini.get_image_id_from_path (Gemini.image_path it) = None
      \/ fs_encodes fs (Gemini.image_path it) = false
      \/ Gemini.text_unreadable fs (Gemini.text_path it) = true ->
      snd res = [] /\ starts_with_error (snd (fst res))).
Proof.
  intro res. unfold res, Gemini.process_single_item_gemini.
  destruct (Gemini.get_image_id_from_path (Gemini.image_path it)) as [n |].
  2: { cbn. repeat split; try lia; tauto. }
  destruct (fs_encodes fs (Gemini.image_path it)); cbn [negb].
  2: { cbn. repeat split; try lia; tauto. }
  destruct (Gemini.text_unreadable fs (Gemini.text_path it)).
  { cbn. repeat split; try lia; tauto. }
  pose proof (response_calls_le (model it) (Gemini.retry_attempts cfg)
                (Gemini.retry_delay cfg)) as Hc.
  destruct (Gemini.generate_gemini_response _ _ _) as [r evs].
  cbn [fst snd] in *. split; [reflexivity |]. split; [| split].
  - now rewrite requests_log_of.
  - intros e He. unfold Gemini.log_of in He.
    apply in_map_iff in He as [ev [<- _]]. now destruct ev.
  - intros [H | [H | H]]; discriminate.
Qed.

Lemma item_requests_le (cfg : Gemini.config) (fs : FileSystem)
    (model : Gemini.item -> nat -> Gemini.attempt_outcome)
    (it : Gemini.item) :
  requests (snd (Gemini.process_single_item_gemini cfg fs model it))
  <= Gemini.retry_attempts cfg.
Proof.
  unfold Gemini.process_single_item_gemini.
  destruct (Gemini.get_image_id_from_path (Gemini.image_path it)) as [n |];
    [| cbn; lia].
  destruct (fs_encodes fs (Gemini.image_path it)); cbn [negb];
    [| cbn; lia].
  destruct (Gemini.text_unreadable fs (Gemini.text_path it)); [cbn; lia |].
  pose proof (response_calls_le (model it) (Gemini.retry_attempts cfg)
                (Gemini.retry_delay cfg)) as Hc.
  destruct (Gemini.generate_gemini_response _ _ _) as [r evs].
  cbn [fst snd] in *. now rewrite requests_log_of.
Qed.

Lemma item_log_entries (cfg : Gemini.config) (fs : FileSystem)
    (model : Gemini.item -> nat -> Gemini.attempt_outcome)
    (it : Gemini.item) (e : log_entry Gemini.item) :
  In e (snd (Gemini.process_single_item_gemini cfg fs model it)) ->
  match e with
  | LogCall x _ => x = it
  | LogSleep _ => True
  | LogSave _ => False
  end.
Proof.
  unfold Gemini.process_single_item_gemini.
  destruct (Gemini.get_image_id_from_path (Gemini.image_path it)) as [n |];
    [| intros []].
  destruct (fs_encodes fs (Gemini.image_path it)); cbn [negb];
    [| intros []].
  destruct (Gemini.text_unreadable fs (Gemini.text_path it)); [intros [] |].
  destruct (Gemini.generate_gemini_response _ _ _) as [r evs].
  cbn [snd]. unfold Gemini.log_of. intro He.
  apply in_map_iff in He as [ev [<- _]]. now destruct ev.
Qed.

Section GeminiRunCost.
Variable cfg : Gemini.config.
Variable fs : FileSystem.
Variable model : Gemini.item -> nat -> Gemini.attempt_outcome.

Lemma merge_result_requests (st : odict * list (log_entry Gemini.item))
    (it : Gemini.item) :
  requests (snd (Gemini.merge_result cfg fs model st it))
  <= requests (snd st) + Gemini.retry_attempts cfg.
Proof.
  pose proof (item_requests_le cfg fs model it) as Hc.
  unfold Gemini.merge_result. destruct st as [tr lg].
  destruct (Gemini.process_single_item_gemini cfg fs model it) as [[k v] evs].
  cbn [fst snd] in *.
  destruct (_ =? 0); cbn [snd]; rewrite ?requests_app; cbn; lia.
Qed.

Lemma fold_merge_requests (order : list Gemini.item)
    (st : odict * list (log_entry Gemini.item)) :
  requests (snd (fold_left (Gemini.merge_result cfg fs model) order st))
  <= requests (snd st) + List.length order * Gemini.retry_attempts cfg.
Proof.
  revert st. induction order as [| it r IH]; intro st; cbn [fold_left].
  - cbn. lia.
  - etransitivity; [apply IH |].
    pose proof (merge_result_requests st it). cbn [List.length]. lia.
Qed.
End GeminiRunCost.

(** X3. A direct run makes at most [retry_attempts] model calls for each
    item it has to process, and none when nothing is left to process. *)
Theorem gemini_run_cost_bounded (cfg : Gemini.config) (fs : FileSystem)
    (model : Gemini.item -> nat -> Gemini.attempt_outcome)
    (completion : list Gemini.item -> list Gemini.item) (task_num : nat)
    (image_only_items image_text_items : list Gemini.item)
    (checkpoint : checkpoint_file) :
  (forall l, Permutation (completion l) l) ->
  let remaining :=
    Gemini.remaining_items
      (if 6 <=? task_num then image_text_items else image_only_items)
      (od_keys (load_checkpoint checkpoint)) in
  requests
    (Gemini.log
       (Gemini.run_task_for_language_gemini cfg fs model completion task_num
          image_only_items image_text_items checkpoint))
  <= List.length remaining * Gemini.retry_attempts cfg.
Proof.
  intros Hperm remaining. unfold Gemini.run_task_for_language_gemini.
  fold remaining. destruct remaining as [| x l] eqn:E; [cbn; lia |].
  rewrite <- E.
  pose proof (fold_merge_requests cfg fs model (completion remaining)
                (load_checkpoint checkpoint, [])) as H.
  destruct (fold_left _ (completion remaining) _) as [tr lg].
  cbn [Gemini.log snd] in *. rewrite requests_app.
  rewrite (Permutation_length (Hperm remaining)) in H.
  cbn in *. lia.
Qed.

(** Witness for X3: two images to process, three attempts each at most. *)
Lemma gemini_run_cost_bounded_witness :
  requests
    (Gemini.log
       (Gemini.run_task_for_language_gemini Gemini.BASE_CONFIG
          {| fs_isdir := fun _ => true; fs_listdir := fun _ => [];
             fs_exists := fun _ => false; fs_encodes := fun _ => true;
             fs_read_utf8 := fun _ => ReadOtherError;
             fs_read_latin1 := fun _ => ReadOtherError |}
          (fun _ _ => Gemini.Raises "unavailable") (fun l => l) 1
          [ {| Gemini.image_path := "data/image1.jpg";
               Gemini.text_path := None |};
            {| Gemini.image_path := "data/image2.jpg";
               Gemini.text_path := None |} ]
          [] CkAbsent))
  <= 2 * 3.
Proof.
  exact (gemini_run_cost_bounded Gemini.BASE_CONFIG _ _ (fun l => l) 1 _ []
           CkAbsent (fun l => Permutation_refl l)).
Defined.

Lemma od_update_keys_new (new d : odict) (k : string) :
  In k (map fst new) -> In k (od_keys (od_update d new)).
Proof.
  revert d. induction new as [| [k0 v0] r IH]; intros d H; [destruct H |].
  change (od_update d ((k0, v0) :: r)) with (od_update (od_set k0 v0 d) r).
  destruct H as [<- | H]; [| now apply IH].
  apply od_update_keys_mono, od_keys_set. now left.
Qed.

(** X4. After a direct run every item that has an ID has a key in the
    result mapping; the run saved that mapping last, unless nothing was
    left to process; and a second run started on it, whatever the model
    and the order of completion, makes no call, saves nothing and returns
    it. *)
Theorem gemini_second_run_idle (cfg : Gemini.config) (fs : FileSystem)
    (model : Gemini.item -> nat -> Gemini.attempt_outcome)
    (completion : list Gemini.item -> list Gemini.item) (task_num : nat)
    (image_only_items image_text_items : list Gemini.item)
    (checkpoint : checkpoint_file) :
  (forall l, Permutation (completion l) l) ->
  let items :=
    if 6 <=? task_num then image_text_items else image_only_items in
  let first :=
    Gemini.run_task_for_language_gemini cfg fs model completion task_num
      image_only_items image_text_items checkpoint in
  (forall it n,
      In it items ->
      Gemini.get_image_id_from_path (Gemini.image_path it) = Some n ->
      In (Py.str n) (od_keys (Gemini.task_results_at_end first)))
  /\ (Gemini.log first = []
      \/ last_save (Gemini.log first)
         = Some (Gemini.task_results_at_end first))
  /\ (forall cfg' fs' model' completion',
         let second :=
           Gemini.run_task_for_language_gemini cfg' fs' model' completion'
             task_num image_only_items image_text_items
             (CkObject (Gemini.task_results_at_end first)) in
         Gemini.log second = []
         /\ Gemini.output second = Some (Gemini.task_results_at_end first)).
Proof.
  intros Hperm items first.
  assert (Hkeys : forall it n,
             In it items ->
             Gemini.get_image_id_from_path (Gemini.image_path it) = Some n ->
             In (Py.str n) (od_keys (Gemini.task_results_at_end first))).
  { intros it n Hin Hid.
    destruct (gemini_run_results cfg fs model completion task_num
                image_only_items image_text_items checkpoint) as [E _].
    fold first items in E. rewrite E.
    set (loaded := load_checkpoint checkpoint) in *.
    destruct (str_in (Py.str n) (od_keys loaded)) eqn:Hs.
    - apply od_update_keys_mono. now apply str_in_spec.
    - assert (Hrem : In it (Gemini.remaining_items items (od_keys loaded))).
      { apply filter_In. split; [exact Hin |]. now rewrite Hid, Hs. }
      apply od_update_keys_new. rewrite map_map.
      apply in_map_iff. exists it. split.
      + now apply process_key.
      + destruct (Gemini.remaining_items items (od_keys loaded)) as [| x l]
          eqn:Er; [destruct Hrem |].
        eapply Permutation_in; [symmetry; apply Hperm | exact Hrem]. }
  split; [exact Hkeys |]. split.
  - destruct (Gemini.remaining_items items
                (od_keys (load_checkpoint checkpoint))) as [| x l] eqn:Er.
    + left. unfold first, Gemini.run_task_for_language_gemini.
      fold items. now rewrite Er.
    + right. apply gemini_run_saved. fold items. now rewrite Er.
  - intros cfg' fs' model' completion' second.
    apply (gemini_resume_complete cfg' fs' model' completion' task_num
             image_only_items image_text_items
             (CkObject (Gemini.task_results_at_end first))).
    exact Hkeys.
Qed.

(** Witness for X4: after a first run over two images, a second run with a
    failing model makes no call. *)
Lemma gemini_second_run_idle_witness :
  let fs := {| fs_isdir := fun _ => true; fs_listdir := fun _ => [];
               fs_exists := fun _ => false; fs_encodes := fun _ => true;
               fs_read_utf8 := fun _ => ReadOtherError;
               fs_read_latin1 := fun _ => ReadOtherError |} in
  let items :=
    [ {| Gemini.image_path := "data/image1.jpg"; Gemini.text_path := None |};
      {| Gemini.image_path := "data/image2.jpg"; Gemini.text_path := None |} ]
  in
  let first :=
    Gemini.run_task_for_language_gemini Gemini.BASE_CONFIG fs
      (fun it _ => Gemini.Text (Gemini.image_path it)) (fun l => l) 1
      items [] CkAbsent in
  Gemini.log
    (Gemini.run_task_for_language_gemini Gemini.BASE_CONFIG fs
       (fun _ _ => Gemini.Raises "unavailable") (fun l => l) 1 items []
       (CkObject (Gemini.task_results_at_end first))) = [].
Proof.
  cbv zeta.
  refine (proj1 (proj2 (proj2
            (gemini_second_run_idle Gemini.BASE_CONFIG _ _ (fun l => l) 1
               _ [] CkAbsent _)) _ _ _ _)).
  reflexivity.
Defined.

(** ** Batch mode: chunks *)

Lemma chunks_cover_upto {A : Type} (bs q : nat) :
  forall l : list A,
    List.length l <= q * bs ->
    flat_map (fun j => firstn bs (skipn (j * bs) l)) (seq 0 q) = l.
Proof.
  induction q as [| q IH]; intros l Hl.
  - destruct l; [reflexivity | cbn in Hl; lia].
  - cbn [seq flat_map]. rewrite <- seq_shift, flat_map_concat_map, map_map.
    rewrite <- flat_map_concat_map. cbn [Nat.mul skipn].
    rewrite (flat_map_ext _ (fun j => firstn bs (skipn (j * bs) (skipn bs l)))).
    + rewrite IH; [apply firstn_skipn |].
      rewrite length_skipn. cbn in Hl. lia.
    + intro j. rewrite skipn_skipn. f_equal. f_equal. lia.
Qed.

Lemma ceil_div_facts (n bs : nat) :
  0 < bs ->
  n <= (n + bs - 1) / bs * bs
  /\ forall j, j < (n + bs - 1) / bs -> j * bs < n.
Proof.
  intro Hbs.
  pose proof (Nat.div_mod_eq (n + bs - 1) bs) as E.
  pose proof (Nat.mod_upper_bound (n + bs - 1) bs ltac:(lia)) as Hm.
  split; [nia |]. intros j Hj. nia.
Qed.

(** X5. With a positive batch size the chunks of the batch loop, taken in
    order, make up the list of items to process: each item is in one
    chunk, no chunk is empty and none has more than [batch_size] items. *)
Theorem chunks_partition_items {A : Type} (cfg : Batch.config)
    (items : list A) :
  0 < Batch.batch_size cfg ->
  List.concat (chunks_of cfg items) = items
  /\ Forall (fun c => 0 < List.length c <= Batch.batch_size cfg)
       (chunks_of cfg items)
  /\ List.length (chunks_of cfg items)
     = (List.length items + Batch.batch_size cfg - 1) / Batch.batch_size cfg.
Proof.
  intro Hbs. unfold chunks_of, Batch.chunk_starts.
  set (bs := Batch.batch_size cfg) in *.
  set (n := List.length items).
  destruct (ceil_div_facts n bs Hbs) as [Hcover Hlt].
  rewrite map_map. split; [| split].
  - rewrite <- flat_map_concat_map. now apply chunks_cover_upto.
  - apply Forall_forall. intros c Hc.
    apply in_map_iff in Hc as [j [<- Hj]]. apply in_seq in Hj.
    rewrite length_firstn, length_skipn. fold n.
    specialize (Hlt j ltac:(lia)). lia.
  - now rewrite length_map, length_seq.
Qed.

(** Witness for X5: five items in chunks of two. *)
Lemma chunks_partition_items_witness :
  List.concat (chunks_of {| Batch.batch_size := 2; Batch.retry_delay := 5;
                       Batch.max_retries := 3 |} [1; 2; 3; 4; 5])
  = [1; 2; 3; 4; 5].
Proof.
  apply (chunks_partition_items
           {| Batch.batch_size := 2; Batch.retry_delay := 5;
              Batch.max_retries := 3 |} [1; 2; 3; 4; 5]).
  cbn. lia.
Defined.

(** ** Batch mode: saves and submissions of a run *)

Lemma last_save_app {I : Type} (l l' : list (log_entry I)) :
  last_save (l ++ l')
  = match last_save l' with Some d => Some d | None => last_save l end.
Proof.
  induction l as [| e r IH]; cbn [app last_save].
  - now destruct (last_save l').
  - rewrite IH. now destruct (last_save l').
Qed.

Lemma last_save_sleep_if (b : bool) (s : nat) :
  last_save (Batch.sleep_if b s) = None.
Proof. now destruct b. Qed.

Section BatchSaves.
Variable cfg : Batch.config.
Variable upload : nat -> option string.
Variable job : nat -> nat -> Batch.job_outcome.

Lemma retry_loop_saves (i : nat) (sub : Batch.submission) (m : Batch.id_map)
    (retries : nat) (st : Batch.state) :
  last_save (snd (fst (Batch.retry_loop cfg job i sub m retries st)))
  = Some (fst (fst (Batch.retry_loop cfg job i sub m retries st)))
  \/ (last_save (snd (fst (Batch.retry_loop cfg job i sub m retries st)))
      = last_save (snd st)
      /\ fst (fst (Batch.retry_loop cfg job i sub m retries st)) = fst st).
Proof.
  funelim (Batch.retry_loop cfg job i sub m retries st); try clear Heqcall.
  1: { right. now split. }
  3: { left. cbn [fst snd]. rewrite last_save_app. reflexivity. }
  all: destruct H as [H | [H1 H2]]; [left; exact H | right];
    cbn [fst snd] in *; split; [| exact H2];
    rewrite H1, last_save_app; cbn [last_save];
    now rewrite last_save_sleep_if.
Qed.

Lemma retry_loop_requests (i : nat) (sub : Batch.submission) (m : Batch.id_map)
    (st : Batch.state) :
  requests (snd (fst (Batch.retry_loop cfg job i sub m 0 st)))
  <= requests (snd st) + S (Batch.max_retries cfg).
Proof.
  destruct (retry_loop_trace cfg job i sub m 0 st)
    as (c & new & Hlog & Hcalls & Hc & _); [lia |].
  rewrite Hlog, requests_app. unfold requests at 2.
  rewrite Hcalls, length_map, length_seq. lia.
Qed.

Context {A : Type}.
Variable prepare : list A -> option (Batch.batch_file * Batch.id_map).

(** The last save shows the mapping in memory, or nothing was saved and
    the mapping is the loaded one; and each chunk costs at most
    [max_retries + 1] submissions. *)
Lemma process_chunks_saves_and_cost (loaded : odict) (items : list A)
    (starts : list nat) (st : Batch.state) :
  (last_save (snd st) = Some (fst st)
   \/ (last_save (snd st) = None /\ fst st = loaded)) ->
  let out := fold_left (Batch.process_chunk cfg upload job prepare items)
               starts st in
  (last_save (snd out) = Some (fst out)
   \/ (last_save (snd out) = None /\ fst out = loaded))
  /\ requests (snd out)
     <= requests (snd st) + List.length starts * S (Batch.max_retries cfg).
Proof.
  revert st. induction starts as [| i r IH]; intros st Hst; cbn [fold_left].
  - split; [exact Hst | cbn; lia].
  - set (st' := Batch.process_chunk cfg upload job prepare items st i).
    assert (H' : (last_save (snd st') = Some (fst st')
                  \/ (last_save (snd st') = None /\ fst st' = loaded))
                 /\ requests (snd st')
                    <= requests (snd st) + S (Batch.max_retries cfg)).
    { unfold st', Batch.process_chunk.
      destruct (prepare _) as [[lines m] |]; [| split; [exact Hst | lia]].
      destruct m as [| e m']; [split; [exact Hst | lia] |].
      destruct (upload i) as [[| c s] |]; try (split; [exact Hst | lia]).
      split; [| apply retry_loop_requests].
      destruct (retry_loop_saves i (String c s, lines) (e :: m') 0 st)
        as [H | [H1 H2]]; [now left |].
      rewrite H1, H2. exact Hst. }
    destruct H' as [Hs Hc]. destruct (IH st' Hs) as [Hs' Hc'].
    split; [exact Hs' |]. cbn [List.length]. lia.
Qed.
End BatchSaves.

(** X6. At the end of a batch run the checkpoint is in step with the
    results: the last save of the run wrote the very mapping the run ends
    with, or the run saved nothing and ends with the loaded mapping. *)
Theorem batch_checkpoint_in_step (cfg : Batch.config) (fs : FileSystem)
    (clock : string -> N) (upload : nat -> option string)
    (job : nat -> nat -> Batch.job_outcome) (task_num : nat)
    (all_images : list string) (image_text_pairs : list (string * string))
    (checkpoint : checkpoint_file) :
  0 < Batch.batch_size cfg ->
  let r :=
    Batch.process_task_for_language_batch cfg fs clock upload job task_num
      all_images image_text_pairs checkpoint in
  last_save (Batch.log r) = Some (Batch.task_results_at_end r)
  \/ (last_save (Batch.log r) = None
      /\ Batch.task_results_at_end r = load_checkpoint checkpoint).
Proof.
  intros _ r. unfold r, Batch.process_task_for_language_batch, Batch.finish.
  destruct (6 <=? task_num).
  - destruct (Batch.get_remaining_image_text_pairs _ _) as [| x l] eqn:E;
      [right; now split |].
    rewrite <- E. cbn [Batch.log Batch.task_results_at_end].
    apply (process_chunks_saves_and_cost cfg upload job _
             (load_checkpoint checkpoint)).
    right. now split.
  - destruct (Batch.get_remaining_images _ _) as [| x l] eqn:E;
      [right; now split |].
    rewrite <- E. cbn [Batch.log Batch.task_results_at_end].
    apply (process_chunks_saves_and_cost cfg upload job _
             (load_checkpoint checkpoint)).
    right. now split.
Qed.

(** X7. A batch run creates at most [max_retries + 1] jobs for each chunk
    of the items it has to process. *)
Theorem batch_run_cost_bounded (cfg : Batch.config) (fs : FileSystem)
    (clock : string -> N) (upload : nat -> option string)
    (job : nat -> nat -> Batch.job_outcome) (task_num : nat)
    (all_images : list string) (image_text_pairs : list (string * string))
    (checkpoint : checkpoint_file) :
  0 < Batch.batch_size cfg ->
  let n :=
    if 6 <=? task_num
    then List.length
           (Batch.get_remaining_image_text_pairs image_text_pairs
              (od_keys (load_checkpoint checkpoint)))
    else List.length
           (Batch.get_remaining_images all_images
              (od_keys (load_checkpoint checkpoint))) in
  requests
    (Batch.log
       (Batch.process_task_for_language_batch cfg fs clock upload job
          task_num all_images image_text_pairs checkpoint))
  <= (n + Batch.batch_size cfg - 1) / Batch.batch_size cfg
     * S (Batch.max_retries cfg).
Proof.
  intros _ n. unfold n, Batch.process_task_for_language_batch, Batch.finish.
  destruct (6 <=? task_num).
  - destruct (Batch.get_remaining_image_text_pairs _ _) as [| x l] eqn:E;
      [cbn; lia |].
    rewrite <- E. cbn [Batch.log]. unfold Batch.process_chunks.
    pose proof (process_chunks_saves_and_cost cfg upload job
                  (Batch.prepare_batch_file_image_text fs clock)
                  (load_checkpoint checkpoint)
                  (Batch.get_remaining_image_text_pairs image_text_pairs
                     (od_keys (load_checkpoint checkpoint)))
                  (Batch.chunk_starts cfg
                     (List.length
                        (Batch.get_remaining_image_text_pairs image_text_pairs
                           (od_keys (load_checkpoint checkpoint)))))
                  (load_checkpoint checkpoint, [])
                  (or_intror (conj eq_refl eq_refl))) as [_ H].
    unfold Batch.chunk_starts in H at 2.
    rewrite length_map, length_seq in H. exact H.
  - destruct (Batch.get_remaining_images _ _) as [| x l] eqn:E; [cbn; lia |].
    rewrite <- E. cbn [Batch.log]. unfold Batch.process_chunks.
    pose proof (process_chunks_saves_and_cost cfg upload job
                  (Batch.prepare_batch_file_image_only fs clock)
                  (load_checkpoint checkpoint)
                  (Batch.get_remaining_images all_images
                     (od_keys (load_checkpoint checkpoint)))
                  (Batch.chunk_starts cfg
                     (List.length
                        (Batch.get_remaining_images all_images
                           (od_keys (load_checkpoint checkpoint)))))
                  (load_checkpoint checkpoint, [])
                  (or_intror (conj eq_refl eq_refl))) as [_ H].
    unfold Batch.chunk_starts in H at 2.
    rewrite length_map, length_seq in H. exact H.
Qed.

(** Witness for X6 and X7: three images in one chunk, the job failing
    once and then completing with results for two of them. *)
Lemma batch_checkpoint_in_step_witness :
  let r :=
    Batch.process_task_for_language_batch Batch.BASE_CONFIG
      {| fs_isdir := fun _ => true; fs_listdir := fun _ => [];
         fs_exists := fun _ => false; fs_encodes := fun _ => true;
         fs_read_utf8 := fun _ => ReadOtherError;
         fs_read_latin1 := fun _ => ReadOtherError |}
      (fun _ => 0%N) (fun _ => Some "file-1")
      (fun _ a =>
         match a with
         | 0 => Batch.Terminated
         | _ => Batch.Completed
                  (Some (Some [Batch.Line "img_2_0" (Batch.Content "two");
                               Batch.Line "img_1_0" (Batch.Content "one")]))
         end)
      1 ["data/image1.jpg"; "data/image2.jpg"; "data/image3.jpg"] []
      CkAbsent in
  last_save (Batch.log r) = Some (Batch.task_results_at_end r)
  \/ (last_save (Batch.log r) = None
      /\ Batch.task_results_at_end r = load_checkpoint CkAbsent).
Proof.
  cbv zeta. apply batch_checkpoint_in_step. cbn. lia.
Defined.

Lemma batch_run_cost_bounded_witness :
  requests
    (Batch.log
       (Batch.process_task_for_language_batch Batch.BASE_CONFIG
          {| fs_isdir := fun _ => true; fs_listdir := fun _ => [];
             fs_exists := fun _ => false; fs_encodes := fun _ => true;
             fs_read_utf8 := fun _ => ReadOtherError;
             fs_read_latin1 := fun _ => ReadOtherError |}
          (fun _ => 0%N) (fun _ => Some "file-1")
          (fun _ _ => Batch.Terminated)
          1 ["data/image1.jpg"; "data/image2.jpg"; "data/image3.jpg"] []
          CkAbsent))
  <= 1 * 4.
Proof.
  exact (batch_run_cost_bounded Batch.BASE_CONFIG _ _ _ _ 1 _ [] CkAbsent
           ltac:(cbn; lia)).
Defined.

(** ** Batch mode: polling *)

Lemma poll_loop_shape (retrieve : nat -> Batch.retrieve_outcome)
    (interval : nat) (left : nat) :
  forall i,
    exists k,
      k <= left
      /\ poll_retrieves (snd (Batch.poll_loop retrieve interval left i))
         = seq i (S k)
      /\ fst (Batch.poll_loop retrieve interval left i)
         = match retrieve (i + k) with
           | Batch.RetrieveStatus status => Some status
           | Batch.RetrieveRaises => None
           end
      /\ (k < left ->
          exists status,
            retrieve (i + k) = Batch.RetrieveStatus status
            /\ Batch.is_terminal status = true)
      /\ (forall j, j < k -> keeps_polling (retrieve (i + j)))
      /\ interval * k
         <= poll_sleep (snd (Batch.poll_loop retrieve interval left i))
         <= 2 * interval * k.
Proof.
  induction left as [| left IH]; intro i; cbn [Batch.poll_loop].
  - exists 0. rewrite Nat.add_0_r.
    destruct (retrieve i); cbn; repeat split; try lia; intros; lia.
  - destruct (IH (S i)) as (k & Hk & Hr & Hres & Hterm & Hkeep & Hs).
    assert (Hnext :
              forall s, keeps_polling (retrieve i) ->
                        interval <= s <= 2 * interval ->
              exists k0,
                k0 <= S left
                /\ poll_retrieves
                     (Batch.PollRetrieve i :: Batch.PollSleep s
                        :: snd (Batch.poll_loop retrieve interval left (S i)))
                   = seq i (S k0)
                /\ fst (Batch.poll_loop retrieve interval left (S i))
                   = match retrieve (i + k0) with
                     | Batch.RetrieveStatus status => Some status
                     | Batch.RetrieveRaises => None
                     end
                /\ (k0 < S left ->
                    exists status,
                      retrieve (i + k0) = Batch.RetrieveStatus status
                      /\ Batch.is_terminal status = true)
                /\ (forall j, j < k0 -> keeps_polling (retrieve (i + j)))
                /\ interval * k0
                   <= poll_sleep
                        (Batch.PollRetrieve i :: Batch.PollSleep s
                           :: snd (Batch.poll_loop retrieve interval left
                                     (S i)))
                   <= 2 * interval * k0).
    { intros s Hkp Hsl. exists (S k).
      replace (i + S k) with (S i + k) by lia.
      split; [lia |]. split.
      { unfold poll_retrieves in *. cbn [flat_map app]. rewrite Hr.
        reflexivity. }
      split; [exact Hres |]. split; [intro; apply Hterm; lia |]. split.
      { intros [| j] Hj; [now rewrite Nat.add_0_r |].
        replace (i + S j) with (S i + j) by lia. apply Hkeep. lia. }
      unfold poll_sleep in *. cbn [fold_right]. lia. }
    destruct (retrieve i) as [| status] eqn:E.
    + destruct (Batch.poll_loop retrieve interval left (S i)) as [r evs].
      cbn [fst snd] in *. apply Hnext; [exact I | lia].
    + destruct (Batch.is_terminal status) eqn:Et.
      * exists 0. rewrite Nat.add_0_r, E. cbn.
        repeat split; try lia; try (intros; lia). intros _. now exists status.
      * destruct (Batch.poll_loop retrieve interval left (S i)) as [r evs].
        cbn [fst snd] in *. apply Hnext; [exact Et | lia].
Qed.

(** X8. Polling retrieves the job at most [max_polls + 1] times, in a row;
    it stops at the first retrieval, among the first [max_polls], that
    shows a terminal status and returns that batch; otherwise it returns
    what the last retrieval gives, a batch that is not terminal or nothing;
    between two retrievals it sleeps once or twice the interval, so at
    most [2 * interval * max_polls] seconds in all. *)
Theorem poll_bounded (retrieve : nat -> Batch.retrieve_outcome)
    (max_polls interval : nat) :
  let res := Batch.poll_batch_status retrieve max_polls interval in
  exists k,
    k <= max_polls
    /\ poll_retrieves (snd res) = seq 0 (S k)
    /\ fst res
       = match retrieve k with
         | Batch.RetrieveStatus status => Some status
         | Batch.RetrieveRaises => None
         end
    /\ (k < max_polls ->
        exists status,
          retrieve k = Batch.RetrieveStatus status
          /\ Batch.is_terminal status = true)
    /\ (forall j, j < k -> keeps_polling (retrieve j))
    /\ interval * k <= poll_sleep (snd res) <= 2 * interval * max_polls.
Proof.
  intro res. unfold res, Batch.poll_batch_status.
  destruct (poll_loop_shape retrieve interval max_polls 0)
    as (k & Hk & Hr & Hres & Hterm & Hkeep & Hs).
  exists k. cbn [Nat.add] in *. repeat split; try assumption; try lia.
  nia.
Qed.

(** ** Batch mode: request lines, ID map and result lines *)

Lemma od_get_set {V : Type} (k k' : string) (v : V) (d : list (string * V)) :
  od_get k' (od_set k v d) = if String.eqb k k' then Some v else od_get k' d.
Proof.
  destruct (String.eqb_spec k k') as [-> | Hne].
  - apply od_get_set_same.
  - apply od_get_set_other. congruence.
Qed.

Lemma lines_map_back_set (paths : list string) (lines : Batch.batch_file)
    (m : Batch.id_map) (cid x : string) (n : N) :
  lines_map_back paths lines m ->
  In x paths -> Batch.get_image_id (Path.basename x) = Some n ->
  lines_map_back paths lines (od_set cid (x, n) m)
  /\ lines_map_back paths (lines ++ [cid]) (od_set cid (x, n) m).
Proof.
  intros H Hx Hid.
  assert (G : forall c, (In c lines \/ c = cid) ->
                        exists p k,
                          od_get c (od_set cid (x, n) m) = Some (p, k)
                          /\ In p paths
                          /\ Batch.get_image_id (Path.basename p) = Some k).
  { intros c Hc. rewrite od_get_set.
    destruct (String.eqb_spec cid c) as [-> | Hne].
    - now exists x, n.
    - destruct Hc as [Hc | ->]; [now apply H | congruence]. }
  split; intros c Hc; apply G; [now left |].
  apply in_app_iff in Hc as [Hc | [<- | []]]; [now left | now right].
Qed.

Section PreparedLines.
Variable fs : FileSystem.
Variable clock : string -> N.

Lemma prepare_image_only_fold (paths l : list string)
    (acc : Batch.batch_file * Batch.id_map) :
  incl l paths -> lines_map_back paths (fst acc) (snd acc) ->
  let out := fold_left (Batch.prepare_image_only_step fs clock) l acc in
  fst out = fst acc ++ flat_map (image_line fs clock) l
  /\ lines_map_back paths (fst out) (snd out).
Proof.
  revert acc. induction l as [| x r IH]; intros acc Hl Hacc; cbn [fold_left].
  - cbn. now rewrite app_nil_r.
  - assert (Hx : In x paths) by (apply Hl; now left).
    assert (Hr : incl r paths) by (intros y Hy; apply Hl; now right).
    set (acc' := Batch.prepare_image_only_step fs clock acc x).
    assert (H' : fst acc' = fst acc ++ image_line fs clock x
                 /\ lines_map_back paths (fst acc') (snd acc')).
    { unfold acc', Batch.prepare_image_only_step, image_line.
      destruct acc as [bl im]. cbn [fst snd] in *.
      destruct (Batch.get_image_id (Path.basename x)) as [n |] eqn:E;
        [| cbn; now rewrite app_nil_r].
      destruct (lines_map_back_set paths bl im
                  (Batch.custom_id_of "img" n (clock x)) x n Hacc Hx E)
        as [H1 H2].
      destruct (fs_encodes fs x); cbn [negb fst snd];
        [now split | now rewrite app_nil_r]. }
    destruct H' as [E1 E2]. destruct (IH acc' Hr E2) as [F1 F2].
    split; [| exact F2]. rewrite F1, E1. cbn [flat_map].
    now rewrite app_assoc.
Qed.

Lemma prepare_image_text_fold (pairs l : list (string * string))
    (acc : Batch.batch_file * Batch.id_map) :
  incl l pairs -> lines_map_back (map fst pairs) (fst acc) (snd acc) ->
  let out := fold_left (Batch.prepare_image_text_step fs clock) l acc in
  fst out = fst acc ++ flat_map (pair_line fs clock) l
  /\ lines_map_back (map fst pairs) (fst out) (snd out).
Proof.
  revert acc. induction l as [| x r IH]; intros acc Hl Hacc; cbn [fold_left].
  - cbn. now rewrite app_nil_r.
  - assert (Hx : In (fst x) (map fst pairs))
      by (apply in_map, Hl; now left).
    assert (Hr : incl r pairs) by (intros y Hy; apply Hl; now right).
    set (acc' := Batch.prepare_image_text_step fs clock acc x).
    assert (H' : fst acc' = fst acc ++ pair_line fs clock x
                 /\ lines_map_back (map fst pairs) (fst acc') (snd acc')).
    { unfold acc', Batch.prepare_image_text_step, pair_line.
      destruct acc as [bl im], x as [ip tp]. cbn [fst snd] in *.
      destruct (Batch.get_image_id (Path.basename ip)) as [n |] eqn:E;
        [| cbn; now rewrite app_nil_r].
      destruct (lines_map_back_set (map fst pairs) bl im
                  (Batch.custom_id_of "pair" n (clock ip)) ip n Hacc Hx E)
        as [H1 H2].
      destruct (fs_encodes fs ip); cbn [negb fst snd];
        [| now rewrite app_nil_r].
      destruct (read_text_file fs tp); cbn [fst snd];
        [now split | now rewrite app_nil_r]. }
    destruct H' as [E1 E2]. destruct (IH acc' Hr E2) as [F1 F2].
    split; [| exact F2]. rewrite F1, E1. cbn [flat_map].
    now rewrite app_assoc.
Qed.
End PreparedLines.

Lemma flat_map_length_le {A B : Type} (f : A -> list B) (l : list A) :
  (forall x, List.length (f x) <= 1) ->
  List.length (flat_map f l) <= List.length l.
Proof.
  intro H. induction l as [| x r IH]; cbn [flat_map List.length]; [lia |].
  rewrite List.length_app. specialize (H x). lia.
Qed.

(** X9. Preparing a chunk, in both variants: the batch file holds one line
    for each item that has an ID and whose inputs can be read, in the
    order of the chunk, and no file is made when there is none; every line
    has an entry in the ID map, for an image of the chunk and with its ID,
    so that a result line carrying the correlation ID of a request is
    stored under the string of the ID of that image. *)
Theorem prepared_lines_map_back (fs : FileSystem) (clock : string -> N) :
  (forall paths,
      match Batch.prepare_batch_file_image_only fs clock paths with
      | None => flat_map (image_line fs clock) paths = []
      | Some (lines, m) =>
          lines <> []
          /\ lines = flat_map (image_line fs clock) paths
          /\ List.length lines <= List.length paths
          /\ forall cid,
              In cid lines ->
              exists p n,
                In p paths
                /\ Batch.get_image_id (Path.basename p) = Some n
                /\ forall payload,
                    Batch.process_batch_results
                      (Some [Batch.Line cid payload]) m
                    = [(Py.str n, Batch.payload_text payload)]
      end)
  /\ (forall pairs,
         match Batch.prepare_batch_file_image_text fs clock pairs with
         | None => flat_map (pair_line fs clock) pairs = []
         | Some (lines, m) =>
             lines <> []
             /\ lines = flat_map (pair_line fs clock) pairs
             /\ List.length lines <= List.length pairs
             /\ forall cid,
                 In cid lines ->
                 exists p n,
                   In p (map fst pairs)
                   /\ Batch.get_image_id (Path.basename p) = Some n
                   /\ forall payload,
                       Batch.process_batch_results
                         (Some [Batch.Line cid payload]) m
                       = [(Py.str n, Batch.payload_text payload)]
         end).
Proof.
  assert (Hback : forall paths lines m cid,
             lines_map_back paths lines m -> In cid lines ->
             exists p n,
               In p paths
               /\ Batch.get_image_id (Path.basename p) = Some n
               /\ forall payload,
                   Batch.process_batch_results
                     (Some [Batch.Line cid payload]) m
                   = [(Py.str n, Batch.payload_text payload)]).
  { intros paths lines m cid H Hin.
    destruct (H cid Hin) as (p & n & Hget & Hp & Hid).
    exists p, n. repeat split; try assumption.
    intro payload. cbn. now rewrite Hget. }
  split.
  - intro paths. unfold Batch.prepare_batch_file_image_only.
    destruct (prepare_image_only_fold fs clock paths paths ([], []))
      as [E Hm]; [apply incl_refl | intros ? [] |].
    destruct (fold_left (Batch.prepare_image_only_step fs clock) paths
                ([], [])) as [bl im].
    cbn [fst snd app] in *.
    destruct bl as [| c bl']; [now symmetry |].
    split; [discriminate |]. split; [exact E |]. split.
    + rewrite E. apply flat_map_length_le. intro x. unfold image_line.
      destruct (Batch.get_image_id _); [destruct (fs_encodes fs x) |];
        cbn; lia.
    + intros cid Hin. now apply (Hback paths (c :: bl') im).
  - intro pairs. unfold Batch.prepare_batch_file_image_text.
    destruct (prepare_image_text_fold fs clock pairs pairs ([], []))
      as [E Hm]; [apply incl_refl | intros ? [] |].
    destruct (fold_left (Batch.prepare_image_text_step fs clock) pairs
                ([], [])) as [bl im].
    cbn [fst snd app] in *.
    destruct bl as [| c bl']; [now symmetry |].
    split; [discriminate |]. split; [exact E |]. split.
    + rewrite E. apply flat_map_length_le. intro x. unfold pair_line.
      destruct (Batch.get_image_id _); [destruct (fs_encodes fs (fst x)) |];
        try destruct (read_text_file fs (snd x)); cbn; lia.
    + intros cid Hin. now apply (Hback (map fst pairs) (c :: bl') im).
Qed.

Lemma process_result_line_cases (m : Batch.id_map) (d : odict)
    (l : Batch.result_line) :
  match line_id m l with
  | None => Batch.process_result_line m d l = d
  | Some n =>
      exists text, Batch.process_result_line m d l = od_set (Py.str n) text d
  end.
Proof.
  unfold line_id, Batch.process_result_line.
  destruct l as [| cid payload]; [reflexivity |].
  destruct (od_get cid m) as [[p n] |]; cbn [option_map snd];
    [now eexists | reflexivity].
Qed.

Lemma process_lines_skip (m : Batch.id_map) (lines : list Batch.result_line)
    (d : odict) :
  fold_left (Batch.process_result_line m) lines d
  = fold_left (Batch.process_result_line m)
      (List.filter (line_mapped m) lines) d.
Proof.
  revert d. induction lines as [| l r IH]; intro d; [reflexivity |].
  cbn [fold_left List.filter]. unfold line_mapped at 1.
  pose proof (process_result_line_cases m d l) as H.
  destruct (line_id m l); [cbn [fold_left]; apply IH |].
  rewrite H. apply IH.
Qed.

Lemma process_lines_nodup_length (m : Batch.id_map)
    (lines : list Batch.result_line) (d : odict) :
  NoDup (od_keys d) ->
  NoDup (od_keys (fold_left (Batch.process_result_line m) lines d))
  /\ List.length (fold_left (Batch.process_result_line m) lines d)
     <= List.length d + List.length (List.filter (line_mapped m) lines).
Proof.
  revert d. induction lines as [| l r IH]; intros d Hd;
    cbn [fold_left List.filter].
  - split; [exact Hd | cbn; lia].
  - pose proof (process_result_line_cases m d l) as H.
    assert (Hm : line_mapped m l
                 = match line_id m l with Some _ => true | None => false end)
      by reflexivity.
    destruct (line_id m l) as [n |]; rewrite Hm.
    + destruct H as [text ->].
      destruct (IH (od_set (Py.str n) text d)) as [H1 H2];
        [now apply od_set_nodup |].
      split; [exact H1 |]. cbn [List.length].
      assert (Hlen : List.length (od_set (Py.str n) text d)
                     <= S (List.length d)).
      { clear. induction d as [| [k v] t IHd]; cbn; [lia |].
        destruct (String.eqb k (Py.str n)); cbn; lia. }
      lia.
    + rewrite H. now apply IH.
Qed.

Lemma process_lines_keep (m : Batch.id_map) (lines : list Batch.result_line)
    (d : odict) (n : N) :
  (forall l, In l lines -> line_id m l <> Some n) ->
  od_get (Py.str n) (fold_left (Batch.process_result_line m) lines d)
  = od_get (Py.str n) d.
Proof.
  revert d. induction lines as [| l r IH]; intros d H; [reflexivity |].
  cbn [fold_left]. rewrite IH by (intros x Hx; apply H; now right).
  pose proof (process_result_line_cases m d l) as Hc.
  assert (Hl : line_id m l <> Some n) by (apply H; now left).
  destruct (line_id m l) as [k |]; [| now rewrite Hc].
  destruct Hc as [text ->]. apply od_get_set_other.
  intro E. apply str_inj in E. congruence.
Qed.

(** X10. Reading an output file: a file that cannot be fetched or has no
    line gives no result; lines that cannot be read or whose correlation
    ID is unknown change nothing; the result has one entry per ID, at most
    as many as there are usable lines; and the text stored for an ID is
    that of the last line for it. *)
Theorem batch_results_reading (m : Batch.id_map) :
  Batch.process_batch_results None m = []
  /\ Batch.process_batch_results (Some []) m = []
  /\ (forall lines,
         Batch.process_batch_results (Some lines) m
         = Batch.process_batch_results
             (Some (List.filter (line_mapped m) lines)) m)
  /\ (forall content,
         NoDup (od_keys (Batch.process_batch_results content m))
         /\ List.length (Batch.process_batch_results content m)
            <= match content with
               | Some lines => List.length (List.filter (line_mapped m) lines)
               | None => 0
               end)
  /\ (forall before after cid payload p n,
         od_get cid m = Some (p, n) ->
         (forall l, In l after -> line_id m l <> Some n) ->
         od_get (Py.str n)
           (Batch.process_batch_results
              (Some (before ++ Batch.Line cid payload :: after)) m)
         = Some (Batch.payload_text payload)).
Proof.
  split; [reflexivity |]. split; [reflexivity |]. split; [| split].
  - intro lines. apply process_lines_skip.
  - intros [lines |]; cbn [Batch.process_batch_results].
    + apply (process_lines_nodup_length m lines []). constructor.
    + split; [constructor | cbn; lia].
  - intros before after cid payload p n Hget Hafter.
    cbn [Batch.process_batch_results]. rewrite fold_left_app.
    cbn [fold_left]. rewrite process_lines_keep by exact Hafter.
    cbn [Batch.process_result_line]. rewrite Hget. apply od_get_set_same.
Qed.

(** Witness for X10: two lines for the same image, the second one kept. *)
Lemma batch_results_reading_witness :
  od_get (Py.str 1)
    (Batch.process_batch_results
       (Some ([Batch.Line "img_1_0" (Batch.Content "first")]
              ++ Batch.Line "img_1_0" (Batch.Content "second")
              :: [Batch.Malformed]))
       [("img_1_0", ("data/image1.jpg", 1%N))])
  = Some (Batch.payload_text (Batch.Content "second")).
Proof.
  refine (proj2 (proj2 (proj2 (proj2
            (batch_results_reading [("img_1_0", ("data/image1.jpg", 1%N))]))))
            _ _ _ _ "data/image1.jpg" 1%N _ _).
  - reflexivity.
  - intros l [<- | []]. discriminate.
Defined.

(** ** Sorting, in general *)

Section SortGeneral.
Context {K A : Type}.
Variable lt : K -> K -> bool.
Hypothesis lt_asym : forall a b, lt a b = true -> lt b a = false.

Lemma insert_by_sorted_gen (x : K * A) (l : list (K * A)) :
  Sorted (not_after lt) l -> Sorted (not_after lt) (insert_by lt x l).
Proof.
  induction 1 as [| y r Hs IH Hhd]; cbn [insert_by].
  - repeat constructor.
  - destruct (lt (fst y) (fst x)) eqn:E.
    + constructor; [exact IH |].
      destruct r as [| z r']; cbn [insert_by].
      * constructor. unfold not_after. now apply lt_asym.
      * inversion Hhd; subst.
        destruct (lt (fst z) (fst x)); constructor;
          [assumption | unfold not_after; now apply lt_asym].
    + constructor; [now constructor | now constructor].
Qed.

Lemma sort_by_sorted_gen (l : list (K * A)) :
  Sorted (not_after lt) (sort_by lt l).
Proof.
  induction l as [| x r IH]; cbn [sort_by]; [constructor |].
  now apply insert_by_sorted_gen.
Qed.

Lemma insert_by_perm_gen (x : K * A) (l : list (K * A)) :
  Permutation (insert_by lt x l) (x :: l).
Proof.
  induction l as [| y r IH]; cbn [insert_by]; [reflexivity |].
  destruct (lt (fst y) (fst x)); [| reflexivity].
  rewrite IH. apply perm_swap.
Qed.

Lemma sort_by_perm_gen (l : list (K * A)) : Permutation (sort_by lt l) l.
Proof.
  induction l as [| x r IH]; cbn [sort_by]; [reflexivity |].
  now rewrite insert_by_perm_gen, IH.
Qed.
End SortGeneral.

Lemma strongly_sorted_firstn {A : Type} (R : A -> A -> Prop) (n : nat)
    (l : list A) :
  StronglySorted R l -> StronglySorted R (firstn n l).
Proof.
  intro H. revert n. induction H as [| x r Hs IH Hall]; intros [| n];
    cbn [firstn]; constructor; [apply IH |].
  rewrite Forall_forall in *. intros y Hy. apply Hall.
  now apply In_firstn in Hy.
Qed.

Lemma strongly_sorted_filter {A : Type} (R : A -> A -> Prop)
    (f : A -> bool) (l : list A) :
  StronglySorted R l -> StronglySorted R (List.filter f l).
Proof.
  induction 1 as [| x r Hs IH Hall]; cbn [List.filter]; [constructor |].
  destruct (f x); [| exact IH]. constructor; [exact IH |].
  rewrite Forall_forall in *. intros y Hy. apply Hall.
  now apply filter_In in Hy.
Qed.

Lemma strongly_sorted_map {A B : Type} (R : B -> B -> Prop) (g : A -> B)
    (l : list A) :
  StronglySorted (fun a b => R (g a) (g b)) l <-> StronglySorted R (map g l).
Proof.
  induction l as [| x r IH]; cbn [map]; split; intro H;
    try constructor; inversion H; subst.
  - now apply IH.
  - rewrite Forall_forall in *. intros y Hy.
    apply in_map_iff in Hy as [z [<- Hz]]. auto.
  - now apply IH.
  - rewrite Forall_forall in *. intros y Hy. match goal with
    | Hall : forall x, In x (map g r) -> _ |- _ => apply Hall
    end. now apply in_map.
Qed.

Lemma strongly_sorted_strict (l : list N) :
  StronglySorted N.le l -> NoDup l -> StronglySorted N.lt l.
Proof.
  induction 1 as [| x r Hs IH Hall]; intro Hnd; constructor;
    inversion Hnd; subst.
  - now apply IH.
  - rewrite Forall_forall in *. intros y Hy. specialize (Hall y Hy).
    assert (x <> y) by (intros ->; contradiction). lia.
Qed.

(** ** Batch loader *)

Lemma find_app {A : Type} (f : A -> bool) (l1 l2 : list A) :
  List.find f (l1 ++ l2)
  = match List.find f l1 with Some x => Some x | None => List.find f l2 end.
Proof.
  induction l1 as [| x r IH]; cbn [app List.find]; [reflexivity |].
  now destruct (f x).
Qed.

Lemma has_id_spec (n : N) (p : string) :
  has_id n p = true <-> Batch.get_image_id p = Some n.
Proof.
  unfold has_id. destruct (Batch.get_image_id p) as [k |].
  - rewrite N.eqb_eq. split; congruence.
  - split; discriminate.
Qed.

(** [unique_images_dict] after the files of [pre]: an ID is bound to the
    first file of [pre] that has it. *)
Lemma add_unique_first (r pre : list string) (d : list (N * string)) :
  (forall n p, In (n, p) d <-> List.find (has_id n) pre = Some p) ->
  NoDup (map fst d) ->
  (forall n p,
      In (n, p) (fold_left Batch.add_unique r d)
      <-> List.find (has_id n) (pre ++ r) = Some p)
  /\ NoDup (map fst (fold_left Batch.add_unique r d)).
Proof.
  revert pre d. induction r as [| x r IH]; intros pre d Hd Hnd.
  - rewrite app_nil_r. now split.
  - cbn [fold_left].
    replace (pre ++ x :: r) with ((pre ++ [x]) ++ r)
      by now rewrite <- app_assoc.
    apply IH.
    + intros n p. rewrite find_app. cbn [List.find].
      unfold Batch.add_unique.
      destruct (Batch.get_image_id x) as [k |] eqn:Ex.
      * destruct (existsb (fun e => N.eqb (fst e) k) d) eqn:Eex.
        -- apply existsb_exists in Eex as [[k' p0] [Hin Hk]].
           cbn in Hk. apply N.eqb_eq in Hk. subst k'.
           destruct (N.eq_dec n k) as [-> | Hne].
           ++ apply Hd in Hin. rewrite Hin. rewrite Hd, Hin. tauto.
           ++ assert (Hx : has_id n x = false).
              { unfold has_id. rewrite Ex. apply N.eqb_neq. congruence. }
              rewrite Hx, Hd. now destruct (List.find (has_id n) pre).
        -- rewrite in_app_iff, Hd. cbn [In].
           destruct (N.eq_dec n k) as [-> | Hne].
           ++ assert (Hx : has_id k x = true) by now apply has_id_spec.
              rewrite Hx.
              destruct (List.find (has_id k) pre) as [p0 |] eqn:Ef.
              ** exfalso. apply Hd in Ef.
                 assert (Ht : existsb (fun e => N.eqb (fst e) k) d = true).
                 { apply existsb_exists. exists (k, p0). split; [exact Ef |].
                   apply N.eqb_refl. }
                 congruence.
              ** split; [intros [H | [H | []]]; congruence |].
                 intro H. right. left. congruence.
           ++ assert (Hx : has_id n x = false).
              { unfold has_id. rewrite Ex. apply N.eqb_neq. congruence. }
              rewrite Hx. split.
              ** intros [H | [H | []]]; [| congruence].
                 now rewrite H.
              ** intro H. left.
                 destruct (List.find (has_id n) pre); congruence.
      * assert (Hx : has_id n x = false) by (unfold has_id; now rewrite Ex).
        rewrite Hx, Hd. now destruct (List.find (has_id n) pre).
    + unfold Batch.add_unique.
      destruct (Batch.get_image_id x) as [k |]; [| exact Hnd].
      destruct (existsb (fun e => N.eqb (fst e) k) d) eqn:Eex; [exact Hnd |].
      rewrite map_app. cbn [map fst].
      apply NoDup_app; [exact Hnd | repeat constructor; intros [] |].
      intros y Hy [<- | []].
      apply in_map_iff in Hy as [[k' p0] [Hk Hin]]. cbn in Hk. subst k'.
      assert (Ht : existsb (fun e => N.eqb (fst e) k) d = true).
      { apply existsb_exists. exists (k, p0). split; [exact Hin |].
        apply N.eqb_refl. }
      congruence.
Qed.

Lemma unique_images_dict_spec (found : list string) :
  let d := fold_left Batch.add_unique found [] in
  (forall n p, In (n, p) d <-> List.find (has_id n) found = Some p)
  /\ NoDup (map fst d).
Proof.
  apply (add_unique_first found [] []).
  - intros n p. cbn. split; [intros [] | discriminate].
  - constructor.
Qed.

Lemma batch_all_images (fs : FileSystem) (directory : string) :
  fst (fst (Batch.load_images_and_texts fs directory))
  = if fs_isdir fs directory
    then firstn Batch.limit (Batch.sorted_image_paths fs directory)
    else [].
Proof.
  unfold Batch.load_images_and_texts.
  destruct (fs_isdir fs directory); cbn [negb]; [| reflexivity].
  destruct (Batch.pair_up fs (Batch.sorted_image_paths fs directory))
    as [prs only].
  destruct (Nat.ltb_spec Batch.limit
              (List.length (Batch.sorted_image_paths fs directory)))
    as [Hlt | Hge]; cbn [fst]; [reflexivity |].
  symmetry. now apply firstn_all2.
Qed.

Lemma sorted_dict_facts (fs : FileSystem) (directory : string) :
  exists sd : list (N * string),
    Batch.sorted_image_paths fs directory = map snd sd
    /\ StronglySorted N.lt (map fst sd)
    /\ (forall n p,
           In (n, p) sd
           <-> List.find (has_id n) (batch_images_found fs directory)
               = Some p).
Proof.
  unfold Batch.sorted_image_paths. fold (batch_images_found fs directory).
  set (found := batch_images_found fs directory).
  destruct (unique_images_dict_spec found) as [Hin Hnd].
  set (d := fold_left Batch.add_unique found []) in *.
  exists (sort_by N.ltb d). split; [reflexivity |]. split.
  - apply strongly_sorted_strict.
    + apply (proj1 (strongly_sorted_map N.le fst (sort_by N.ltb d))).
      apply (Sorted_StronglySorted (R := @fst_le string));
        [| apply sort_by_sorted].
      intros a b c. unfold fst_le. lia.
    + eapply Permutation_NoDup; [| exact Hnd].
      apply Permutation_map, Permutation_sym, sort_by_perm.
  - intros n p. rewrite <- Hin. split; intro H.
    + eapply Permutation_in; [apply sort_by_perm | exact H].
    + eapply Permutation_in; [apply Permutation_sym, sort_by_perm | exact H].
Qed.

(** X11.  The images the batch loader returns carry integer IDs in
    strictly ascending order, hence pairwise distinct; there are at most
    1000 of them, each one is an image file of the directory, and a path
    that is not a directory gives no image, pair or unpaired image. *)
Theorem batch_loader_ids_ascending (fs : FileSystem) (directory : string) :
  let all_images := fst (fst (Batch.load_images_and_texts fs directory)) in
  (exists ids,
      map Batch.get_image_id all_images = map Some ids
      /\ StronglySorted N.lt ids)
  /\ List.length all_images <= 1000
  /\ (forall p, In p all_images ->
        exists f, In f (fs_listdir fs directory)
                  /\ has_extension Batch.image_suffixes f = true
                  /\ p = Path.join directory f)
  /\ (fs_isdir fs directory = false ->
      Batch.load_images_and_texts fs directory = ([], [], [])).
Proof.
  cbv zeta. rewrite batch_all_images.
  destruct (sorted_dict_facts fs directory) as [sd [Hsd [Hsorted Hin]]].
  split; [| split; [| split]].
  - destruct (fs_isdir fs directory);
      [| exists []; split; [reflexivity | constructor]].
    exists (map fst (firstn Batch.limit sd)). split.
    + rewrite Hsd, <- !firstn_map, !map_map. f_equal.
      apply map_ext_in. intros [n p] Hnp. cbn [fst snd].
      apply Hin, find_some in Hnp. now apply has_id_spec.
    + rewrite <- firstn_map. now apply strongly_sorted_firstn.
  - destruct (fs_isdir fs directory); [| cbn; lia].
    change 1000 with Batch.limit. apply firstn_le_length.
  - intros p Hp. destruct (fs_isdir fs directory); [| destruct Hp].
    apply In_firstn in Hp. rewrite Hsd in Hp.
    apply in_map_iff in Hp as [[n q] [Hq Hnp]]. cbn in Hq. subst q.
    apply Hin, find_some in Hnp. destruct Hnp as [Hfound _].
    unfold batch_images_found in Hfound.
    apply in_map_iff in Hfound as [f [Hf Hfl]].
    apply filter_In in Hfl. exists f. symmetry in Hf. tauto.
  - intro Hdir. unfold Batch.load_images_and_texts. now rewrite Hdir.
Qed.

(** X12.  Duplicate IDs in the batch loader: an image is kept exactly
    when it is the first image file of the listing with its ID; a later
    file with the same ID is dropped, and so is a file without an ID. *)
Theorem batch_loader_first_file_wins (fs : FileSystem) (directory p : string) :
  In p (Batch.sorted_image_paths fs directory)
  <-> exists n,
        Batch.get_image_id p = Some n
        /\ List.find (has_id n) (batch_images_found fs directory) = Some p.
Proof.
  destruct (sorted_dict_facts fs directory) as [sd [Hsd [_ Hin]]].
  rewrite Hsd, in_map_iff. split.
  - intros [[n q] [Hq Hnp]]. cbn in Hq. subst q. exists n.
    apply Hin in Hnp. split; [| exact Hnp].
    apply find_some in Hnp. now apply has_id_spec.
  - intros [n [_ Hf]]. exists (n, p). split; [reflexivity |]. now apply Hin.
Qed.

Lemma pair_up_spec (fs : FileSystem) (paths : list string) :
  Batch.pair_up fs paths = (batch_pairs_of fs paths, batch_unpaired fs paths).
Proof.
  unfold Batch.pair_up.
  enough (H : forall a b,
             fold_left
               (fun acc img_path =>
                  let text_path :=
                    Batch.find_matching_text_file fs img_path in
                  match text_path with
                  | Some t =>
                      if truthy text_path && fs_exists fs t
                      then (fst acc ++ [(img_path, t)], snd acc)
                      else (fst acc, snd acc ++ [img_path])
                  | None => (fst acc, snd acc ++ [img_path])
                  end)
               paths (a, b)
             = (a ++ batch_pairs_of fs paths, b ++ batch_unpaired fs paths))
    by apply (H [] []).
  induction paths as [| p r IH]; intros a b; cbn [fold_left].
  - unfold batch_pairs_of, batch_unpaired. cbn. now rewrite !app_nil_r.
  - unfold batch_pairs_of, batch_unpaired in *.
    cbn [flat_map List.filter fst snd]. cbv zeta. unfold batch_paired at 1 3.
    destruct (Batch.find_matching_text_file fs p) as [t |] eqn:Ef.
    + destruct (truthy (Some t) && fs_exists fs t); cbn [negb];
        rewrite IH, <- ?app_assoc; reflexivity.
    + cbn [negb]. rewrite IH, <- ?app_assoc. reflexivity.
Qed.

Lemma batch_pairs_of_fst (fs : FileSystem) (paths : list string) :
  map fst (batch_pairs_of fs paths) = List.filter (batch_paired fs) paths.
Proof.
  induction paths as [| p r IH]; [reflexivity |].
  unfold batch_pairs_of in *. cbn [flat_map List.filter].
  rewrite map_app, IH.
  assert (Hb : batch_paired fs p
               = match Batch.find_matching_text_file fs p with
                 | Some t => truthy (Some t) && fs_exists fs t
                 | None => false
                 end) by reflexivity.
  destruct (Batch.find_matching_text_file fs p) as [t |].
  - now destruct (batch_paired fs p).
  - now rewrite Hb.
Qed.

Lemma batch_pairs_of_In (fs : FileSystem) (paths : list string)
    (p t : string) :
  In (p, t) (batch_pairs_of fs paths)
  <-> In p paths /\ Batch.find_matching_text_file fs p = Some t
      /\ batch_paired fs p = true.
Proof.
  unfold batch_pairs_of. rewrite in_flat_map. split.
  - intros [q [Hq Hin]].
    destruct (Batch.find_matching_text_file fs q) as [u |] eqn:Ef;
      [| destruct Hin].
    destruct (batch_paired fs q) eqn:Ep; [| destruct Hin].
    destruct Hin as [H | []]. injection H as -> ->. tauto.
  - intros [Hin [Hf Hp]]. exists p. split; [exact Hin |].
    rewrite Hf, Hp. now left.
Qed.

Lemma sapp_nonempty (a b : string) :
  b <> EmptyString -> (a ++ b)%string <> EmptyString.
Proof. destruct a; cbn; [tauto | discriminate]. Qed.

Lemma join_truthy (a b : string) :
  b <> EmptyString -> truthy (Some (Path.join a b)) = true.
Proof.
  intro Hb. unfold Path.join.
  destruct (Py.startswith "/" b); [now destruct b |].
  destruct a as [| c a']; [now destruct b |].
  destruct (Py.endswith (String c a') "/"); reflexivity.
Qed.

Lemma batch_find_exists (fs : FileSystem) (p t : string) :
  Batch.find_matching_text_file fs p = Some t ->
  fs_exists fs t = true
  /\ exists name,
       In name
         (Batch.potential_text_names
            (Py.filter Py.isdigit (fst (Path.splitext (Path.basename p))))
            (fst (Path.splitext (Path.basename p))))
       /\ t = Path.join (Path.dirname p) name.
Proof.
  unfold Batch.find_matching_text_file. cbv zeta.
  destruct (Py.filter Py.isdigit (fst (Path.splitext (Path.basename p))));
    [discriminate |].
  intro H. apply find_some in H as [Hin Hex]. split; [exact Hex |].
  apply in_map_iff in Hin as [name [Hn Hin]]. exists name. now split.
Qed.

Lemma batch_loader_lists (fs : FileSystem) (directory : string) :
  fs_isdir fs directory = true ->
  Batch.load_images_and_texts fs directory
  = let sorted := Batch.sorted_image_paths fs directory in
    (firstn Batch.limit sorted,
     if Batch.limit <? List.length sorted
     then firstn Batch.limit (batch_pairs_of fs sorted)
     else batch_pairs_of fs sorted,
     if Batch.limit <? List.length sorted
     then firstn Batch.limit (batch_unpaired fs sorted)
     else batch_unpaired fs sorted).
Proof.
  intro Hdir. unfold Batch.load_images_and_texts. rewrite Hdir. cbn [negb].
  rewrite pair_up_spec. cbv zeta.
  destruct (Nat.ltb_spec Batch.limit
              (List.length (Batch.sorted_image_paths fs directory)))
    as [Hlt | Hge]; [reflexivity |].
  now rewrite firstn_all2.
Qed.

(** X13.  Pairing in the batch loader: every pair returned joins an image
    kept by the loader with the text file found for it, which exists and
    is one of the six candidate names in the image's directory; every
    image returned as unpaired is an image kept by the loader for which no
    text file was found; and no image is returned both ways. *)
Theorem batch_loader_pairing (fs : FileSystem) (directory : string) :
  let pairs := snd (fst (Batch.load_images_and_texts fs directory)) in
  let only := snd (Batch.load_images_and_texts fs directory) in
  (forall p t, In (p, t) pairs ->
     In p (Batch.sorted_image_paths fs directory)
     /\ Batch.find_matching_text_file fs p = Some t
     /\ fs_exists fs t = true
     /\ exists name,
          In name
            (Batch.potential_text_names
               (Py.filter Py.isdigit (fst (Path.splitext (Path.basename p))))
               (fst (Path.splitext (Path.basename p))))
          /\ t = Path.join (Path.dirname p) name)
  /\ (forall p, In p only ->
        In p (Batch.sorted_image_paths fs directory)
        /\ Batch.find_matching_text_file fs p = None)
  /\ (forall p, In p (map fst pairs) -> ~ In p only)
  /\ List.length pairs <= 1000 /\ List.length only <= 1000.
Proof.
  cbv zeta. destruct (fs_isdir fs directory) eqn:Hdir.
  2:{ unfold Batch.load_images_and_texts. rewrite Hdir. cbn.
      repeat split; try tauto; lia. }
  rewrite (batch_loader_lists fs directory Hdir). cbv zeta. cbn [fst snd].
  set (sorted := Batch.sorted_image_paths fs directory).
  assert (Hp : forall p t,
             In (p, t) (if Batch.limit <? List.length sorted
                        then firstn Batch.limit (batch_pairs_of fs sorted)
                        else batch_pairs_of fs sorted) ->
             In (p, t) (batch_pairs_of fs sorted)).
  { intros p t H. destruct (Batch.limit <? List.length sorted);
      [now apply In_firstn in H | exact H]. }
  assert (Ho : forall p,
             In p (if Batch.limit <? List.length sorted
                   then firstn Batch.limit (batch_unpaired fs sorted)
                   else batch_unpaired fs sorted) ->
             In p (batch_unpaired fs sorted)).
  { intros p H. destruct (Batch.limit <? List.length sorted);
      [now apply In_firstn in H | exact H]. }
  assert (Hfound : forall p,
             batch_paired fs p = false ->
             Batch.find_matching_text_file fs p = None).
  { intros p. unfold batch_paired.
    destruct (Batch.find_matching_text_file fs p) as [t |] eqn:Ef;
      [| reflexivity].
    destruct (batch_find_exists fs p t Ef) as [Hex [name [Hn Ht]]].
    rewrite Hex, andb_true_r. subst t. intro Htr. exfalso.
    rewrite join_truthy in Htr; [discriminate |].
    unfold Batch.potential_text_names in Hn.
    destruct Hn as [<- | [<- | [<- | [<- | [<- | [<- | []]]]]]];
      try discriminate; apply sapp_nonempty; discriminate. }
  split; [| split; [| split; [| split]]].
  - intros p t H. apply Hp, batch_pairs_of_In in H as [Hin [Hf Hpd]].
    destruct (batch_find_exists fs p t Hf) as [Hex Hname]. tauto.
  - intros p H. apply Ho in H. unfold batch_unpaired in H.
    apply filter_In in H as [Hin Hn]. split; [exact Hin |].
    apply Hfound. now destruct (batch_paired fs p).
  - intros p H Hin. apply Ho in Hin. apply in_map_iff in H as [[q t] [Hq H]].
    cbn in Hq. subst q. apply Hp, batch_pairs_of_In in H as [_ [_ Hpd]].
    unfold batch_unpaired in Hin. apply filter_In in Hin as [_ Hn].
    rewrite Hpd in Hn. discriminate.
  - destruct (Nat.ltb_spec Batch.limit (List.length sorted)) as [Hlt | Hge].
    + change 1000 with Batch.limit. apply firstn_le_length.
    + rewrite <- (length_map fst), batch_pairs_of_fst.
      etransitivity; [apply filter_length_le | exact Hge].
  - destruct (Nat.ltb_spec Batch.limit (List.length sorted)) as [Hlt | Hge].
    + change 1000 with Batch.limit. apply firstn_le_length.
    + unfold batch_unpaired.
      etransitivity; [apply filter_length_le | exact Hge].
Qed.

(** X14.  When the directory holds at most 1000 distinct image IDs, the
    pairs and the unpaired images returned by the batch loader split the
    images it returns: each image is in exactly one of the two lists, in
    the order of the image list. *)
Theorem batch_loader_partition (fs : FileSystem) (directory : string) :
  List.length (Batch.sorted_image_paths fs directory) <= 1000 ->
  let all_images := fst (fst (Batch.load_images_and_texts fs directory)) in
  let pairs := snd (fst (Batch.load_images_and_texts fs directory)) in
  let only := snd (Batch.load_images_and_texts fs directory) in
  map fst pairs = List.filter (batch_paired fs) all_images
  /\ only = List.filter (fun p => negb (batch_paired fs p)) all_images
  /\ Permutation (map fst pairs ++ only) all_images
  /\ List.length pairs + List.length only = List.length all_images.
Proof.
  intro Hle. cbv zeta. destruct (fs_isdir fs directory) eqn:Hdir.
  2:{ unfold Batch.load_images_and_texts. rewrite Hdir. cbn.
      repeat split; constructor. }
  rewrite (batch_loader_lists fs directory Hdir). cbv zeta. cbn [fst snd].
  set (sorted := Batch.sorted_image_paths fs directory) in *.
  change 1000 with Batch.limit in Hle.
  destruct (Nat.ltb_spec Batch.limit (List.length sorted)) as [Hlt | _];
    [lia |].
  rewrite (firstn_all2 sorted Hle), batch_pairs_of_fst.
  fold (batch_unpaired fs sorted).
  assert (Hperm : Permutation
                    (List.filter (batch_paired fs) sorted
                     ++ batch_unpaired fs sorted) sorted).
  { unfold batch_unpaired. clear. induction sorted as [| p r IH];
      cbn [List.filter app]; [constructor |].
    destruct (batch_paired fs p); cbn [negb app].
    - now constructor.
    - apply Permutation_sym, Permutation_cons_app, Permutation_sym, IH. }
  repeat split; try exact Hperm.
  rewrite <- (length_map fst (batch_pairs_of fs sorted)), batch_pairs_of_fst,
    <- List.length_app.
  now apply Permutation_length.
Qed.

Lemma batch_loader_partition_witness :
  let fs := {| fs_isdir := fun _ => true;
               fs_listdir := fun _ =>
                 ["image2.jpg"; "image1.png"; "notes.txt"; "img2.jpeg"];
               fs_exists := fun p => String.eqb p "data/text1.txt";
               fs_encodes := fun _ => true;
               fs_read_utf8 := fun _ => ReadOtherError;
               fs_read_latin1 := fun _ => ReadOtherError |} in
  let all_images := fst (fst (Batch.load_images_and_texts fs "data")) in
  let pairs := snd (fst (Batch.load_images_and_texts fs "data")) in
  let only := snd (Batch.load_images_and_texts fs "data") in
  map fst pairs = List.filter (batch_paired fs) all_images
  /\ only = List.filter (fun p => negb (batch_paired fs p)) all_images
  /\ Permutation (map fst pairs ++ only) all_images
  /\ List.length pairs + List.length only = List.length all_images.
Proof.
  cbv zeta. apply batch_loader_partition. vm_compute. lia.
Defined.

(** ** What is left to process in batch mode *)

Lemma after_last_contains (c : ascii) (s : string) :
  Path.after_last c s = None -> Py.contains c s = false.
Proof.
  induction s as [| d r IH]; cbn; [reflexivity |].
  destruct (Path.after_last c r); [discriminate |].
  destruct (Ascii.eqb d c); [discriminate |]. intros _. now apply IH.
Qed.

Lemma after_last_no_sep (c : ascii) (s t : string) :
  Path.after_last c s = Some t -> Py.contains c t = false.
Proof.
  induction s as [| d r IH]; cbn; [discriminate |].
  destruct (Path.after_last c r) as [u |] eqn:E.
  - intro H. injection H as <-. now apply IH.
  - destruct (Ascii.eqb d c); [| discriminate].
    intro H. injection H as <-. now apply after_last_contains.
Qed.

Lemma basename_idem (p : string) :
  Path.basename (Path.basename p) = Path.basename p.
Proof.
  apply basename_bare. unfold Path.basename.
  destruct (Path.after_last Path.sep p) as [t |] eqn:E.
  - now apply after_last_no_sep in E.
  - now apply after_last_contains.
Qed.

Lemma not_processed_iff (processed : list string) (p : string) :
  Batch.not_processed processed p = true
  <-> exists n, Batch.get_image_id p = Some n
                /\ ~ In (Py.str n) processed.
Proof.
  unfold Batch.not_processed, Batch.get_image_id. rewrite basename_idem.
  destruct (Py.int _) as [n |].
  - rewrite negb_true_iff, <- not_true_iff_false, str_in_spec. split.
    + intro H. now exists n.
    + intros [m [Hm H]]. now injection Hm as ->.
  - split; [discriminate | intros [m [Hm _]]; discriminate].
Qed.

Lemma sorted_has_id (fs : FileSystem) (directory p : string) :
  In p (Batch.sorted_image_paths fs directory) ->
  exists n, Batch.get_image_id p = Some n.
Proof.
  destruct (sorted_dict_facts fs directory) as [sd [Hsd [_ Hin]]].
  rewrite Hsd, in_map_iff. intros [[n q] [Hq Hnp]]. cbn in Hq. subst q.
  exists n. apply Hin, find_some in Hnp. now apply has_id_spec.
Qed.

Lemma filter_all {A : Type} (f : A -> bool) (l : list A) :
  (forall x, In x l -> f x = true) -> List.filter f l = l.
Proof.
  induction l as [| x r IH]; intro H; cbn [List.filter]; [reflexivity |].
  rewrite (H x (or_introl eq_refl)), IH; [reflexivity |].
  intros y Hy. apply H. now right.
Qed.

Lemma batch_loaded_pairs_have_id (fs : FileSystem) (directory : string)
    (p t : string) :
  In (p, t) (snd (fst (Batch.load_images_and_texts fs directory))) ->
  In p (Batch.sorted_image_paths fs directory).
Proof.
  destruct (fs_isdir fs directory) eqn:Hdir.
  2:{ unfold Batch.load_images_and_texts. rewrite Hdir. intros []. }
  rewrite (batch_loader_lists fs directory Hdir). cbv zeta. cbn [fst snd].
  intro H.
  assert (H' : In (p, t)
                 (batch_pairs_of fs (Batch.sorted_image_paths fs directory))).
  { destruct (Batch.limit <? _); [now apply In_firstn in H | exact H]. }
  now apply batch_pairs_of_In in H'.
Qed.

(** X15.  What is left to process in batch mode: of the images the loader
    returned, exactly those whose ID, written in decimal, is not a key of
    the results loaded from the checkpoint, in the loader's order (IDs
    strictly ascending); without a checkpoint every image and every pair
    is left to process. *)
Theorem batch_remaining_spec (fs : FileSystem) (directory : string)
    (processed : list string) :
  let all_images := fst (fst (Batch.load_images_and_texts fs directory)) in
  let pairs := snd (fst (Batch.load_images_and_texts fs directory)) in
  (forall p,
      In p (Batch.get_remaining_images all_images processed)
      <-> In p all_images
          /\ exists n, Batch.get_image_id p = Some n
                       /\ ~ In (Py.str n) processed)
  /\ (forall p t,
        In (p, t) (Batch.get_remaining_image_text_pairs pairs processed)
        <-> In (p, t) pairs
            /\ exists n, Batch.get_image_id p = Some n
                         /\ ~ In (Py.str n) processed)
  /\ (exists ids,
        map Batch.get_image_id
          (Batch.get_remaining_images all_images processed) = map Some ids
        /\ StronglySorted N.lt ids)
  /\ Batch.get_remaining_images all_images [] = all_images
  /\ Batch.get_remaining_image_text_pairs pairs [] = pairs.
Proof.
  cbv zeta. split; [| split; [| split; [| split]]].
  - intro p. unfold Batch.get_remaining_images.
    now rewrite filter_In, not_processed_iff.
  - intros p t. unfold Batch.get_remaining_image_text_pairs.
    now rewrite filter_In, not_processed_iff.
  - rewrite batch_all_images.
    destruct (fs_isdir fs directory);
      [| exists []; split; [reflexivity | constructor]].
    destruct (sorted_dict_facts fs directory) as [sd [Hsd [Hsorted Hin]]].
    unfold Batch.get_remaining_images.
    exists (map fst
              (List.filter (fun e => Batch.not_processed processed (snd e))
                 (firstn Batch.limit sd))).
    rewrite Hsd, firstn_map.
    assert (Hid : forall e, In e (firstn Batch.limit sd) ->
                            Batch.get_image_id (snd e) = Some (fst e)).
    { intros [n p] He. apply In_firstn in He.
      apply Hin, find_some in He. now apply has_id_spec. }
    assert (Hs : StronglySorted N.lt (map fst (firstn Batch.limit sd))).
    { rewrite <- firstn_map. now apply strongly_sorted_firstn. }
    revert Hid Hs. generalize (firstn Batch.limit sd) as l. intros l Hid Hs.
    split.
    + induction l as [| e r IH]; [reflexivity |].
      cbn [map List.filter snd].
      inversion Hs; subst.
      destruct (Batch.not_processed processed (snd e)); cbn [map].
      * rewrite (Hid e (or_introl eq_refl)). f_equal.
        apply IH; [| assumption]. intros x Hx. apply Hid. now right.
      * apply IH; [| assumption]. intros x Hx. apply Hid. now right.
    + apply (proj1 (strongly_sorted_map N.lt fst _)).
      apply strongly_sorted_filter.
      now apply (proj2 (strongly_sorted_map N.lt fst l)).
  - apply filter_all. intros p Hp. apply not_processed_iff.
    rewrite batch_all_images in Hp.
    destruct (fs_isdir fs directory); [| destruct Hp].
    apply In_firstn, sorted_has_id in Hp as [n Hn]. exists n.
    split; [exact Hn | intros []].
  - apply filter_all. intros [p t] Hp. apply not_processed_iff. cbn [fst].
    apply batch_loaded_pairs_have_id, sorted_has_id in Hp as [n Hn].
    exists n. split; [exact Hn | intros []].
Qed.

(** ** Direct-mode loader *)

Lemma key_lt_asym (a b : option N) :
  Gemini.key_lt a b = true -> Gemini.key_lt b a = false.
Proof.
  destruct a as [x |], b as [y |]; cbn; try congruence.
  rewrite N.ltb_lt, N.ltb_ge. lia.
Qed.

Lemma key_le_opt_trans (a b c : option N) :
  key_le_opt a b -> key_le_opt b c -> key_le_opt a c.
Proof.
  unfold key_le_opt.
  destruct a as [x |], b as [y |], c as [z |]; cbn; try congruence.
  rewrite !N.ltb_ge. lia.
Qed.

Lemma gemini_find_exists (fs : FileSystem) (p t : string) :
  Gemini.find_matching_text_file fs p = Some t ->
  fs_exists fs t = true /\ truthy (Some t) = true.
Proof.
  unfold Gemini.find_matching_text_file. cbv zeta.
  destruct (fs_exists fs (Path.join _ (_ ++ ".txt"))) eqn:E1.
  { intro H. injection H as <-. split; [exact E1 |].
    apply join_truthy, sapp_nonempty. discriminate. }
  destruct (fs_exists fs (Path.join _ (_ ++ ".text"))) eqn:E2.
  { intro H. injection H as <-. split; [exact E2 |].
    apply join_truthy, sapp_nonempty. discriminate. }
  destruct (Gemini.get_image_id_from_path p) as [n |]; [| discriminate].
  intro H. apply find_some in H as [Hin Hex]. split; [exact Hex |].
  apply in_map_iff in Hin as [name [<- Hn]]. apply join_truthy.
  destruct Hn as [<- | [<- | [<- | [<- | []]]]];
    try discriminate; apply sapp_nonempty; discriminate.
Qed.

Lemma classify_eq (fs : FileSystem) (p : string) :
  Gemini.classify fs p
  = {| Gemini.image_path := p;
       Gemini.text_path := Gemini.find_matching_text_file fs p |}.
Proof.
  unfold Gemini.classify. cbv zeta.
  destruct (Gemini.find_matching_text_file fs p) as [t |] eqn:E.
  - destruct (gemini_find_exists fs p t E) as [-> ->]. reflexivity.
  - reflexivity.
Qed.

Lemma gemini_paths_sorted (fs : FileSystem) (data_dir : string) :
  StronglySorted key_le_opt
    (map Gemini.get_image_id_from_path (Gemini.image_paths_found fs data_dir))
  /\ (forall n, exists r,
         Permutation
           (firstn n (map snd
              (sort_by Gemini.key_lt
                 (map (fun p => (Gemini.get_image_id_from_path p, p))
                    (gemini_images_found fs data_dir))))
            ++ r)
           (gemini_images_found fs data_dir)).
Proof.
  unfold Gemini.image_paths_found. fold (gemini_images_found fs data_dir).
  set (found := gemini_images_found fs data_dir).
  set (dl := sort_by Gemini.key_lt
               (map (fun p => (Gemini.get_image_id_from_path p, p)) found)).
  assert (Hperm : Permutation dl
            (map (fun p => (Gemini.get_image_id_from_path p, p)) found))
    by apply sort_by_perm_gen.
  split.
  - rewrite firstn_map, map_map.
    assert (Hkey : forall e, In e dl ->
                             Gemini.get_image_id_from_path (snd e) = fst e).
    { intros e He. apply (Permutation_in _ Hperm) in He.
      apply in_map_iff in He as [p [<- _]]. reflexivity. }
    rewrite (map_ext_in _ fst).
    2:{ intros e He. apply Hkey. now apply In_firstn in He. }
    apply (proj1 (strongly_sorted_map key_le_opt fst _)).
    apply strongly_sorted_firstn.
    apply (Sorted_StronglySorted
             (R := fun a b : option N * string =>
                     key_le_opt (fst a) (fst b))).
    + intros a b c. apply key_le_opt_trans.
    + apply (sort_by_sorted_gen Gemini.key_lt key_lt_asym).
  - intro n. exists (skipn n (map snd dl)). rewrite firstn_skipn.
    apply (Permutation_map snd) in Hperm. rewrite map_map in Hperm.
    cbn [snd] in Hperm. now rewrite map_id in Hperm.
Qed.

Lemma filter_map_comm {A B : Type} (f : B -> bool) (g : A -> B)
    (l : list A) :
  List.filter f (map g l) = map g (List.filter (fun x => f (g x)) l).
Proof.
  induction l as [| x r IH]; [reflexivity |]. cbn [map List.filter].
  destruct (f (g x)); cbn [map]; now rewrite IH.
Qed.

Lemma gemini_loaded_items (fs : FileSystem) (data_dir : string) :
  fs_isdir fs data_dir = true ->
  Gemini.load_data_items fs data_dir
  = (map (Gemini.classify fs)
       (List.filter
          (fun p => negb (truthy (Gemini.find_matching_text_file fs p)))
          (Gemini.image_paths_found fs data_dir)),
     map (Gemini.classify fs)
       (List.filter (fun p => truthy (Gemini.find_matching_text_file fs p))
          (Gemini.image_paths_found fs data_dir))).
Proof.
  intro Hdir. unfold Gemini.load_data_items. rewrite Hdir. cbn [negb].
  rewrite !filter_map_comm. f_equal; f_equal; apply filter_ext; intro p;
    now rewrite classify_eq.
Qed.

(** X16.  The direct-mode loader: an item of the image-text list carries
    the text file found for its image, which exists; an item of the
    image-only list carries no text file, none having been found; every
    item is an image file of the directory; both lists are in
    non-decreasing order of ID, the files without ID last; together they
    hold at most 1000 items; a path that is not a directory gives two
    empty lists. *)
Theorem gemini_loader_spec (fs : FileSystem) (data_dir : string) :
  let only := fst (Gemini.load_data_items fs data_dir) in
  let txt := snd (Gemini.load_data_items fs data_dir) in
  (forall it, In it txt ->
     exists t, Gemini.text_path it = Some t
               /\ fs_exists fs t = true
               /\ Gemini.find_matching_text_file fs (Gemini.image_path it)
                  = Some t)
  /\ (forall it, In it only ->
        Gemini.text_path it = None
        /\ Gemini.find_matching_text_file fs (Gemini.image_path it) = None)
  /\ (forall it, In it (only ++ txt) ->
        exists f, In f (fs_listdir fs data_dir)
                  /\ has_extension Gemini.image_suffixes f = true
                  /\ Gemini.image_path it = Path.join data_dir f)
  /\ StronglySorted key_le_opt (map item_id only)
  /\ StronglySorted key_le_opt (map item_id txt)
  /\ List.length only + List.length txt <= 1000
  /\ (fs_isdir fs data_dir = false ->
      Gemini.load_data_items fs data_dir = ([], [])).
Proof.
  cbv zeta. destruct (fs_isdir fs data_dir) eqn:Hdir.
  2:{ unfold Gemini.load_data_items. rewrite Hdir. cbn.
      repeat split; try tauto; try constructor; try lia;
        intros it []. }
  rewrite (gemini_loaded_items fs data_dir Hdir). cbn [fst snd].
  destruct (gemini_paths_sorted fs data_dir) as [Hsorted _].
  set (paths := Gemini.image_paths_found fs data_dir) in *.
  assert (Hfound : forall p, In p paths ->
             exists f, In f (fs_listdir fs data_dir)
                       /\ has_extension Gemini.image_suffixes f = true
                       /\ p = Path.join data_dir f).
  { intros p Hp. unfold paths, Gemini.image_paths_found in Hp.
    apply In_firstn in Hp. apply in_map_iff in Hp as [[k q] [Hq Hp]].
    cbn in Hq. subst q.
    apply (Permutation_in _ (sort_by_perm_gen Gemini.key_lt _)) in Hp.
    apply in_map_iff in Hp as [q [Hq Hp]]. injection Hq as _ ->.
    apply in_map_iff in Hp as [f [Hf Hfl]]. apply filter_In in Hfl.
    exists f. symmetry in Hf. tauto. }
  assert (Hids : forall g,
             map item_id (map (Gemini.classify fs) (List.filter g paths))
             = map Gemini.get_image_id_from_path (List.filter g paths)).
  { intro g. rewrite map_map. apply map_ext. intro p.
    now rewrite classify_eq. }
  assert (Hsub : forall g,
             StronglySorted key_le_opt
               (map Gemini.get_image_id_from_path (List.filter g paths))).
  { intro g.
    apply (proj1 (strongly_sorted_map key_le_opt
                    Gemini.get_image_id_from_path _)).
    apply strongly_sorted_filter.
    now apply (proj2 (strongly_sorted_map key_le_opt
                        Gemini.get_image_id_from_path paths)). }
  split; [| split; [| split; [| split; [| split; [| split]]]]].
  - intros it Hit. apply in_map_iff in Hit as [p [<- Hp]].
    apply filter_In in Hp as [_ Ht]. rewrite classify_eq.
    cbn [Gemini.text_path Gemini.image_path].
    destruct (Gemini.find_matching_text_file fs p) as [t |] eqn:E;
      [| discriminate].
    exists t. destruct (gemini_find_exists fs p t E). tauto.
  - intros it Hit. apply in_map_iff in Hit as [p [<- Hp]].
    apply filter_In in Hp as [_ Ht]. rewrite classify_eq.
    cbn [Gemini.text_path Gemini.image_path].
    destruct (Gemini.find_matching_text_file fs p) as [t |] eqn:E;
      [| tauto].
    destruct (gemini_find_exists fs p t E) as [_ Htr].
    rewrite Htr in Ht. discriminate.
  - intros it Hit. apply in_app_or in Hit.
    assert (Hp : exists p, Gemini.classify fs p = it /\ In p paths).
    { destruct Hit as [Hit | Hit]; apply in_map_iff in Hit as [p [<- Hp]];
        apply filter_In in Hp as [Hp _]; now exists p. }
    destruct Hp as [p [<- Hp]]. rewrite classify_eq.
    cbn [Gemini.image_path]. now apply Hfound.
  - rewrite Hids. apply Hsub.
  - rewrite Hids. apply Hsub.
  - rewrite !length_map.
    assert (Hlen : List.length paths <= 1000).
    { unfold paths, Gemini.image_paths_found.
      change 1000 with Gemini.limit. apply firstn_le_length. }
    enough (List.length
              (List.filter
                 (fun p =>
                    negb (truthy (Gemini.find_matching_text_file fs p)))
                 paths)
            + List.length
                (List.filter
                   (fun p => truthy (Gemini.find_matching_text_file fs p))
                   paths)
            = List.length paths) by lia.
    clear. induction paths as [| p r IH]; [reflexivity |].
    cbn [List.filter].
    destruct (truthy (Gemini.find_matching_text_file fs p));
      cbn [negb List.length]; lia.
  - discriminate.
Qed.

Lemma filter_split_perm {A : Type} (f : A -> bool) (l : list A) :
  Permutation (List.filter (fun x => negb (f x)) l ++ List.filter f l) l.
Proof.
  induction l as [| x r IH]; cbn [List.filter app]; [constructor |].
  destruct (f x); cbn [negb app].
  - apply Permutation_sym, Permutation_cons_app, Permutation_sym, IH.
  - now constructor.
Qed.

(** X17.  When the directory holds at most 1000 image files, the
    direct-mode loader returns every one of them exactly once, in one of
    its two lists: a file without an ID and files that share an ID are all
    kept (the batch loader drops them). *)
Theorem gemini_loader_complete (fs : FileSystem) (data_dir : string) :
  fs_isdir fs data_dir = true ->
  List.length (gemini_images_found fs data_dir) <= 1000 ->
  Permutation
    (map Gemini.image_path
       (fst (Gemini.load_data_items fs data_dir)
        ++ snd (Gemini.load_data_items fs data_dir)))
    (gemini_images_found fs data_dir).
Proof.
  intros Hdir Hlen. rewrite (gemini_loaded_items fs data_dir Hdir).
  cbn [fst snd]. rewrite <- map_app, map_map.
  rewrite (map_ext _ (fun p => p)), map_id
    by (intro p; now rewrite classify_eq).
  rewrite filter_split_perm.
  unfold Gemini.image_paths_found. fold (gemini_images_found fs data_dir).
  rewrite firstn_all2.
  - rewrite (Permutation_map snd (sort_by_perm_gen Gemini.key_lt _)).
    rewrite map_map. cbn [snd]. now rewrite map_id.
  - rewrite length_map,
      (Permutation_length (sort_by_perm_gen Gemini.key_lt _)), length_map.
    exact Hlen.
Qed.

Lemma gemini_loader_complete_witness :
  let fs := {| fs_isdir := fun _ => true;
               fs_listdir := fun _ =>
                 ["image2.jpg"; "cover.webp"; "notes.txt"; "img2.jpeg";
                  "image1.png"];
               fs_exists := fun p => String.eqb p "data/text1.txt";
               fs_encodes := fun _ => true;
               fs_read_utf8 := fun _ => ReadOtherError;
               fs_read_latin1 := fun _ => ReadOtherError |} in
  Permutation
    (map Gemini.image_path
       (fst (Gemini.load_data_items fs "data")
        ++ snd (Gemini.load_data_items fs "data")))
    ["data/image2.jpg"; "data/cover.webp"; "data/img2.jpeg";
     "data/image1.png"].
Proof.
  cbv zeta.
  apply (gemini_loader_complete
           {| fs_isdir := fun _ => true;
              fs_listdir := fun _ =>
                ["image2.jpg"; "cover.webp"; "notes.txt"; "img2.jpeg";
                 "image1.png"];
              fs_exists := fun p => String.eqb p "data/text1.txt";
              fs_encodes := fun _ => true;
              fs_read_utf8 := fun _ => ReadOtherError;
              fs_read_latin1 := fun _ => ReadOtherError |} "data").
  - reflexivity.
  - vm_compute. lia.
Defined.

(** ** File names *)

Lemma lang_code_cases (l c : string) :
  lang_code l = Some c ->
  (l = "English" /\ c = "En") \/ (l = "Japanese" /\ c = "Jp")
  \/ (l = "Swahili" /\ c = "Sw") \/ (l = "Urdu" /\ c = "Ur").
Proof.
  unfold lang_code.
  destruct (String.eqb l "English") eqn:E1;
    [apply String.eqb_eq in E1; intro H; injection H as <-; tauto |].
  destruct (String.eqb l "Japanese") eqn:E2;
    [apply String.eqb_eq in E2; intro H; injection H as <-; tauto |].
  destruct (String.eqb l "Swahili") eqn:E3;
    [apply String.eqb_eq in E3; intro H; injection H as <-; tauto |].
  destruct (String.eqb l "Urdu") eqn:E4;
    [apply String.eqb_eq in E4; intro H; injection H as <-; tauto |].
  discriminate.
Qed.

Lemma checkpoint_path_shape (m : mode) (l : string) (t : N) (f : string) :
  checkpoint_path m l t = Some f ->
  exists c,
    lang_code l = Some c
    /\ f = ((match m with
             | Direct => "./outputs/gemini-2.0-flash-lite/"
             | Batched => "./outputs/gpt-4o/"
             end ++ "checkpoints_1shot_rationales/checkpoint_task")
            ++ Py.str t ++ String "_" (c ++ ".json"))%string.
Proof.
  destruct m; cbn [checkpoint_path];
    unfold Gemini.get_checkpoint_filename, Batch.get_checkpoint_filename;
    destruct (lang_code l) as [c |]; try discriminate;
    intro H; injection H as <-; exists c; (split; [reflexivity |]);
    reflexivity.
Qed.

(** X18.  Checkpoint files never collide: when two (script, language,
    task) triples are given the same checkpoint path, they are the same
    triple; a language that is not configured has no checkpoint path. *)
Theorem checkpoint_paths_distinct (m1 m2 : mode) (l1 l2 : string)
    (t1 t2 : N) (f : string) :
  checkpoint_path m1 l1 t1 = Some f ->
  checkpoint_path m2 l2 t2 = Some f ->
  m1 = m2 /\ l1 = l2 /\ t1 = t2.
Proof.
  intros H1 H2.
  apply checkpoint_path_shape in H1 as [c1 [Hc1 H1]].
  apply checkpoint_path_shape in H2 as [c2 [Hc2 H2]].
  rewrite H1 in H2. clear H1.
  assert (Hm : m1 = m2).
  { destruct m1, m2; try reflexivity; cbn in H2; discriminate. }
  subst m2. split; [reflexivity |].
  apply sapp_inv_head, digits_split in H2 as [Ht Hc];
    try apply str_digits.
  apply str_inj in Ht.
  apply lang_code_cases in Hc1, Hc2.
  destruct Hc1 as [[-> ->] | [[-> ->] | [[-> ->] | [-> ->]]]],
           Hc2 as [[-> ->] | [[-> ->] | [[-> ->] | [-> ->]]]];
    try discriminate; now split.
Qed.

Lemma checkpoint_paths_distinct_witness :
  checkpoint_path Direct "Urdu" 3
  = Some "./outputs/gemini-2.0-flash-lite/checkpoints_1shot_rationales/checkpoint_task3_Ur.json"
  /\ (Direct = Direct /\ "Urdu" = "Urdu" /\ 3%N = 3%N).
Proof.
  split; [reflexivity |].
  apply (checkpoint_paths_distinct Direct Direct "Urdu" "Urdu" 3 3
           "./outputs/gemini-2.0-flash-lite/checkpoints_1shot_rationales/checkpoint_task3_Ur.json");
    reflexivity.
Defined.

Lemma output_path_shape (m : mode) (l : string) (t : N) (f : string) :
  output_path m l t = Some f ->
  exists c,
    lang_code l = Some c
    /\ f = ((match m with
             | Direct => "./outputs/gemini-2.0-flash-lite/"
             | Batched => "./outputs/gpt-4o/"
             end ++ "results_1shot_rationales/" ++ l ++ "/results_"
             ++ match m with
                | Direct => "gemini-2.0-flash-lite"
                | Batched => "gpt-4o"
                end ++ "_1shot_" ++ c ++ "_task")
            ++ Py.str t ++ String "_" "Rationales.json")%string.
Proof.
  intro H.
  assert (Hc : exists c, lang_code l = Some c).
  { destruct m; cbn [output_path] in H;
      unfold Gemini.output_filename, Batch.output_filename in H;
      destruct (lang_code l) as [c |]; try discriminate; now exists c. }
  destruct Hc as [c Hc]. exists c. split; [exact Hc |].
  pose proof (lang_code_cases l c Hc) as Hl.
  destruct m; cbn [output_path] in H;
    unfold Gemini.output_filename, Batch.output_filename in H;
    rewrite Hc in H; injection H as <-;
    destruct Hl as [[-> ->] | [[-> ->] | [[-> ->] | [-> ->]]]];
    reflexivity.
Qed.

(** X19.  Result files never collide: when two (script, language, task)
    triples are given the same result path, they are the same triple; and
    a result path is never the checkpoint path of any triple. *)
Theorem output_paths_distinct (m1 m2 : mode) (l1 l2 : string)
    (t1 t2 : N) (f : string) :
  output_path m1 l1 t1 = Some f ->
  output_path m2 l2 t2 = Some f ->
  (m1 = m2 /\ l1 = l2 /\ t1 = t2)
  /\ forall m l t, checkpoint_path m l t <> Some f.
Proof.
  intros H1 H2.
  apply output_path_shape in H1 as [c1 [Hc1 H1]].
  apply output_path_shape in H2 as [c2 [Hc2 H2]].
  pose proof (lang_code_cases l1 c1 Hc1) as Hl1.
  pose proof (lang_code_cases l2 c2 Hc2) as Hl2.
  split.
  - rewrite H1 in H2. clear H1.
    assert (Hm : m1 = m2).
    { destruct m1, m2; try reflexivity; cbn in H2; discriminate. }
    subst m2. split; [reflexivity |].
    destruct m1,
      Hl1 as [[-> ->] | [[-> ->] | [[-> ->] | [-> ->]]]],
      Hl2 as [[-> ->] | [[-> ->] | [[-> ->] | [-> ->]]]];
      try (cbn in H2; discriminate);
      (split; [reflexivity |]);
      apply sapp_inv_head, digits_split in H2 as [Ht _];
      try apply str_digits; now apply str_inj in Ht.
  - intros m l t Hck.
    apply checkpoint_path_shape in Hck as [c [_ Hck]].
    rewrite H1 in Hck. clear - Hck.
    destruct m1, m; cbn in Hck; discriminate.
Qed.

Lemma output_paths_distinct_witness :
  output_path Batched "Swahili" 8
  = Some "./outputs/gpt-4o/results_1shot_rationales/Swahili/results_gpt-4o_1shot_Sw_task8_Rationales.json"
  /\ (Batched = Batched /\ "Swahili" = "Swahili" /\ 8%N = 8%N)
  /\ forall m l t,
       checkpoint_path m l t
       <> Some "./outputs/gpt-4o/results_1shot_rationales/Swahili/results_gpt-4o_1shot_Sw_task8_Rationales.json".
Proof.
  split; [reflexivity |].
  apply (output_paths_distinct Batched Batched "Swahili" "Swahili" 8 8);
    reflexivity.
Defined.

(** ** Cleaning up batch files *)

Lemma decorate_total_bool {K A : Type} (key : A -> option K) (l : list A) :
  List.forallb (fun x => match key x with Some _ => true | None => false end)
    l = true ->
  exists dl, decorate key l = Some dl.
Proof.
  induction l as [| x r IH]; cbn [List.forallb decorate];
    [now exists [] |].
  intro H. apply andb_true_iff in H as [Hx Hr].
  destruct (IH Hr) as [dr ->]. destruct (key x) as [k |]; [| discriminate].
  now exists ((k, x) :: dr).
Qed.

Lemma decorate_none {K A : Type} (key : A -> option K) (l : list A)
    (x : A) :
  In x l -> key x = None -> decorate key l = None.
Proof.
  induction l as [| y r IH]; cbn [decorate In]; [tauto |].
  intros [-> | Hin] Hx.
  - now rewrite Hx.
  - rewrite (IH Hin Hx). now destruct (key y).
Qed.

Lemma strongly_sorted_split {A : Type} (R : A -> A -> Prop) (n : nat)
    (l : list A) (x y : A) :
  StronglySorted R l -> In x (firstn n l) -> In y (skipn n l) -> R x y.
Proof.
  intro H. revert n. induction H as [| z r Hs IH Hall]; intros [| n];
    cbn [firstn skipn In]; try tauto.
  intros [-> | Hx] Hy.
  - rewrite Forall_forall in Hall. apply Hall. now apply In_skipn in Hy.
  - now apply (IH n).
Qed.

(** X20.  Cleaning up batch files: when every file's modification time
    can be read, the files removed and the files kept together are the
    files found, [keep_last_n] of them are kept (all, when there are
    fewer), and no removed file is newer than a kept one. *)
Theorem cleanup_keeps_newest (getmtime : string -> option N)
    (files : list string) (keep_last_n : nat) :
  List.forallb (has_mtime getmtime) files = true ->
  let removed := Batch.cleanup_batch_files getmtime files keep_last_n in
  let kept := kept_batch_files getmtime files keep_last_n in
  Permutation (kept ++ removed) files
  /\ List.length kept = Nat.min keep_last_n (List.length files)
  /\ List.length removed = List.length files - keep_last_n
  /\ forall k r, In k kept -> In r removed ->
       exists tk tr, getmtime k = Some tk /\ getmtime r = Some tr
                     /\ (tr <= tk)%N.
Proof.
  intro Hall. cbv zeta.
  unfold Batch.cleanup_batch_files, kept_batch_files, Batch.newest_first.
  destruct (decorate_total_bool getmtime files Hall) as [dl Hdl].
  rewrite Hdl.
  destruct (decorate_spec getmtime files dl Hdl) as [Hsnd Hkeys].
  set (lt := fun a b : N => N.ltb b a).
  set (sd := sort_by lt dl).
  assert (Hperm : Permutation sd dl) by apply sort_by_perm_gen.
  assert (Hlen : List.length (map snd sd) = List.length files).
  { rewrite length_map, (Permutation_length Hperm), <- Hsnd.
    now rewrite length_map. }
  split; [| split; [| split]].
  - rewrite firstn_skipn, <- Hsnd. now apply Permutation_map.
  - now rewrite length_firstn, Hlen.
  - now rewrite length_skipn, Hlen.
  - intros k r Hk Hr.
    rewrite firstn_map in Hk. rewrite skipn_map in Hr.
    apply in_map_iff in Hk as [[tk k'] [Ek Hk]].
    apply in_map_iff in Hr as [[tr r'] [Er Hr]]. cbn in Ek, Er. subst k' r'.
    assert (Hsorted : StronglySorted
                        (fun a b : N * string => (fst b <= fst a)%N) sd).
    { apply Sorted_StronglySorted; [intros a b c; lia |].
      assert (Hs : Sorted (not_after lt) sd).
      { apply sort_by_sorted_gen. intros a b. unfold lt.
        rewrite N.ltb_lt, N.ltb_ge. lia. }
      clear - Hs. induction Hs as [| x l Hs IH Hhd]; constructor;
        [exact IH |].
      destruct Hhd as [| y l' Hxy]; constructor.
      unfold not_after, lt in Hxy. now apply N.ltb_ge in Hxy. }
    pose proof (strongly_sorted_split _ keep_last_n sd _ _ Hsorted Hk Hr)
      as Hle. cbn [fst] in Hle.
    rewrite Forall_forall in Hkeys.
    exists tk, tr. repeat split; [| | exact Hle].
    + apply (Hkeys (tk, k)).
      apply (Permutation_in _ Hperm). now apply In_firstn in Hk.
    + apply (Hkeys (tr, r)).
      apply (Permutation_in _ Hperm). now apply In_skipn in Hr.
Qed.

Lemma cleanup_keeps_newest_witness :
  let getmtime := fun f : string =>
    if String.eqb f "a.jsonl" then Some 30%N
    else if String.eqb f "b.jsonl" then Some 10%N
    else if String.eqb f "c.jsonl" then Some 20%N
    else None in
  let files := ["a.jsonl"; "b.jsonl"; "c.jsonl"] in
  let removed := Batch.cleanup_batch_files getmtime files 2 in
  let kept := kept_batch_files getmtime files 2 in
  removed = ["b.jsonl"]
  /\ Permutation (kept ++ removed) files
  /\ List.length kept = Nat.min 2 (List.length files)
  /\ List.length removed = List.length files - 2
  /\ forall k r, In k kept -> In r removed ->
       exists tk tr, getmtime k = Some tk /\ getmtime r = Some tr
                     /\ (tr <= tk)%N.
Proof.
  cbv zeta. split; [reflexivity |].
  apply (cleanup_keeps_newest
           (fun f : string =>
              if String.eqb f "a.jsonl" then Some 30%N
              else if String.eqb f "b.jsonl" then Some 10%N
              else if String.eqb f "c.jsonl" then Some 20%N
              else None)
           ["a.jsonl"; "b.jsonl"; "c.jsonl"] 2).
  reflexivity.
Defined.

(** X21.  Cleaning up batch files removes nothing when the modification
    time of one of the files cannot be read (the sort raises before any
    removal), and nothing when no more than [keep_last_n] files are
    found. *)
Theorem cleanup_removes_nothing (getmtime : string -> option N)
    (files : list string) (keep_last_n : nat) :
  List.forallb (has_mtime getmtime) files = false
  \/ List.length files <= keep_last_n ->
  Batch.cleanup_batch_files getmtime files keep_last_n = [].
Proof.
  unfold Batch.cleanup_batch_files, Batch.newest_first.
  intros [Hnone | Hfew].
  - assert (Hx : exists x, In x files /\ getmtime x = None).
    { induction files as [| f r IH]; [discriminate |].
      cbn [List.forallb] in Hnone. apply andb_false_iff in Hnone.
      unfold has_mtime at 1 in Hnone.
      destruct (getmtime f) eqn:Ef.
      - destruct Hnone as [Hnone | Hnone]; [discriminate |].
        destruct (IH Hnone) as [x [Hin Hx]]. exists x. split; [now right |].
        exact Hx.
      - exists f. split; [now left | exact Ef]. }
    destruct Hx as [x [Hin Hx]].
    now rewrite (decorate_none getmtime files x Hin Hx).
  - destruct (decorate getmtime files) as [dl |] eqn:Hdl; [| reflexivity].
    apply skipn_all2. rewrite length_map.
    rewrite (Permutation_length (sort_by_perm_gen _ dl)).
    destruct (decorate_spec getmtime files dl Hdl) as [Hsnd _].
    rewrite <- Hsnd, length_map in Hfew. exact Hfew.
Qed.

Lemma cleanup_removes_nothing_witness :
  Batch.cleanup_batch_files
    (fun f : string => if String.eqb f "a.jsonl" then Some 30%N else None)
    ["a.jsonl"; "b.jsonl"; "c.jsonl"] 1 = [].
Proof.
  apply cleanup_removes_nothing. left. reflexivity.
Defined.

(** ** Which items a direct-mode run sends *)

Lemma failed_attempts_calls (delay a k b : nat) :
  In (Gemini.EvCall b) (failed_attempts delay a k) -> a <= b < a + k.
Proof.
  revert a. induction k as [| k IH]; intro a; cbn [failed_attempts In];
    [tauto |].
  intros [H | [H | H]]; [injection H as <-; lia | discriminate |].
  apply IH in H. lia.
Qed.

Lemma request_trace_attempts (respond : nat -> Gemini.attempt_outcome)
    (R delay a : nat) :
  In (Gemini.EvCall a)
    (snd (Gemini.generate_gemini_response respond R delay)) ->
  a < R.
Proof.
  unfold Gemini.generate_gemini_response. destruct R as [| R']; [intros [] |].
  destruct (attempt_loop_shape respond (S R') delay (S R') 0)
    as [k [Hk E]]; [reflexivity | lia |].
  rewrite E. intro H. apply in_app_or in H as [H | [H | []]].
  - apply failed_attempts_calls in H. lia.
  - injection H as <-. lia.
Qed.

Section GeminiRouting.
Variable cfg : Gemini.config.
Variable fs : FileSystem.
Variable model : Gemini.item -> nat -> Gemini.attempt_outcome.

Lemma item_log_conditions (it : Gemini.item) (e : log_entry Gemini.item) :
  In e (snd (Gemini.process_single_item_gemini cfg fs model it)) ->
  fs_encodes fs (Gemini.image_path it) = true
  /\ Gemini.text_unreadable fs (Gemini.text_path it) = false.
Proof.
  unfold Gemini.process_single_item_gemini.
  destruct (Gemini.get_image_id_from_path (Gemini.image_path it)) as [n |];
    [| intros []].
  destruct (fs_encodes fs (Gemini.image_path it)); cbn [negb];
    [| intros []].
  destruct (Gemini.text_unreadable fs (Gemini.text_path it)); [intros [] |].
  now split.
Qed.

Lemma merge_result_log (st : odict * list (log_entry Gemini.item))
    (it : Gemini.item) (e : log_entry Gemini.item) :
  In e (snd (Gemini.merge_result cfg fs model st it)) ->
  In e (snd st)
  \/ In e (snd (Gemini.process_single_item_gemini cfg fs model it))
  \/ exists d, e = LogSave d.
Proof.
  unfold Gemini.merge_result. destruct st as [tr lg].
  destruct (Gemini.process_single_item_gemini cfg fs model it)
    as [[k v] evs].
  cbn [fst snd]. destruct (_ =? 0); cbn [snd]; rewrite ?in_app_iff;
    cbn [In]; intuition eauto.
Qed.

Lemma fold_merge_log (order : list Gemini.item)
    (st : odict * list (log_entry Gemini.item))
    (e : log_entry Gemini.item) :
  In e (snd (fold_left (Gemini.merge_result cfg fs model) order st)) ->
  In e (snd st)
  \/ (exists it,
         In it order
         /\ In e (snd (Gemini.process_single_item_gemini cfg fs model it)))
  \/ exists d, e = LogSave d.
Proof.
  revert st. induction order as [| it r IH]; intro st; cbn [fold_left].
  - tauto.
  - intro H. apply IH in H as [H | [[x [Hx H]] | H]].
    + apply merge_result_log in H as [H | [H | H]]; [tauto | | tauto].
      right. left. exists it. split; [now left | exact H].
    + right. left. exists x. split; [now right | exact H].
    + tauto.
Qed.
End GeminiRouting.

(** X22.  A direct-mode run only calls the model for items of the list
    of its task (the image-text items for tasks 6 to 8, the image-only
    items otherwise) that have an ID which is not a key of the checkpoint,
    whose image encodes and whose text file, when they have one, can be
    read. *)
Theorem gemini_calls_only_for_remaining (cfg : Gemini.config)
    (fs : FileSystem) (model : Gemini.item -> nat -> Gemini.attempt_outcome)
    (completion : list Gemini.item -> list Gemini.item) (task_num : nat)
    (image_only_items image_text_items : list Gemini.item)
    (checkpoint : checkpoint_file) (it : Gemini.item) (attempt : nat) :
  (forall l, Permutation (completion l) l) ->
  In (LogCall it attempt)
    (Gemini.log
       (Gemini.run_task_for_language_gemini cfg fs model completion task_num
          image_only_items image_text_items checkpoint)) ->
  In it (if 6 <=? task_num then image_text_items else image_only_items)
  /\ (exists n,
         Gemini.get_image_id_from_path (Gemini.image_path it) = Some n
         /\ ~ In (Py.str n) (od_keys (load_checkpoint checkpoint)))
  /\ fs_encodes fs (Gemini.image_path it) = true
  /\ Gemini.text_unreadable fs (Gemini.text_path it) = false
  /\ attempt < Gemini.retry_attempts cfg.
Proof.
  intros Hperm Hin. unfold Gemini.run_task_for_language_gemini in Hin.
  cbv zeta in Hin.
  set (items := if 6 <=? task_num then image_text_items
                else image_only_items) in *.
  set (remaining := Gemini.remaining_items items
                      (od_keys (load_checkpoint checkpoint))) in *.
  destruct remaining as [| x l] eqn:E; [destruct Hin |].
  rewrite <- E in Hin.
  pose proof (fold_merge_log cfg fs model (completion remaining)
                (load_checkpoint checkpoint, []) (LogCall it attempt))
    as Hlog.
  destruct (fold_left _ (completion remaining) _) as [tr lg].
  cbn [Gemini.log snd] in *.
  apply in_app_or in Hin as [Hin | [Hin | []]]; [| discriminate].
  apply Hlog in Hin as [[] | [[x' [Hx Hin]] | [d Hd]]]; [| discriminate].
  pose proof (item_log_entries cfg fs model x' _ Hin) as Heq.
  cbn in Heq. subst x'.
  apply (Permutation_in _ (Hperm remaining)) in Hx.
  unfold remaining, Gemini.remaining_items in Hx.
  apply filter_In in Hx as [Hitems Hid].
  destruct (item_log_conditions cfg fs model it _ Hin) as [Henc Htxt].
  split; [exact Hitems |]. split; [| split; [exact Henc | split;
                                              [exact Htxt |]]].
  - destruct (Gemini.get_image_id_from_path (Gemini.image_path it))
      as [n |]; [| discriminate].
    exists n. split; [reflexivity |]. rewrite <- str_in_spec.
    now destruct (str_in (Py.str n) (od_keys (load_checkpoint checkpoint))).
  - revert Hin. unfold Gemini.process_single_item_gemini.
    destruct (Gemini.get_image_id_from_path (Gemini.image_path it))
      as [n |]; [| intros []].
    rewrite Henc, Htxt. cbn [negb].
    pose proof (request_trace_attempts (model it)
                  (Gemini.retry_attempts cfg) (Gemini.retry_delay cfg))
      as Hatt.
    destruct (Gemini.generate_gemini_response _ _ _) as [r evs].
    cbn [snd] in *. unfold Gemini.log_of. intro He.
    apply in_map_iff in He as [ev [Hev He]].
    destruct ev; [| discriminate]. injection Hev as ->.
    now apply Hatt.
Qed.

Lemma gemini_calls_only_for_remaining_witness :
  let fs := {| fs_isdir := fun _ => true; fs_listdir := fun _ => [];
               fs_exists := fun _ => false; fs_encodes := fun _ => true;
               fs_read_utf8 := fun _ => ReadOtherError;
               fs_read_latin1 := fun _ => ReadOtherError |} in
  let it := {| Gemini.image_path := "data/image2.jpg";
               Gemini.text_path := None |} in
  In it [it]
  /\ (exists n,
         Gemini.get_image_id_from_path (Gemini.image_path it) = Some n
         /\ ~ In (Py.str n) (od_keys (load_checkpoint CkAbsent)))
  /\ fs_encodes fs (Gemini.image_path it) = true
  /\ Gemini.text_unreadable fs (Gemini.text_path it) = false
  /\ 2 < Gemini.retry_attempts Gemini.BASE_CONFIG.
Proof.
  cbv zeta.
  apply (gemini_calls_only_for_remaining Gemini.BASE_CONFIG
           {| fs_isdir := fun _ => true; fs_listdir := fun _ => [];
              fs_exists := fun _ => false; fs_encodes := fun _ => true;
              fs_read_utf8 := fun _ => ReadOtherError;
              fs_read_latin1 := fun _ => ReadOtherError |}
           (fun _ _ => Gemini.Raises "unavailable") (fun l => l) 1
           [ {| Gemini.image_path := "data/image2.jpg";
                Gemini.text_path := None |} ]
           [] CkAbsent
           {| Gemini.image_path := "data/image2.jpg";
              Gemini.text_path := None |} 2
           (fun l => Permutation_refl l)).
  vm_compute. tauto.
Defined.

(** X23.  Direct mode on the items its loader returns: in tasks 1 to 5
    the model is only called for images for which no text file was found,
    in tasks 6 to 8 only for images paired with an existing text file; in
    both cases the image is an image file of the data directory. *)
Theorem gemini_task_routing (cfg : Gemini.config) (fs : FileSystem)
    (model : Gemini.item -> nat -> Gemini.attempt_outcome)
    (completion : list Gemini.item -> list Gemini.item) (task_num : nat)
    (data_dir : string) (checkpoint : checkpoint_file)
    (it : Gemini.item) (attempt : nat) :
  (forall l, Permutation (completion l) l) ->
  In (LogCall it attempt)
    (Gemini.log
       (Gemini.run_task_for_language_gemini cfg fs model completion task_num
          (fst (Gemini.load_data_items fs data_dir))
          (snd (Gemini.load_data_items fs data_dir)) checkpoint)) ->
  Gemini.text_path it
  = Gemini.find_matching_text_file fs (Gemini.image_path it)
  /\ (if 6 <=? task_num
      then exists t, Gemini.text_path it = Some t
                     /\ fs_exists fs t = true
                     /\ read_text_file fs t <> None
      else Gemini.text_path it = None)
  /\ In (Gemini.image_path it) (gemini_images_found fs data_dir).
Proof.
  intros Hperm Hin.
  pose proof (fold_merge_log cfg fs model) as Hfold.
  unfold Gemini.run_task_for_language_gemini in Hin. cbv zeta in Hin.
  set (items := if 6 <=? task_num
                then snd (Gemini.load_data_items fs data_dir)
                else fst (Gemini.load_data_items fs data_dir)) in *.
  set (remaining := Gemini.remaining_items items
                      (od_keys (load_checkpoint checkpoint))) in *.
  destruct remaining as [| x l] eqn:E; [destruct Hin |].
  rewrite <- E in Hin.
  specialize (Hfold (completion remaining) (load_checkpoint checkpoint, [])
                (LogCall it attempt)).
  destruct (fold_left _ (completion remaining) _) as [tr lg].
  cbn [Gemini.log snd] in *.
  apply in_app_or in Hin as [Hin | [Hin | []]]; [| discriminate].
  apply Hfold in Hin as [[] | [[x' [Hx Hin]] | [d Hd]]]; [| discriminate].
  pose proof (item_log_entries cfg fs model x' _ Hin) as Heq.
  cbn in Heq. subst x'.
  destruct (item_log_conditions cfg fs model it _ Hin) as [_ Htxt].
  apply (Permutation_in _ (Hperm remaining)) in Hx.
  unfold remaining, Gemini.remaining_items in Hx.
  apply filter_In in Hx as [Hitems _]. clear - Hitems Htxt.
  destruct (fs_isdir fs data_dir) eqn:Hdir.
  2:{ unfold items, Gemini.load_data_items in Hitems. rewrite Hdir in Hitems.
      destruct (6 <=? task_num); destruct Hitems. }
  unfold items in Hitems.
  rewrite (gemini_loaded_items fs data_dir Hdir) in Hitems.
  cbn [fst snd] in Hitems.
  assert (Hfound : forall p, In p (Gemini.image_paths_found fs data_dir) ->
                             In p (gemini_images_found fs data_dir)).
  { intros p Hp. unfold Gemini.image_paths_found in Hp.
    apply In_firstn in Hp. apply in_map_iff in Hp as [[k q] [Hq Hp]].
    cbn in Hq. subst q.
    apply (Permutation_in _ (sort_by_perm_gen Gemini.key_lt _)) in Hp.
    apply in_map_iff in Hp as [q [Hq Hp]]. now injection Hq as _ ->. }
  destruct (6 <=? task_num);
    apply in_map_iff in Hitems as [p [<- Hp]];
    apply filter_In in Hp as [Hp Ht];
    rewrite classify_eq in *; cbn [Gemini.text_path Gemini.image_path] in *;
    (split; [reflexivity |]); (split; [| now apply Hfound]).
  - destruct (Gemini.find_matching_text_file fs p) as [t |] eqn:Ef;
      [| discriminate].
    exists t. destruct (gemini_find_exists fs p t Ef) as [Hex _].
    repeat split; [exact Hex |].
    destruct (gemini_find_exists fs p t Ef) as [_ Htr].
    unfold Gemini.text_unreadable in Htxt.
    destruct t as [| c t']; [discriminate |].
    now destruct (read_text_file fs (String c t')).
  - destruct (Gemini.find_matching_text_file fs p) as [t |] eqn:Ef;
      [| reflexivity].
    destruct (gemini_find_exists fs p t Ef) as [_ Htr].
    rewrite Htr in Ht. discriminate.
Qed.

Lemma gemini_task_routing_witness :
  let fs := {| fs_isdir := fun _ => true;
               fs_listdir := fun _ => ["image1.jpg"; "image2.jpg"];
               fs_exists := fun p => String.eqb p "data/text2.txt";
               fs_encodes := fun _ => true;
               fs_read_utf8 := fun _ => ReadOk "a cat";
               fs_read_latin1 := fun _ => ReadOtherError |} in
  let it := {| Gemini.image_path := "data/image2.jpg";
               Gemini.text_path := Some "data/text2.txt" |} in
  Gemini.text_path it
  = Gemini.find_matching_text_file fs (Gemini.image_path it)
  /\ (exists t, Gemini.text_path it = Some t
                /\ fs_exists fs t = true
                /\ read_text_file fs t <> None)
  /\ In (Gemini.image_path it) (gemini_images_found fs "data").
Proof.
  cbv zeta.
  apply (gemini_task_routing Gemini.BASE_CONFIG
           {| fs_isdir := fun _ => true;
              fs_listdir := fun _ => ["image1.jpg"; "image2.jpg"];
              fs_exists := fun p => String.eqb p "data/text2.txt";
              fs_encodes := fun _ => true;
              fs_read_utf8 := fun _ => ReadOk "a cat";
              fs_read_latin1 := fun _ => ReadOtherError |}
           (fun _ _ => Gemini.Text "two cats") (fun l => l) 6 "data"
           CkAbsent
           {| Gemini.image_path := "data/image2.jpg";
              Gemini.text_path := Some "data/text2.txt" |} 0
           (fun l => Permutation_refl l)).
  vm_compute. tauto.
Defined.
